(** * The OPA server: policy/data handlers, request parameters, RPC verdicts

    A shallow embedding of [server/server.go] and [server/grpc-server.go].
    Go functions returning [(value, error)] become functions into [outcome];
    a run-time panic (failed type assertion, index or slice out of range) is
    the third constructor.  State held by the server (the store and the
    published compiler) is passed explicitly.  The packages the server
    imports but which are not part of the sources at hand ([fmt], [ast],
    [storage], [topdown]) are reached through the classes [Fmt], [AST],
    [Storage] and [Topdown]. *)

From Stdlib Require Import ZArith List Bool Ascii String Lia DecimalString.
From stdpp Require Import base option list strings gmap.
Import ListNotations.

Set Warnings "-register-all".
Local Open Scope string_scope.
Local Open Scope Z_scope.
Local Open Scope list_scope.

(** ** Go strings *)

Definition slash : ascii := "/"%char.
Definition colon : ascii := ":"%char.

(** [strings.TrimLeft(s, "/")] *)
Fixpoint TrimLeft (s : string) : string :=
  match s with
  | String c s' => if Ascii.eqb c slash then TrimLeft s' else s
  | EmptyString => EmptyString
  end.

(** [strings.TrimRight(s, "/")] *)
Fixpoint TrimRight (s : string) : string :=
  match s with
  | EmptyString => EmptyString
  | String c s' =>
      match TrimRight s' with
      | EmptyString => if Ascii.eqb c slash then EmptyString else String c EmptyString
      | t => String c t
      end
  end.

(** [strings.Trim(s, "/")] *)
Definition Trim (s : string) : string := TrimRight (TrimLeft s).

(** [strings.Split(s, sep)] for a one-byte separator: always at least one
    piece, empty pieces kept. *)
Fixpoint Split (sep : ascii) (s : string) : list string :=
  match s with
  | EmptyString => [EmptyString]
  | String c s' =>
      if Ascii.eqb c sep then EmptyString :: Split sep s'
      else match Split sep s' with
           | p :: ps => String c p :: ps
           | [] => [String c EmptyString]
           end
  end.

(** [strings.SplitN(s, sep, 2)]: cut at the first separator, if any. *)
Fixpoint SplitN2 (sep : ascii) (s : string) : list string :=
  match s with
  | EmptyString => [EmptyString]
  | String c s' =>
      if Ascii.eqb c sep then [EmptyString; s']
      else match SplitN2 sep s' with
           | p :: ps => String c p :: ps
           | [] => [String c EmptyString]
           end
  end.

(** [strings.Join(xs, sep)] *)
Fixpoint Join (sep : string) (xs : list string) : string :=
  match xs with
  | [] => ""
  | [x] => x
  | x :: rest => x +:+ sep +:+ Join sep rest
  end.

(** Whether the byte [c] occurs in [s] ([strings.IndexByte(s, c) >= 0]). *)
Fixpoint contains (c : ascii) (s : string) : bool :=
  match s with
  | EmptyString => false
  | String x s' => Ascii.eqb x c || contains c s'
  end.

(** ** [strconv] *)

Definition digitVal (c : ascii) : option Z :=
  let n := Z.of_N (N_of_ascii c) in
  if (48 <=? n) && (n <=? 57) then Some (n - 48) else None.

Fixpoint parseDigits (acc : Z) (s : string) : option Z :=
  match s with
  | EmptyString => Some acc
  | String c s' =>
      match digitVal c with
      | Some d => parseDigits (10 * acc + d) s'
      | None => None
      end
  end.

Definition maxInt64 : Z := 2 ^ 63 - 1.
Definition minInt64 : Z := - 2 ^ 63.

Inductive numError := ErrSyntax | ErrRange.

(** [strconv.ParseInt(s, 10, 64)]: the value returned together with the
    error.  On a syntax error the value is 0; on a range error it is the
    nearest bound. *)
Definition ParseInt (s : string) : Z * option numError :=
  let '(neg, body) :=
    match s with
    | String "+" r => (false, r)
    | String "-" r => (true, r)
    | _ => (false, s)
    end in
  match body with
  | EmptyString => (0, Some ErrSyntax)
  | _ =>
      match parseDigits 0 body with
      | None => (0, Some ErrSyntax)
      | Some un =>
          if negb neg && (2 ^ 63 <=? un) then (maxInt64, Some ErrRange)
          else if neg && (2 ^ 63 <? un) then (minInt64, Some ErrRange)
          else (if neg then - un else un, None)
      end
  end.

(** [strconv.Atoi] on a 64-bit platform. *)
Definition Atoi (s : string) : Z * option numError := ParseInt s.

(** [strconv.Itoa] *)
Definition Itoa (n : Z) : string := NilZero.string_of_int (Z.to_int n).

(** ** Store paths and errors *)

(** [storage.Path] is a slice of segments. *)
Definition Path : Type := list string.

(** Package [fmt], and how a [storage.Path] is written: neither is part of
    the sources at hand.  [Sprintf f a] stands for [fmt.Sprintf(f, a...)]
    with string operands, as [handleErrorf] calls it; [handleError] passes
    the text of an error as the format, without operands.  Of [fmt] only
    this is taken for granted: a format without [%] is written as it is, and
    a final [%v] writes the string operand as it is.  [Path_String p] is
    what the verb [%v] writes for the path [p]. *)
Class Fmt : Type := {
  Sprintf : string -> list string -> string;
  Sprintf_plain : forall f, contains "%" f = false -> Sprintf f [] = f;
  Sprintf_v : forall pre x,
    contains "%" pre = false -> Sprintf (pre +:+ "%v") [x] = pre +:+ x;
  Path_String : Path -> string;
}.

(** Modelled from the spec: the codes of [storage.Error] that the server
    distinguishes (the error taxonomy: NotFound, InvalidPatch, anything
    else). *)
Inductive storageCode := InternalErr | NotFoundErr | InvalidPatchErr.

(** The dynamic types an [error] value has in the server. *)
Inductive error : Type :=
| storageError (code : storageCode) (msg : string) (* *storage.Error *)
| WriteConflictError (path : Path)
| badRequestError (msg : string)
| astErrors (errs : list string)                   (* ast.Errors *)
| errorString (msg : string)                       (* fmt.Errorf, errors.New *)
| withMessage (cause : error) (msg : string).      (* pkg/errors wrappers *)

Inductive outcome (A : Type) : Type :=
| Return (a : A)
| Fail (e : error)
| Panic.
Arguments Return {A} a.
Arguments Fail {A} e.
Arguments Panic {A}.

(** Sequencing: an error or a panic of the first call ends the function.
    Written [x ← m; k] below. *)
#[global] Instance outcome_bind : MBind outcome := fun A B k m =>
  match m with
  | Return a => k a
  | Fail e => Fail e
  | Panic => Panic
  end.

Definition newline : string := String (ascii_of_nat 10) EmptyString.

(** [err.Error()].  The formats of [WriteConflictError] and of the two
    bad-patch errors are constants that end in [%v]. *)
Definition Error {F : Fmt} (err : error) : string :=
  (fix go (e : error) : string :=
     match e with
     | storageError _ msg => msg
     | WriteConflictError path => "write conflict: " +:+ Path_String path
     | badRequestError msg => msg
     | astErrors errs => Join newline errs
     | errorString msg => msg
     | withMessage cause msg => msg +:+ ": " +:+ go cause
     end) err.

Definition IsNotFound (err : error) : bool :=
  match err with storageError NotFoundErr _ => true | _ => false end.

Definition IsInvalidPatch (err : error) : bool :=
  match err with storageError InvalidPatchErr _ => true | _ => false end.

Definition IsWriteConflict (err : error) : bool :=
  match err with WriteConflictError _ => true | _ => false end.

Definition isBadRequest (err : error) : bool :=
  match err with badRequestError _ => true | _ => false end.

Definition badPatchOperationError (op : string) : error :=
  badRequestError ("bad patch operation: " +:+ op).

Definition badPatchPathError (path : string) : error :=
  badRequestError ("bad patch path: " +:+ path).

(** [errors.Cause] of pkg/errors: follow [Cause()] while the error has one. *)
Fixpoint Cause (err : error) : error :=
  match err with
  | withMessage cause _ => Cause cause
  | _ => err
  end.

#[global] Instance storageCode_eq_dec : EqDecision storageCode.
Proof. solve_decision. Defined.

#[global] Instance error_eq_dec : EqDecision error.
Proof.
  intros x; induction x; intros [] ; try (right; discriminate).
  - destruct (decide (code = code0)), (decide (msg = msg0)); subst;
      (left; reflexivity) || (right; congruence).
  - destruct (decide (path = path0)); subst; (left; reflexivity) || (right; congruence).
  - destruct (decide (msg = msg0)); subst; (left; reflexivity) || (right; congruence).
  - destruct (decide (errs = errs0)); subst; (left; reflexivity) || (right; congruence).
  - destruct (decide (msg = msg0)); subst; (left; reflexivity) || (right; congruence).
  - destruct (IHx cause), (decide (msg = msg0)); subst;
      (left; reflexivity) || (right; congruence).
Defined.

(** ** Responses *)

(** What a handler writes: the status code and the body.  [J] is the type of
    the values a handler serialises with [handleResponseJSON]. *)
Inductive body (J : Type) : Type :=
| apiErrorV1 (Code : Z) (Message : string)
| astErrorV1 (Code : Z) (Message : string) (Errors : list string)
| rawBody (bs : option string)
| jsonBody (v : J) (pretty : bool).
Arguments apiErrorV1 {J} Code Message.
Arguments astErrorV1 {J} Code Message Errors.
Arguments rawBody {J} bs.
Arguments jsonBody {J} v pretty.

Record response (J : Type) : Type := Response { status : Z; payload : body J }.
Arguments Response {J} status payload.
Arguments status {J} r.
Arguments payload {J} r.

Definition handleErrorf {F : Fmt} {J} (code : Z) (f : string) (a : list string)
    : response J :=
  Response code (apiErrorV1 code (Sprintf f a)).

Definition handleError {F : Fmt} {J} (code : Z) (err : error) : response J :=
  handleErrorf code (Error err) [].

Definition handleErrorAST {J} (code : Z) (msg : string) (errs : list string) : response J :=
  Response code (astErrorV1 code msg errs).

Definition handleResponse {J} (code : Z) (bs : option string) : response J :=
  Response code (rawBody (if code =? 204 then None else bs)).

Definition compileModErrMsg : string :=
  "error(s) occurred while compiling module(s), see Errors".

(** The dynamic type of an [error] value. *)
Definition sameDynamicType (a b : error) : bool :=
  match a, b with
  | storageError _ _, storageError _ _
  | WriteConflictError _, WriteConflictError _
  | badRequestError _, badRequestError _
  | astErrors _, astErrors _
  | errorString _, errorString _
  | withMessage _ _, withMessage _ _ => true
  | _, _ => false
  end.

(** Whether the dynamic type can be compared with [==]: [ast.Errors] is a
    slice, and [WriteConflictError] is a struct that holds one (a
    [storage.Path]); the other errors are pointers or strings. *)
Definition comparable (err : error) : bool :=
  match err with
  | astErrors _ | WriteConflictError _ => false
  | _ => true
  end.

(** [curr != prev] on two [error] interfaces, [prev] being the nil interface
    at first ([None]).  Values of different dynamic types differ.  Two values
    of one dynamic type are compared, and that comparison panics (the result
    is [None]) when the type is not comparable.  The loop below only ever
    compares an error with its own [errors.Cause], so a pointer is compared
    with itself whenever what it points to is. *)
Definition differ (curr : error) (prev : option error) : option bool :=
  match prev with
  | None => Some true
  | Some p =>
      if sameDynamicType curr p then
        if comparable curr then Some (negb (bool_decide (curr = p))) else None
      else Some true
  end.

(** The loop of [handleErrorAuto]:
    [for curr := err; curr != prev; { ...; prev = curr; curr = errors.Cause(prev) }].
    The result is [None] when [fuel] iterations did not leave the loop, and
    otherwise the response written, [Some None] standing for the panic of
    the comparison. *)
Fixpoint handleErrorAuto_loop {F : Fmt} {J} (fuel : nat) (err : error)
    (prev : option error) (curr : error) : option (option (response J)) :=
  match fuel with
  | O => None
  | S fuel' =>
      match differ curr prev with
      | None => Some None
      | Some false => Some (Some (handleError 500 err))
      | Some true =>
          if IsNotFound curr then Some (Some (handleError 404 err))
          else if IsWriteConflict curr then Some (Some (handleError 404 err))
          else if isBadRequest curr then Some (Some (handleError 400 err))
          else if IsInvalidPatch curr then Some (Some (handleError 400 err))
          else handleErrorAuto_loop fuel' err (Some curr) (Cause curr)
      end
  end.

(** [handleErrorAuto]: the response written, or [None] for the panic.  Three
    iterations always leave the loop ([handleErrorAuto_loop_fuel]). *)
Definition handleErrorAuto {F : Fmt} {J} (err : error) : option (response J) :=
  default None (handleErrorAuto_loop 3 err None err).

(** The status mapping in the words of the error taxonomy: walk the cause
    chain one link at a time until a recognised kind is found or the chain
    is exhausted. *)
Definition recognisedStatus (err : error) : option Z :=
  if IsNotFound err then Some 404
  else if IsWriteConflict err then Some 404
  else if isBadRequest err then Some 400
  else if IsInvalidPatch err then Some 400
  else None.

Fixpoint statusByChain (err : error) : Z :=
  match recognisedStatus err with
  | Some code => code
  | None =>
      match err with
      | withMessage cause _ => statusByChain cause
      | _ => 500
      end
  end.

(** The errors on which the loop of the responder panics: no kind is
    recognised in the chain and the root cause cannot be compared. *)
Definition unanswerable (err : error) : bool :=
  match recognisedStatus (Cause err) with
  | Some _ => false
  | None => negb (comparable (Cause err))
  end.

(** ** Terms and documents *)

(** Modelled from the spec: the term language of package [ast] is not in the
    sources.  §3: a value is one of null, boolean, number, string, array,
    object (ordered key to value, unique keys), set, variable or reference;
    a reference is a sequence of elements whose head is the root variable.
    Object keys are the string keys the request builder works with. *)
Inductive Value : Type :=
| Null
| Boolean (b : bool)
| Number (n : Z)
| Str (s : string)
| Var (name : string)
| Ref (elems : list Value)
| Array (elems : list Value)
| Object (kvs : list (string * Value))
| Set_ (elems : list Value).

Definition DefaultRootDocument : Value := Var "data".
Definition RequestRootDocument : Value := Var "request".
Definition EmptyRef : Value := Ref [].
Definition StringTerm (s : string) : Value := Str s.
Definition IntNumberTerm (i : Z) : Value := Number i.

(** Modelled from the spec: how a reference is shown in messages,
    [request.a.b] for string keys and [request.a[1]] for other elements. *)
Definition refElem_String (v : Value) : string :=
  match v with
  | Str s => "." +:+ s
  | Number n => "[" +:+ Itoa n +:+ "]"
  | Var x => "[" +:+ x +:+ "]"
  | _ => "[_]"
  end.

Definition Ref_String (elems : list Value) : string :=
  match elems with
  | [] => ""
  | Var root :: rest => root +:+ String.concat "" (map refElem_String rest)
  | _ :: rest => "_" +:+ String.concat "" (map refElem_String rest)
  end.

(** The variables a term mentions, in the order [ast.WalkVars] meets them. *)
Fixpoint Vars (v : Value) : list string :=
  match v with
  | Var x => [x]
  | Ref elems | Array elems | Set_ elems =>
      (fix all (vs : list Value) : list string :=
         match vs with [] => [] | x :: rest => (Vars x ++ all rest)%list end) elems
  | Object kvs =>
      (fix all (xs : list (string * Value)) : list string :=
         match xs with [] => [] | (_, x) :: rest => (Vars x ++ all rest)%list end) kvs
  | _ => []
  end.

(** What [interface{}] holds for a document: the JSON values of the store
    and of query results.  A [map[string]interface{}] is listed in the order
    in which a [range] over it visits its entries. *)
Inductive JSON : Type :=
| JNull
| JBool (b : bool)
| JNumber (lit : string)                 (* json.Number *)
| JString (s : string)
| JArray (elems : list JSON)
| JObject (kvs : list (string * JSON)).

(** [m[key]] on a Go map: the nil interface when the key is absent. *)
Fixpoint mapIndex {A} (key : string) (m : list (string * A)) : option A :=
  match m with
  | [] => None
  | (k, v) :: rest => if String.eqb k key then Some v else mapIndex key rest
  end.

(** ** The request builder *)

Definition isObject (v : Value) : bool :=
  match v with Object _ => true | _ => false end.

(** Set key [k] of an ordered object: in place when present, appended
    otherwise. *)
Fixpoint objPut {V} (k : string) (v : V) (kvs : list (string * V))
    : list (string * V) :=
  match kvs with
  | [] => [(k, v)]
  | (k', v') :: rest =>
      if String.eqb k' k then (k, v) :: rest else (k', v') :: objPut k v rest
  end.

(** Modelled from the spec: §3, request document: where two pairs overlap,
    both sides must be objects, merged key by key; any other overlap is a
    conflict ([None]). *)
Fixpoint merge (new old : Value) {struct new} : option Value :=
  match new, old with
  | Object n, Object o =>
      option_map Object
        ((fix mergeKeys (kvs acc : list (string * Value)) {struct kvs}
            : option (list (string * Value)) :=
            match kvs with
            | [] => Some acc
            | (k, v) :: rest =>
                match mapIndex k acc with
                | None => mergeKeys rest (objPut k v acc)
                | Some ov =>
                    match merge v ov with
                    | Some m => mergeKeys rest (objPut k m acc)
                    | None => None
                    end
                end
            end) n o)
  | _, _ => None
  end.

(** Modelled from the spec: §4.1 step 4, the terminal step.  A free slot
    takes the value; an occupied slot conflicts unless both the old and the
    new value are objects. *)
Definition place (slot : option Value) (value : Value) : option Value :=
  match slot with
  | None => Some value
  | Some old => merge value old
  end.

(** Modelled from the spec: §4.1 steps 3 and 4, the descent along [keys]
    inside the object [node], which gives the object with the value placed,
    or the keys of the path that the conflict names.  At a step, a missing
    node becomes an empty object and an object is entered; a value that is
    not an object cannot be entered, and the conflict names the path up to
    and including the key that was to be taken inside it, the offending
    element (the row [conflicting vars-3] of [TestMakeRequest]:
    [a = 100] then [a.b] names [request.a.b]).  At the terminal step the
    conflict names the path of the pair.  With no key at all the value is
    merged into the document as a whole. *)
Fixpoint descend (keys : list string) (value : Value)
    (node : list (string * Value)) : list string + list (string * Value) :=
  match keys with
  | [] =>
      match merge value (Object node) with
      | Some (Object o) => inr o
      | _ => inl []
      end
  | [k] =>
      match place (mapIndex k node) value with
      | Some v => inr (objPut k v node)
      | None => inl [k]
      end
  | k :: ((next :: _) as rest) =>
      match mapIndex k node with
      | None =>
          match descend rest value [] with
          | inr sub => inr (objPut k (Object sub) node)
          | inl named => inl (k :: named)
          end
      | Some (Object o) =>
          match descend rest value o with
          | inr sub => inr (objPut k (Object sub) node)
          | inl named => inl (k :: named)
          end
      | Some _ => inl [k; next]
      end
  end.

Definition errConflictingRequestRoot : error :=
  errorString "conflicting request values: check request parameters".

Definition errConflictingRequest (ref : list Value) : error :=
  errorString ("conflicting request value " +:+ Ref_String ref
               +:+ ": check request parameters").

Definition errInvalidRequestPath (ref : list Value) : error :=
  withMessage
    (errorString ("invalid path " +:+ Ref_String ref
                  +:+ ": path elements must be strings"))
    "invalid request path".

Fixpoint stringKeys (elems : list Value) : option (list string) :=
  match elems with
  | [] => Some []
  | Str s :: rest => option_map (cons s) (stringKeys rest)
  | _ :: _ => None
  end.

(** Modelled from the spec: §4.1.  A ref is empty or is [request] followed
    by string keys only; step 1 drops the leading [request]. *)
Definition requestKeys (ref : Value) : outcome (list Value * list string) :=
  match ref with
  | Ref [] => Return ([], [])
  | Ref ((Var root :: rest) as elems) =>
      match stringKeys rest with
      | Some keys =>
          if String.eqb root "request" then Return (elems, keys)
          else Fail (errInvalidRequestPath elems)
      | None => Fail (errInvalidRequestPath elems)
      end
  | Ref elems => Fail (errInvalidRequestPath elems)
  | other => Fail (errInvalidRequestPath [other])
  end.

(** Modelled from the spec: §4.1 steps 1 to 4 for one pair, [result] being
    unset ([None]) before the first pair.  A result that is an object was
    set by a structural merge (steps 3 and 4 give nothing else), one that is
    not an object was set wholesale (step 2 takes nothing else).  Step 2: a
    value that is not an object, with no key, sets the result wholesale
    unless the result was set by a structural merge.  Steps 3 and 4 need the
    result to be an object, or unset.  A conflict on the document as a whole
    has the message without a path. *)
Definition mergePair (result : option Value) (kv : Value * Value)
    : outcome (option Value) :=
  ks ← requestKeys kv.1;
  let keys := ks.2 in
  let value := kv.2 in
  match keys, isObject value with
  | [], false =>
      match result with
      | Some (Object _) => Fail errConflictingRequestRoot
      | _ => Return (Some value)
      end
  | _, _ =>
      match result with
      | None | Some (Object _) =>
          let node := match result with Some (Object o) => o | _ => [] end in
          match descend keys value node with
          | inr o => Return (Some (Object o))
          | inl [] => Fail errConflictingRequestRoot
          | inl named =>
              Fail (errConflictingRequest (RequestRootDocument :: map Str named))
          end
      | Some _ => Fail errConflictingRequestRoot
      end
  end.

(** Modelled from the spec: [topdown.MakeRequest] is not in the sources (its
    test is); §4.1: the pairs are merged in input order, the first failing
    pair ends the build. *)
Fixpoint MakeRequest_from (result : option Value) (pairs : list (Value * Value))
    : outcome (option Value) :=
  match pairs with
  | [] => Return result
  | kv :: rest =>
      result' ← mergePair result kv;
      MakeRequest_from result' rest
  end.

Definition MakeRequest (pairs : list (Value * Value)) : outcome (option Value) :=
  MakeRequest_from None pairs.

(** ** The packages behind the server *)

Inductive compileResult (C : Type) : Type :=
| Compiled (c : C)
| CompileFailed (errs : list string).
Arguments Compiled {C} c.
Arguments CompileFailed {C} errs.

(** Package [ast], as far as the server calls it.  [Compile mods] stands for
    [c := ast.NewCompiler(); c.Compile(mods)], failing when [c.Failed()];
    [GetRulesForVirtualDocument] answers [None] for the nil slice.  Calls
    into the packages return a value or an error, written [error + A]. *)
Class AST : Type := {
  Mod : Type;                                   (* *ast.Module *)
  Rule : Type;
  Compiler : Type;
  ParseModule : string -> string -> error + option Mod;
  Compile : gmap string Mod -> compileResult Compiler;
  Modules : Compiler -> gmap string Mod;
  GetRulesForVirtualDocument : Compiler -> list Value -> option (list Rule);
  ParseTerm : string -> error + Value;
}.

Inductive PatchOp := AddOp | RemoveOp | ReplaceOp.

(** Package [storage].  [Store] is the state behind [*storage.Storage] as a
    handler sees it inside its transaction; an operation that writes returns
    the state it leaves. *)
Class Storage (A : AST) : Type := {
  Store : Type;
  NewTransaction : Store -> error + unit;
  ListPolicies : Store -> gmap string Mod;
  GetPolicy : Store -> string -> error + (Mod * string);
  InsertPolicy : Store -> string -> Mod -> string -> bool -> error + Store;
  DeletePolicy : Store -> string -> error + Store;
  Read : Store -> Path -> error + JSON;
  Write : Store -> PatchOp -> Path -> JSON -> error + Store;
  ParsePath : string -> option Path;
  PathRef : Value -> Path -> list Value;        (* storage.Path.Ref *)
}.

Record QueryResult : Type := { Result : JSON; Bindings : list (string * JSON) }.

(** Package [topdown] with [topdown/explain], and [parseInput], which
    [grpcDataGet] calls and the sources at hand do not define.  [Query]
    takes the compiler, the store, the request document and the path, and
    returns the result set together with the events a buffer tracer would
    have collected. *)
Class Topdown (A : AST) (St : Storage A) : Type := {
  Event : Type;
  Query : Compiler -> Store -> option Value -> list Value
          -> error + (list QueryResult * list Event);
  Truth : Compiler -> list Event -> error + list Event;
  parseInput : list string -> error + (option Value * bool);
}.

Definition call {A} (r : error + A) : outcome A :=
  match r with
  | inl e => Fail e
  | inr a => Return a
  end.

(** The protocol-buffer messages of the RPC. *)
Module ibp.
Record Attribute : Type := { Id : string; Value : string }.
Inductive Response_Effect := Response_PERMIT | Response_DENY.
Record Response : Type := { Effect : Response_Effect; Obligation : list Attribute }.
Record Request : Type := { Attributes : list Attribute }.
End ibp.

(** ** The server *)

Definition errRequestPathFormat : error :=
  errorString
    "request parameter format is [[<path>]:]<value> where <path> is either var or ref".

Record patchV1 : Type := { Op_ : string; Path_ : string; Value_ : JSON }.

Record ValidateMatch : Type :=
  { ActionData : string; ActionType : string; Priority : Z }.

Definition stringPathToRef (s : string) : list Value :=
  if (String.length s =? 0)%nat then []
  else
    flat_map
      (fun x =>
         if String.eqb x "" then []
         else match Atoi x with
              | (i, None) => [IntNumberTerm i]
              | (_, Some _) => [StringTerm x]
              end)
      (Split slash s).

Definition stringPathToDataRef (s : string) : list Value :=
  DefaultRootDocument :: stringPathToRef s.

Section Server.
Context {F : Fmt} {A : AST} {St : Storage A} {Td : Topdown A St}.

Record patchImpl : Type := { path : Path; op : PatchOp; value : JSON }.

Record policyV1 : Type := { ID : string; Module : option Mod }.

(** The fields of [Server] that the handlers read or write.  [compiler] is
    the field guarded by [mtx]: [s.Compiler()] reads it, [setCompiler]
    replaces it. *)
Record Server : Type := { persist : bool; compiler : Compiler; store : Store }.

Definition setCompiler (s : Server) (c : Compiler) : Server :=
  {| persist := persist s; compiler := c; store := store s |}.

Definition setStore (s : Server) (st : Store) : Server :=
  {| persist := persist s; compiler := compiler s; store := st |}.

(** [New]: the compiler is initialised from the policies found in storage. *)
Definition New (st : Store) (persist : bool) : outcome Server :=
  _ ← call (NewTransaction st);
  match Compile (ListPolicies st) with
  | CompileFailed errs => Fail (astErrors errs)
  | Compiled c => Return {| persist := persist; compiler := c; store := st |}
  end.

Definition writeConflict (c : Compiler) (op : PatchOp) (path : Path) : outcome unit :=
  let path :=
    match op with
    | AddOp => if bool_decide (last path = Some "-") then removelast path else path
    | _ => path
    end in
  let ref := PathRef DefaultRootDocument path in
  match GetRulesForVirtualDocument c ref with
  | Some _ => Fail (WriteConflictError path)
  | None => Return tt
  end.

(** The body of the loop of [prepareV1PatchSlice], for one operation. *)
Definition prepareV1Patch (c : Compiler) (root : string) (p : patchV1) : outcome patchImpl :=
  o ← (if String.eqb (Op_ p) "add" then Return AddOp
       else if String.eqb (Op_ p) "remove" then Return RemoveOp
       else if String.eqb (Op_ p) "replace" then Return ReplaceOp
       else Fail (badPatchOperationError (Op_ p)));
  let path := Trim (Path_ p) in
  let path := if (0 <? String.length path)%nat then root +:+ "/" +:+ path else root in
  match ParsePath path with
  | None => Fail (badPatchPathError (Path_ p))
  | Some sp =>
      _ ← writeConflict c o sp;
      Return {| path := sp; op := o; value := Value_ p |}
  end.

Fixpoint prepareV1PatchSlice_loop (c : Compiler) (root : string)
    (ops : list patchV1) (result : list patchImpl) : outcome (list patchImpl) :=
  match ops with
  | [] => Return result
  | p :: rest =>
      impl ← prepareV1Patch c root p;
      prepareV1PatchSlice_loop c root rest (result ++ [impl])
  end.

Definition prepareV1PatchSlice (c : Compiler) (root : string) (ops : list patchV1)
    : outcome (list patchImpl) :=
  prepareV1PatchSlice_loop c ("/" +:+ Trim root) ops [].

(** [makeDir]; [fuel] counts the segments of [path], and the slice
    [path[:len(path)-1]] of the empty path is the panic. The store
    returned is the one left by the writes made so far. *)
Fixpoint makeDir_rec (fuel : nat) (c : Compiler) (st : Store) (path : Path)
    : Store * outcome unit :=
  match Read st path with
  | inr node =>
      match node with
      | JObject _ => (st, Return tt)
      | _ => (st, Fail (WriteConflictError path))
      end
  | inl err =>
      if negb (IsNotFound err) then (st, Fail err)
      else
        match fuel with
        | O => (st, Panic)
        | S fuel' =>
            match makeDir_rec fuel' c st (removelast path) with
            | (st1, Return _) =>
                match writeConflict c AddOp path with
                | Return _ =>
                    match Write st1 AddOp path (JObject []) with
                    | inr st2 => (st2, Return tt)
                    | inl e => (st1, Fail e)
                    end
                | Fail e => (st1, Fail e)
                | Panic => (st1, Panic)
                end
            | other => other
            end
        end
  end.

Definition makeDir (c : Compiler) (st : Store) (path : Path) : Store * outcome unit :=
  makeDir_rec (length path) c st path.

(** The writes of [v1DataPatch], in order, up to the first that fails. *)
Fixpoint writePatches (st : Store) (patches : list patchImpl) : Store * outcome unit :=
  match patches with
  | [] => (st, Return tt)
  | patch :: rest =>
      match Write st (op patch) (path patch) (value patch) with
      | inr st' => writePatches st' rest
      | inl e => (st, Fail e)
      end
  end.

(** A handler ends with the server state it leaves and the response it
    wrote, if any: there is none ([None]) when the handler panicked, which
    leaves the server as it was at that point. *)
Definition handled (J : Type) : Type := (Server * option (response J))%type.

(** What the data handlers serialise. *)
Inductive dataV1 : Type :=
| resultV1 (result : JSON)
| queryResultSetV1 (qrs : list QueryResult)
| traceV1 (trace : list Event).

(** [PATCH /v1/data/{path}]; [decoded] is what decoding the body gave. *)
Definition v1DataPatch (s : Server) (pathVar : string)
    (decoded : error + list patchV1) : handled dataV1 :=
  match decoded with
  | inl err => (s, Some (handleError 400 err))
  | inr ops =>
      match NewTransaction (store s) with
      | inl err => (s, handleErrorAuto err)
      | inr _ =>
          match prepareV1PatchSlice (compiler s) pathVar ops with
          | Panic => (s, None)
          | Fail err => (s, handleErrorAuto err)
          | Return patches =>
              match writePatches (store s) patches with
              | (st, Return _) => (setStore s st, Some (handleResponse 204 None))
              | (st, Fail err) => (setStore s st, handleErrorAuto err)
              | (st, Panic) => (setStore s st, None)
              end
          end
      end
  end.

(** [PUT /v1/data/{path}]; [ifNoneMatch] is the [If-None-Match] header. *)
Definition v1DataPut (s : Server) (pathVar : string) (ifNoneMatch : string)
    (decoded : error + JSON) : handled dataV1 :=
  match decoded with
  | inl err => (s, Some (handleError 400 err))
  | inr val =>
      match NewTransaction (store s) with
      | inl err => (s, handleErrorAuto err)
      | inr _ =>
          match ParsePath ("/" +:+ Trim pathVar) with
          | None => (s, Some (handleErrorf 400 "bad path format %v" [pathVar]))
          | Some p =>
              let write (st : Store) : handled dataV1 :=
                match Write st AddOp p val with
                | inl err => (setStore s st, handleErrorAuto err)
                | inr st' => (setStore s st', Some (handleResponse 204 None))
                end in
              match Read (store s) p with
              | inl err =>
                  if negb (IsNotFound err) then (s, handleErrorAuto err)
                  else
                    match p with
                    | [] => (s, None)
                    | _ =>
                        match makeDir (compiler s) (store s) (removelast p) with
                        | (st, Return _) => write st
                        | (st, Fail err) => (setStore s st, handleErrorAuto err)
                        | (st, Panic) => (setStore s st, None)
                        end
                    end
              | inr _ =>
                  if String.eqb ifNoneMatch "*" then (s, Some (handleResponse 304 None))
                  else write (store s)
              end
          end
      end
  end.

(** [PUT /v1/policies/{id}]; [body] is what [ioutil.ReadAll] gave. *)
Definition v1PoliciesPut (s : Server) (id : string) (body : error + string)
    : handled policyV1 :=
  match body with
  | inl err => (s, Some (handleError 500 err))
  | inr buf =>
      match ParseModule id buf with
      | inl (astErrors errs) => (s, Some (handleErrorAST 400 compileModErrMsg errs))
      | inl err => (s, Some (handleError 400 err))
      | inr None => (s, Some (handleErrorf 400 "refusing to add empty module" []))
      | inr (Some parsedMod) =>
          match NewTransaction (store s) with
          | inl err => (s, handleErrorAuto err)
          | inr _ =>
              let mods := <[id := parsedMod]> (ListPolicies (store s)) in
              match Compile mods with
              | CompileFailed errs =>
                  (s, Some (handleErrorAST 400 compileModErrMsg errs))
              | Compiled c =>
                  match InsertPolicy (store s) id parsedMod buf (persist s) with
                  | inl err => (s, handleErrorAuto err)
                  | inr st =>
                      (setCompiler (setStore s st) c,
                       Some (Response 200
                               (jsonBody {| ID := id; Module := Modules c !! id |} true)))
                  end
              end
          end
      end
  end.

(** [DELETE /v1/policies/{id}] *)
Definition v1PoliciesDelete (s : Server) (id : string) : handled policyV1 :=
  match NewTransaction (store s) with
  | inl err => (s, handleErrorAuto err)
  | inr _ =>
      match GetPolicy (store s) id with
      | inl err => (s, handleErrorAuto err)
      | inr _ =>
          let mods := delete id (ListPolicies (store s)) in
          match Compile mods with
          | CompileFailed errs => (s, Some (handleErrorAST 400 compileModErrMsg errs))
          | Compiled c =>
              match DeletePolicy (store s) id with
              | inl err => (s, handleErrorAuto err)
              | inr st =>
                  (setCompiler (setStore s st) c, Some (handleResponse 204 None))
              end
          end
      end
  end.

(** The body of the loop of [parseRequest], for the item [s[i]]: the key
    and value terms of the pair. *)
Definition parseRequest_item (item : string) : outcome (Value * Value) :=
  match item with
  | EmptyString => Panic
  | String c rest =>
      if Ascii.eqb c colon then
        v ← call (ParseTerm rest);
        Return (EmptyRef, v)
      else
        match ParseTerm item with
        | inr v => Return (EmptyRef, v)
        | inl _ =>
            match SplitN2 colon item with
            | [p; q] =>
                match ParseTerm ("request" +:+ "." +:+ p) with
                | inl _ => Fail errRequestPathFormat
                | inr k =>
                    v ← call (ParseTerm q);
                    Return (k, v)
                end
            | _ => Fail errRequestPathFormat
            end
        end
  end.

(** [ast.WalkVars] stopping at the first variable other than [data]. *)
Definition mentionsFreeVar (v : Value) : bool :=
  existsb (fun x => negb (String.eqb x "data")) (Vars v).

Fixpoint parseRequest_loop (s : list string) (pairs : list (Value * Value))
    (nonGround : bool) : outcome (list (Value * Value) * bool) :=
  match s with
  | [] => Return (pairs, nonGround)
  | item :: rest =>
      kv ← parseRequest_item item;
      parseRequest_loop rest (pairs ++ [kv])
        (if nonGround then true else mentionsFreeVar kv.2)
  end.

Definition parseRequest (s : list string) : outcome (option Value * bool) :=
  pn ← parseRequest_loop s [] false;
  request ← MakeRequest pn.1;
  Return (request, pn.2).
End Server.

(** ** Query parameters and [GET /v1/data] *)

Inductive explainModeV1 := explainOffV1 | explainFullV1 | explainTruthV1.

(** [strings.ToLower] on ASCII letters. *)
Definition toLower (c : ascii) : ascii :=
  let n := N_of_ascii c in
  if ((65 <=? n) && (n <=? 90))%N then ascii_of_N (n + 32) else c.

Fixpoint ToLower (s : string) : string :=
  match s with
  | EmptyString => EmptyString
  | String c s' => String (toLower c) (ToLower s')
  end.

Definition getPretty (p : list string) : bool :=
  existsb (fun x => String.eqb (ToLower x) "true") p.

Fixpoint getExplain (p : list string) : explainModeV1 :=
  match p with
  | [] => explainOffV1
  | x :: rest =>
      if String.eqb x "full" then explainFullV1
      else if String.eqb x "truth" then explainTruthV1
      else getExplain rest
  end.

Definition isOff (m : explainModeV1) : bool :=
  match m with explainOffV1 => true | _ => false end.

Section DataGet.
Context {F : Fmt} {A : AST} {St : Storage A} {Td : Topdown A St}.

(** [GET /v1/data/{path}] with the values of the [pretty], [explain] and
    [request] query parameters.  Marshalling the answer is taken to
    succeed. *)
Definition v1DataGet (s : Server) (pathVar : string)
    (prettyParam explainParam requestParam : list string) : handled dataV1 :=
  let path := stringPathToDataRef pathVar in
  let pretty := getPretty prettyParam in
  let explainMode := getExplain explainParam in
  match parseRequest requestParam with
  | Panic => (s, None)
  | Fail err => (s, Some (handleError 400 err))
  | Return (request, nonGround) =>
      if nonGround && negb (isOff explainMode) then
        (s, Some (handleError 400
                    (errorString
                       "explanations with non-ground request values not supported")))
      else
        match NewTransaction (store s) with
        | inl err => (s, handleErrorAuto err)
        | inr _ =>
            match Query (compiler s) (store s) request path with
            | inl err => (s, handleErrorAuto err)
            | inr (qrs, buf) =>
                match qrs with
                | [] =>
                    match explainMode with
                    | explainFullV1 =>
                        (s, Some (Response 404 (jsonBody (traceV1 buf) pretty)))
                    | _ => (s, Some (handleResponse 404 None))
                    end
                | qr :: _ =>
                    if nonGround then
                      (s, Some (Response 200 (jsonBody (queryResultSetV1 qrs) pretty)))
                    else
                      match explainMode with
                      | explainOffV1 =>
                          (s, Some (Response 200 (jsonBody (resultV1 (Result qr)) pretty)))
                      | explainFullV1 =>
                          (s, Some (Response 200 (jsonBody (traceV1 buf) pretty)))
                      | explainTruthV1 =>
                          match Truth (compiler s) buf with
                          | inl err => (s, handleErrorAuto err)
                          | inr answer =>
                              (s, Some (Response 200 (jsonBody (traceV1 answer) pretty)))
                          end
                      end
                end
            end
        end
  end.
End DataGet.

(** ** The RPC *)

(** A type assertion [x.(T)] on what a map index returned; a mismatch, the
    nil interface included, panics. *)
Definition assertMap (x : option JSON) : outcome (list (string * JSON)) :=
  match x with Some (JObject m) => Return m | _ => Panic end.

Definition assertString (x : option JSON) : outcome string :=
  match x with Some (JString s) => Return s | _ => Panic end.

Definition assertNumber (x : option JSON) : outcome string :=
  match x with Some (JNumber n) => Return n | _ => Panic end.

(** [json.Number.Int64] *)
Definition Int64 (n : string) : Z * option numError := ParseInt n.

(** The [range] over the matches in [grpcDataGet], [entries] in the order
    of the iteration. *)
Fixpoint rangeMatches (entries : list (string * JSON)) (bestMatch : ValidateMatch)
    : outcome ValidateMatch :=
  match entries with
  | [] => Return bestMatch
  | (_, val) :: rest =>
      m ← assertMap (Some val);
      n ← assertNumber (mapIndex "priority" m);
      let p := (Int64 n).1 in
      if Priority bestMatch <? p then
        t ← assertString (mapIndex "action_type" m);
        d ← assertString (mapIndex "action_data" m);
        rangeMatches rest {| ActionData := d; ActionType := t; Priority := p |}
      else rangeMatches rest bestMatch
  end.

(** The verdict for the best match: permit unless blocked or redirected. *)
Definition effectOf (bestMatch : ValidateMatch) : ibp.Response :=
  if String.eqb (ActionType bestMatch) "action_block" then
    {| ibp.Effect := ibp.Response_DENY; ibp.Obligation := [] |}
  else if String.eqb (ActionType bestMatch) "action_redirect" then
    {| ibp.Effect := ibp.Response_DENY;
       ibp.Obligation := [ {| ibp.Id := "redirect_to"; ibp.Value := ActionData bestMatch |} ] |}
  else {| ibp.Effect := ibp.Response_PERMIT; ibp.Obligation := [] |}.

Definition dquote : string := String (ascii_of_nat 34) EmptyString.

Section RPC.
Context {F : Fmt} {A : AST} {St : Storage A} {Td : Topdown A St}.

(** [grpcDataGet] returns the response together with the error, or
    panics ([None]). *)
Definition grpcDataGet (s : Server) (req : ibp.Request)
    : option (ibp.Response * option error) :=
  let r := {| ibp.Effect := ibp.Response_DENY; ibp.Obligation := [] |} in
  let inputs :=
    map (fun v => ibp.Id v +:+ ":" +:+ dquote +:+ ibp.Value v +:+ dquote)
        (ibp.Attributes req) in
  let cId :=
    fold_left
      (fun cId v => if String.eqb (ibp.Id v) "customer_id" then ibp.Value v else cId)
      (ibp.Attributes req) "" in
  let path := stringPathToDataRef ("opa/" +:+ cId) in
  match parseInput inputs with
  | inl err => Some (r, Some err)
  | inr (input, nonGround) =>
      match NewTransaction (store s) with
      | inl err => Some (r, Some err)
      | inr _ =>
          match Query (compiler s) (store s) input path with
          | inl err => Some (r, Some err)
          | inr (qrs, _) =>
              if nonGround then Some (r, None)
              else
                match qrs with
                | [] => Some (r, None)
                | qr :: _ =>
                    match
                      (results ← assertMap (Some (Result qr));
                       matches ← assertMap (mapIndex "match" results);
                       rangeMatches matches
                         {| ActionData := ""; ActionType := ""; Priority := 0 |})
                    with
                    | Return bestMatch => Some (effectOf bestMatch, None)
                    | Fail _ | Panic => None
                    end
                end
          end
      end
  end.

Definition Validate (s : Server) (req : ibp.Request) := grpcDataGet s req.
End RPC.

(** ** An in-memory instance of the packages

    The theorems below hold for every instance of [Fmt], [AST], [Storage]
    and [Topdown].  This instance is the one they are run on. *)

(** The operands that no verb of the format took, as [fmt] lists them. *)
Definition extraOperands (a : list string) : string :=
  match a with
  | [] => ""
  | _ => "%!(EXTRA " +:+ Join ", " (map (String.append "string=") a) +:+ ")"
  end.

(** A formatter for the examples.  It writes what [fmt.Sprintf] writes for
    formats made of text, [%%], and the verbs [%v] and [%s] on string
    operands: text is copied, [%%] is [%], [%v] and [%s] write the next
    operand, a verb that finds no operand is written [%!v(MISSING)], a [%]
    that ends the format [%!(NOVERB)], and the operands left over are listed
    at the end.  Flags, widths and the other verbs of [fmt] are not
    interpreted. *)
Fixpoint memSprintf (f : string) (a : list string) : string :=
  match f with
  | EmptyString => extraOperands a
  | String c rest =>
      if Ascii.eqb c "%" then
        match rest with
        | EmptyString => "%!(NOVERB)" +:+ extraOperands a
        | String verb rest' =>
            if Ascii.eqb verb "%" then String "%" (memSprintf rest' a)
            else
              match a with
              | x :: a' =>
                  if Ascii.eqb verb "v" || Ascii.eqb verb "s"
                  then x +:+ memSprintf rest' a'
                  else "%!" +:+ String verb ("(string=" +:+ x +:+ ")")
                       +:+ memSprintf rest' a'
              | [] => "%!" +:+ String verb "(MISSING)" +:+ memSprintf rest' []
              end
        end
      else String c (memSprintf rest a)
  end.

(** A path written as its slash-separated segments. *)
Definition memPathString (p : Path) : string := "/" +:+ Join "/" p.

#[global] Instance memFmt : Fmt.
Proof.
  refine {| Sprintf := memSprintf; Path_String := memPathString |}.
  - induction f as [| c f IH]; intros H; [reflexivity |].
    simpl in H. apply orb_false_iff in H as [Hc Hf].
    simpl. rewrite Hc, (IH Hf). reflexivity.
  - induction pre as [| c pre IH]; intros x H.
    + change ("" +:+ "%v") with "%v". simpl.
      change ("" +:+ x) with x. induction x as [| y x IHx]; [reflexivity |].
      change (String y x +:+ "") with (String y (x +:+ "")). rewrite IHx. reflexivity.
    + simpl in H. apply orb_false_iff in H as [Hc Hpre].
      change (String c pre +:+ "%v") with (String c (pre +:+ "%v")).
      change (String c pre +:+ x) with (String c (pre +:+ x)).
      simpl. rewrite Hc, (IH x Hpre). reflexivity.
Defined.

Definition isLetter (c : ascii) : bool :=
  let n := N_of_ascii c in
  (((65 <=? n) && (n <=? 90)) || ((97 <=? n) && (n <=? 122)) || (n =? 95))%N.

Definition isDigit (c : ascii) : bool :=
  let n := N_of_ascii c in ((48 <=? n) && (n <=? 57))%N.

Fixpoint allChars (f : ascii -> bool) (s : string) : bool :=
  match s with
  | EmptyString => true
  | String c s' => f c && allChars f s'
  end.

Definition isIdent (s : string) : bool :=
  match s with
  | EmptyString => false
  | String c rest => isLetter c && allChars (fun x => isLetter x || isDigit x) rest
  end.

(** The text between the quotes of a string literal without escapes, given
    what follows the opening quote. *)
Fixpoint stringBody (s : string) : option string :=
  match s with
  | EmptyString => None
  | String c rest =>
      if Ascii.eqb c (ascii_of_nat 34) then
        match rest with EmptyString => Some EmptyString | _ => None end
      else if Ascii.eqb c (ascii_of_nat 92) then None
      else option_map (String c) (stringBody rest)
  end.

(** Modelled from the spec: [ast.ParseTerm] is not in the sources and the
    policy language is out of scope (§1).  This parser accepts the whole
    input as one term of the fragment made of [null], [true], [false],
    integers, string literals without escapes, variables and dotted
    references (§6: a path is a dotted identifier sequence), and rejects
    every other input. *)
Definition memParseTerm (s : string) : error + Value :=
  let noMatch : error + Value := inl (errorString "no match found") in
  if String.eqb s "null" then inr Null
  else if String.eqb s "true" then inr (Boolean true)
  else if String.eqb s "false" then inr (Boolean false)
  else
    match s with
    | EmptyString => noMatch
    | String c rest =>
        if Ascii.eqb c (ascii_of_nat 34) then
          match stringBody rest with Some b => inr (Str b) | None => noMatch end
        else if isDigit c || Ascii.eqb c "-" then
          match ParseInt s with (n, None) => inr (Number n) | _ => noMatch end
        else
          match Split "." s with
          | [x] => if isIdent x then inr (Var x) else noMatch
          | x :: keys =>
              if isIdent x && forallb isIdent keys
              then inr (Ref (Var x :: map Str keys)) else noMatch
          | [] => noMatch
          end
    end.

(** Modelled from the spec: modules and their compiler are out of scope
    (§1).  A module here records the data paths of the rules it defines and
    of the rules of other modules it refers to (§4.3: cross-module
    references mean a single-module change can invalidate an unrelated
    module). *)
Record memModule : Type := { rules : list Path; imports : list Path }.

(** Modelled from the spec: §3, compiler snapshot: the map from module ID to
    compiled module plus the virtual-document index. *)
Record memCompiler : Type := { cModules : gmap string memModule; cIndex : list Path }.

Definition nonEmptySegments (parts : list string) : bool :=
  forallb (fun x => negb (String.eqb x "")) parts.

Definition memParseSlashPath (s : string) : option Path :=
  let parts := Split slash s in
  if nonEmptySegments parts then Some parts else None.

(** Modelled from the spec: [ast.ParseModule] for the stand-in module
    syntax: the slash-separated data path of the rule defined, optionally
    followed by [:] and the data path of a rule referred to.  The empty
    source is the empty module. *)
Definition memParseModule (id src : string) : error + option memModule :=
  let bad : error + option memModule :=
    inl (astErrors ["rego_parse_error: " +:+ id]) in
  if String.eqb src "" then inr None
  else
    match SplitN2 colon src with
    | [r] =>
        match memParseSlashPath r with
        | Some rp => inr (Some {| rules := [rp]; imports := [] |})
        | None => bad
        end
    | [r; i] =>
        match memParseSlashPath r, memParseSlashPath i with
        | Some rp, Some ip => inr (Some {| rules := [rp]; imports := [ip] |})
        | _, _ => bad
        end
    | _ => bad
    end.

Definition pathIn (p : Path) (ps : list Path) : bool :=
  existsb (fun q => bool_decide (p = q)) ps.

(** Modelled from the spec: compiling the whole set (§4.3 step 4): the set
    compiles when every rule referred to is defined by some module of the
    set. *)
Definition memCompile (mods : gmap string memModule) : compileResult memCompiler :=
  let ms := map snd (map_to_list mods) in
  let defined := flat_map rules ms in
  let dangling := filter (fun p => negb (pathIn p defined)) (flat_map imports ms) in
  match dangling with
  | [] => Compiled {| cModules := mods; cIndex := defined |}
  | _ => CompileFailed (map (fun p => "rego_unsafe_ref_error: " +:+ memPathString p) dangling)
  end.

Fixpoint isPrefix (p q : Path) : bool :=
  match p, q with
  | [], _ => true
  | x :: p', y :: q' => String.eqb x y && isPrefix p' q'
  | _ :: _, [] => false
  end.

(** The store path of a [data] reference. *)
Definition refElemSegment (v : Value) : option string :=
  match v with
  | Str s => Some s
  | Number n => Some (Itoa n)
  | _ => None
  end.

Fixpoint refSegments (elems : list Value) : option Path :=
  match elems with
  | [] => Some []
  | v :: rest =>
      match refElemSegment v, refSegments rest with
      | Some x, Some xs => Some (x :: xs)
      | _, _ => None
      end
  end.

Definition dataRefPath (ref : list Value) : option Path :=
  match ref with
  | Var root :: rest => if String.eqb root "data" then refSegments rest else None
  | _ => None
  end.

(** Modelled from the spec: §4.3, [hasVirtualAt(ref)] is true iff a compiled
    rule defines a value at or under [ref]; the rules found are returned,
    the nil slice when there is none. *)
Definition memGetRules (c : memCompiler) (ref : list Value) : option (list Path) :=
  match dataRefPath ref with
  | Some p =>
      match filter (fun r => isPrefix p r) (cIndex c) with
      | [] => None
      | rs => Some rs
      end
  | None => None
  end.

#[global] Instance memAST : AST := {|
  Mod := memModule;
  Rule := Path;
  Compiler := memCompiler;
  ParseModule := memParseModule;
  Compile := memCompile;
  Modules := cModules;
  GetRulesForVirtualDocument := memGetRules;
  ParseTerm := memParseTerm;
|}.

(** Modelled from the spec: the storage engine is out of scope (§1); §3: a
    document tree addressed by paths of non-empty segments, and the stored
    modules with their raw source. *)
Record memStore : Type := {
  policies : gmap string (memModule * string);
  data : JSON;
}.

Definition notFound (p : Path) : error :=
  storageError NotFoundErr ("document does not exist: " +:+ memPathString p).

Definition arrayIndex (k : string) : option nat :=
  match Atoi k with
  | (i, None) => if 0 <=? i then Some (Z.to_nat i) else None
  | _ => None
  end.

Fixpoint jsonRead (p : Path) (doc : JSON) : option JSON :=
  match p with
  | [] => Some doc
  | k :: rest =>
      match doc with
      | JObject kvs =>
          match mapIndex k kvs with
          | Some child => jsonRead rest child
          | None => None
          end
      | JArray xs =>
          match arrayIndex k with
          | Some i =>
              match nth_error xs i with
              | Some child => jsonRead rest child
              | None => None
              end
          | None => None
          end
      | _ => None
      end
  end.

Fixpoint objRemove {V} (k : string) (kvs : list (string * V)) : list (string * V) :=
  match kvs with
  | [] => []
  | (k', v) :: rest =>
      if String.eqb k' k then rest else (k', v) :: objRemove k rest
  end.

(** The terminal step of a write, inside the container [doc]. *)
Definition jsonWriteAt (whole : Path) (o : PatchOp) (k : string) (v doc : JSON)
    : error + JSON :=
  match doc with
  | JObject kvs =>
      match o, mapIndex k kvs with
      | AddOp, _ | ReplaceOp, Some _ => inr (JObject (objPut k v kvs))
      | RemoveOp, Some _ => inr (JObject (objRemove k kvs))
      | _, None => inl (notFound whole)
      end
  | JArray xs =>
      match o, arrayIndex k with
      | AddOp, None =>
          if String.eqb k "-" then inr (JArray (xs ++ [v])) else inl (notFound whole)
      | AddOp, Some i =>
          if (i <=? length xs)%nat then inr (JArray (take i xs ++ v :: drop i xs))
          else inl (notFound whole)
      | ReplaceOp, Some i =>
          if (i <? length xs)%nat then inr (JArray (take i xs ++ v :: drop (S i) xs))
          else inl (notFound whole)
      | RemoveOp, Some i =>
          if (i <? length xs)%nat then inr (JArray (take i xs ++ drop (S i) xs))
          else inl (notFound whole)
      | _, None => inl (notFound whole)
      end
  | _ => inl (notFound whole)
  end.

Fixpoint jsonWrite (whole : Path) (o : PatchOp) (p : Path) (v doc : JSON)
    : error + JSON :=
  match p with
  | [] =>
      match o with
      | RemoveOp => inl (storageError InvalidPatchErr "root cannot be removed")
      | _ => inr v
      end
  | [k] => jsonWriteAt whole o k v doc
  | k :: rest =>
      match doc with
      | JObject kvs =>
          match mapIndex k kvs with
          | Some child =>
              match jsonWrite whole o rest v child with
              | inr child' => inr (JObject (objPut k child' kvs))
              | inl e => inl e
              end
          | None => inl (notFound whole)
          end
      | JArray xs =>
          match arrayIndex k with
          | Some i =>
              match nth_error xs i with
              | Some child =>
                  match jsonWrite whole o rest v child with
                  | inr child' => inr (JArray (take i xs ++ child' :: drop (S i) xs))
                  | inl e => inl e
                  end
              | None => inl (notFound whole)
              end
          | None => inl (notFound whole)
          end
      | _ => inl (notFound whole)
      end
  end.

(** Modelled from the spec: [storage.ParsePath]: a slash followed by
    slash-separated non-empty segments (§3), the single slash being the
    empty path. *)
Definition memParsePath (str : string) : option Path :=
  match str with
  | String c rest =>
      if Ascii.eqb c slash then
        match rest with
        | EmptyString => Some []
        | _ => memParseSlashPath rest
        end
      else None
  | EmptyString => None
  end.

(** Modelled from the spec: [storage.Path.Ref]: numeric segments become
    integer indices, the others string keys (§4.4 step 1). *)
Definition memPathRef (head : Value) (p : Path) : list Value :=
  head :: map (fun x => match Atoi x with
                        | (i, None) => IntNumberTerm i
                        | _ => StringTerm x
                        end) p.

(** Modelled from the spec: the operations of the storage engine on the
    in-memory state.  [ListPolicies] hands out a copy of the module map
    (§4.3 step 3: the change is applied to a local copy of the set). *)
#[global] Instance memStorage : Storage memAST := {|
  Store := memStore;
  NewTransaction := fun _ => inr tt;
  ListPolicies := fun st => fst <$> policies st;
  GetPolicy := fun st id =>
    match policies st !! id with
    | Some ms => inr ms
    | None => inl (storageError NotFoundErr ("policy module not found: " +:+ id))
    end;
  InsertPolicy := fun st id m buf _ =>
    inr {| policies := <[id := (m, buf)]> (policies st); data := data st |};
  DeletePolicy := fun st id =>
    match policies st !! id with
    | Some _ => inr {| policies := delete id (policies st); data := data st |}
    | None => inl (storageError NotFoundErr ("policy module not found: " +:+ id))
    end;
  Read := fun st p =>
    match jsonRead p (data st) with
    | Some v => inr v
    | None => inl (notFound p)
    end;
  Write := fun st o p v =>
    match jsonWrite p o p v (data st) with
    | inr d => inr {| policies := policies st; data := d |}
    | inl e => inl e
    end;
  ParsePath := memParsePath;
  PathRef := memPathRef;
|}.

(** Modelled from the spec: the evaluator is out of scope (§1).  Here the
    value of a path is the stored document at that path, undefined when
    there is none; no event is traced.  [parseInput] treats the inputs of
    the RPC as [parseRequest] treats the [request] parameters (§4.5). *)
#[global] Instance memTopdown : Topdown memAST memStorage := {|
  Event := unit;
  Query := fun _ st _ ref =>
    match dataRefPath ref with
    | Some p =>
        match jsonRead p (data st) with
        | Some v => inr ([ {| Result := v; Bindings := [] |} ], [])
        | None => inr ([], [])
        end
    | None => inr ([], [])
    end;
  Truth := fun _ buf => inr buf;
  parseInput := fun inputs =>
    match parseRequest inputs with
    | Return x => inr x
    | Fail e => inl e
    | Panic => inl (errorString "index out of range")
    end;
|}.

Definition memServer (mods : list (string * (memModule * string))) (d : JSON)
    (c : memCompiler) : Server :=
  {| persist := false; compiler := c;
     store := {| policies := list_to_map mods; data := d |} |}.

(** ** Vocabulary of the statements *)

(** The value found at [keys] inside a document, if any. *)
Fixpoint valueAt (keys : list string) (doc : Value) : option Value :=
  match keys with
  | [] => Some doc
  | k :: rest =>
      match doc with
      | Object o =>
          match mapIndex k o with
          | Some child => valueAt rest child
          | None => None
          end
      | _ => None
      end
  end.

(** The path part of [request.<dotted-path>]. *)
Definition dottedPath (keys : list string) : string :=
  String.concat "" (map (String.append ".") keys).

Definition requestRef (keys : list string) : Value :=
  Ref (RequestRootDocument :: map Str keys).

Definition conflictMessage (keys : list string) : string :=
  "conflicting request value " +:+ ("request" +:+ dottedPath keys)
  +:+ ": check request parameters".

(** The operation named by the [op] field of a patch, if it is one of the
    three. *)
Definition patchOpOf (o : string) : option PatchOp :=
  if String.eqb o "add" then Some AddOp
  else if String.eqb o "remove" then Some RemoveOp
  else if String.eqb o "replace" then Some ReplaceOp
  else None.

(** The effective path of a patch: the root joined with the path of the
    operation, both stripped of slashes. *)
Definition effectivePath (root path : string) : string :=
  if String.eqb (Trim path) "" then "/" +:+ Trim root
  else ("/" +:+ Trim root) +:+ "/" +:+ Trim path.

(** The path the write-conflict check looks at: a trailing [-] of an add is
    dropped. *)
Definition targetPath (o : PatchOp) (p : Path) : Path :=
  match o with
  | AddOp => if bool_decide (last p = Some "-") then removelast p else p
  | _ => p
  end.

Section Vocabulary.
Context {F : Fmt} {A : AST} {St : Storage A} {Td : Topdown A St}.

(** [hasVirtualAt]: the compiler snapshot has rules for the reference. *)
Definition hasVirtualAt (c : Compiler) (ref : list Value) : bool :=
  match GetRulesForVirtualDocument c ref with
  | Some _ => true
  | None => false
  end.

(** Creating the [missing] segments below [base] one after the other, from
    the shallowest, each as an empty object and each after the
    write-conflict check. *)
Fixpoint materialize (c : Compiler) (st : Store) (base : Path) (missing : list string)
    : Store * outcome unit :=
  match missing with
  | [] => (st, Return tt)
  | k :: rest =>
      match writeConflict c AddOp (base ++ [k]) with
      | Return _ =>
          match Write st AddOp (base ++ [k]) (JObject []) with
          | inr st' => materialize c st' (base ++ [k]) rest
          | inl e => (st, Fail e)
          end
      | Fail e => (st, Fail e)
      | Panic => (st, Panic)
      end
  end.

(** The published compiler is the compilation of the stored modules. *)
Definition snapshotCurrent (s : Server) : Prop :=
  Compile (ListPolicies (store s)) = Compiled (compiler s).

(** What the store owes the policy handlers (§3, module lifecycle: created
    by PUT, deleted by DELETE, changed only by overwrite). *)
Record PolicyStoreLaws : Prop := {
  InsertPolicy_ListPolicies :
    forall st id m buf p st',
      InsertPolicy st id m buf p = inr st' ->
      ListPolicies st' = <[id := m]> (ListPolicies st);
  DeletePolicy_ListPolicies :
    forall st id st',
      DeletePolicy st id = inr st' ->
      ListPolicies st' = delete id (ListPolicies st);
}.

Inductive policyRequest : Type :=
| PolicyPut (id : string) (body : error + string)
| PolicyDelete (id : string).

Definition servePolicy (s : Server) (r : policyRequest) : handled policyV1 :=
  match r with
  | PolicyPut id body => v1PoliciesPut s id body
  | PolicyDelete id => v1PoliciesDelete s id
  end.

(** A sequence of policy requests, one after the other: each is served from
    the state the one before it left. *)
Fixpoint servePolicies (s : Server) (rs : list policyRequest) : Server :=
  match rs with
  | [] => s
  | r :: rest => servePolicies (servePolicy s r).1 rest
  end.

(** The module set a policy request asks for. *)
Definition requestedModules (s : Server) (r : policyRequest) : option (gmap string Mod) :=
  match r with
  | PolicyPut id (inr buf) =>
      match ParseModule id buf with
      | inr (Some m) => Some (<[id := m]> (ListPolicies (store s)))
      | _ => None
      end
  | PolicyPut _ (inl _) => None
  | PolicyDelete id =>
      match GetPolicy (store s) id with
      | inr _ => Some (delete id (ListPolicies (store s)))
      | inl _ => None
      end
  end.

(** The inputs and the path [grpcDataGet] builds from the attributes. *)
Definition rpcInputs (req : ibp.Request) : list string :=
  map (fun v => ibp.Id v +:+ ":" +:+ dquote +:+ ibp.Value v +:+ dquote)
      (ibp.Attributes req).

Definition rpcPath (req : ibp.Request) : list Value :=
  stringPathToDataRef
    ("opa/" +:+ fold_left
                  (fun cId v =>
                     if String.eqb (ibp.Id v) "customer_id" then ibp.Value v else cId)
                  (ibp.Attributes req) "").
End Vocabulary.

(** The servers the properties are run on. *)
Definition emptyCompiler : memCompiler := {| cModules := ∅; cIndex := [] |}.

Definition emptyServer : Server := memServer [] (JObject []) emptyCompiler.

Definition ruleModule (p : Path) : memModule := {| rules := [p]; imports := [] |}.

(** One module, defining the rule [data.a.b]; the document [/a] is an empty
    object. *)
Definition virtualServer : Server :=
  memServer [("p", (ruleModule ["a"; "b"], "a/b"))]
            (JObject [("a", JObject [])])
            {| cModules := {[ "p" := ruleModule ["a"; "b"] ]}; cIndex := [["a"; "b"]] |}.

(** One module, defining the rule [data.a]; the store is empty. *)
Definition shadowedServer : Server :=
  memServer [("p", (ruleModule ["a"], "a"))]
            (JObject [])
            {| cModules := {[ "p" := ruleModule ["a"] ]}; cIndex := [["a"]] |}.

Definition dataServer (d : JSON) : Server := memServer [] d emptyCompiler.

(** The documents the RPC is run on: the value of [data.opa.c1]. *)
Definition tenantServer (result : JSON) : Server :=
  dataServer (JObject [("opa", JObject [("c1", result)])]).

Definition tenantRequest : ibp.Request :=
  {| ibp.Attributes := [ {| ibp.Id := "customer_id"; ibp.Value := "c1" |};
                         {| ibp.Id := "q"; ibp.Value := "x" |} ] |}.

Definition matchEntry (actionType actionData priority : string) : JSON :=
  JObject [("action_data", JString actionData);
           ("action_type", JString actionType);
           ("priority", JNumber priority)].

(** An entry of [match] read as the loop of [grpcDataGet] reads it, when
    all three of its fields have the asserted types. *)
Definition entryOf (val : JSON) : option ValidateMatch :=
  match val with
  | JObject m =>
      match mapIndex "priority" m, mapIndex "action_type" m, mapIndex "action_data" m with
      | Some (JNumber n), Some (JString t), Some (JString d) =>
          Some {| ActionData := d; ActionType := t; Priority := (Int64 n).1 |}
      | _, _, _ => None
      end
  | _ => None
  end.

(** The search for the best match over entries already read. *)
Fixpoint pickBest (ms : list ValidateMatch) (best : ValidateMatch) : ValidateMatch :=
  match ms with
  | [] => best
  | m :: rest => pickBest rest (if Priority best <? Priority m then m else best)
  end.

(** ** The policy read handlers and the query handler *)

Definition compileQueryErrMsg : string :=
  "error(s) occurred while compiling query, see Errors".

(** [handleCompileError] *)
Definition handleCompileError {F : Fmt} {J} (err : error) : response J :=
  match err with
  | astErrors errs => handleErrorAST 400 compileQueryErrMsg errs
  | _ => handleError 400 err
  end.

Section PolicyReads.
Context {F : Fmt} {A : AST} {St : Storage A} {Td : Topdown A St}.

(** [GET /v1/policies/{id}]: the ID is looked up in the store, the module
    shown is the one of the compiler. *)
Definition v1PoliciesGet (s : Server) (id : string) : handled policyV1 :=
  match NewTransaction (store s) with
  | inl err => (s, handleErrorAuto err)
  | inr _ =>
      match GetPolicy (store s) id with
      | inl err => (s, handleErrorAuto err)
      | inr _ =>
          (s, Some (Response 200
                      (jsonBody {| ID := id; Module := Modules (compiler s) !! id |}
                                true)))
      end
  end.

(** [GET /v1/policies/{id}/raw] *)
Definition v1PoliciesRawGet (s : Server) (id : string) : handled policyV1 :=
  match NewTransaction (store s) with
  | inl err => (s, handleErrorAuto err)
  | inr _ =>
      match GetPolicy (store s) id with
      | inl err => (s, handleErrorAuto err)
      | inr (_, bs) => (s, Some (handleResponse 200 (Some bs)))
      end
  end.

(** [GET /v1/policies]: one entry per module of the compiler.  The order of
    a [range] over a Go map is not fixed; the entries are listed here in the
    order of [map_to_list]. *)
Definition v1PoliciesList (s : Server) : handled (list policyV1) :=
  (s, Some (Response 200
              (jsonBody
                 (map (fun kv => {| ID := kv.1; Module := Some kv.2 |})
                      (map_to_list (Modules (compiler s))))
                 true))).
End PolicyReads.

(** What [execQuery] and [v1QueryGet] call: [ast.ParseBody], the query
    compiler, [topdown.Eval] and [topdown.ValueToInterface].  [Eval] gives
    the local bindings of each solution, in the order in which the callback
    is invoked and each in the order of [Locals.Iter], the error of the
    evaluation itself if any, and the events traced. *)
Class QueryEngine (A : AST) (St : Storage A) (Td : Topdown A St) : Type := {
  Body : Type;
  ParseBody : string -> error + Body;
  QueryCompile : Compiler -> Body -> error + Body;
  Eval : Compiler -> Store -> Body
         -> list (list (Value * Value)) * option error * list Event;
  ValueToInterface : Store -> Value -> error + JSON;
  IsWildcard : string -> bool;
}.

Section Query.
Context {F : Fmt} {A : AST} {St : Storage A} {Td : Topdown A St} {Qe : QueryEngine A St Td}.

(** What [execQuery] returns: the result set or a trace. *)
Inductive queryV1 : Type :=
| adhocQueryResultSetV1 (resultSet : list (gmap string JSON))
| queryTraceV1 (trace : list Event).

(** The callback given to [t.Locals.Iter] in [execQuery]: keys that are not
    variables and wildcards are skipped, the first value that does not
    convert stops the iteration with its error. *)
Fixpoint bindLocals (st : Store) (locals : list (Value * Value))
    (result : gmap string JSON) : error + gmap string JSON :=
  match locals with
  | [] => inr result
  | (k, v) :: rest =>
      match k with
      | Var kv =>
          if IsWildcard kv then bindLocals st rest result
          else
            match ValueToInterface st v with
            | inl e => inl e
            | inr vv => bindLocals st rest (<[kv := vv]> result)
            end
      | _ => bindLocals st rest result
      end
  end.

(** The callback given to [topdown.Eval], over the solutions in order. *)
Fixpoint collectSolutions (st : Store) (solutions : list (list (Value * Value)))
    (resultSet : list (gmap string JSON)) : error + list (gmap string JSON) :=
  match solutions with
  | [] => inr resultSet
  | locals :: rest =>
      match bindLocals st locals ∅ with
      | inl e => inl e
      | inr result =>
          collectSolutions st rest
            (if (0 <? size result)%nat then resultSet ++ [result] else resultSet)
      end
  end.

(** [execQuery]; [c] is the compiler the caller read, used for the truth
    explanation, while the evaluation runs on [s.Compiler()]. *)
Definition execQuery (s : Server) (c : Compiler) (query : Body)
    (explainMode : explainModeV1) : error + queryV1 :=
  let '(solutions, evalErr, buf) := Eval (compiler s) (store s) query in
  match collectSolutions (store s) solutions [] with
  | inl e => inl e
  | inr resultSet =>
      match evalErr with
      | Some e => inl e
      | None =>
          match explainMode with
          | explainFullV1 => inr (queryTraceV1 buf)
          | explainTruthV1 =>
              match Truth c buf with
              | inl e => inl e
              | inr answer => inr (queryTraceV1 answer)
              end
          | explainOffV1 => inr (adhocQueryResultSetV1 resultSet)
          end
      end
  end.

(** [GET /v1/query] with the values of the [pretty], [explain] and [q]
    query parameters. *)
Definition v1QueryGet (s : Server) (prettyParam explainParam qStrs : list string)
    : handled queryV1 :=
  let pretty := getPretty prettyParam in
  let explainMode := getExplain explainParam in
  match last qStrs with
  | None => (s, Some (handleErrorf 400 "missing query parameter 'q'" []))
  | Some qStr =>
      match NewTransaction (store s) with
      | inl err => (s, handleErrorAuto err)
      | inr _ =>
          let compiler := compiler s in
          match ParseBody qStr with
          | inl err => (s, Some (handleCompileError err))
          | inr query =>
              match QueryCompile compiler query with
              | inl err => (s, Some (handleCompileError err))
              | inr compiled =>
                  match execQuery s compiler compiled explainMode with
                  | inl err => (s, handleErrorAuto err)
                  | inr results => (s, Some (Response 200 (jsonBody results pretty)))
                  end
              end
          end
      end
  end.
End Query.

(** The attribute of an RPC request that selects the tenant: the value of
    the last attribute named [customer_id], empty when there is none. *)
Definition customerId (req : ibp.Request) : string :=
  fold_left
    (fun cId v => if String.eqb (ibp.Id v) "customer_id" then ibp.Value v else cId)
    (ibp.Attributes req) "".

(** The term a path segment becomes in [stringPathToRef]; nothing for the
    empty segment. *)
Definition segmentTerm (x : string) : list Value :=
  if String.eqb x "" then []
  else match Atoi x with
       | (i, None) => [IntNumberTerm i]
       | (_, Some _) => [StringTerm x]
       end.

(** Modelled from the spec: an evaluator for the in-memory instance, the
    evaluator being out of scope (§1).  A query is a list of solutions
    written down beforehand, one per line, each a comma-separated list of
    variable names; every variable is bound to [null]; names starting with
    [$] are wildcards. *)
Definition memSolutions (q : string) : list (list (Value * Value)) :=
  map (fun line =>
         flat_map (fun x => if String.eqb x "" then [] else [(Var x, Null)])
                  (Split "," line))
      (Split ";" q).

#[global] Instance memQueryEngine : QueryEngine memAST memStorage memTopdown := {|
  Body := string;
  ParseBody := fun q => if String.eqb q "" then inl (astErrors ["empty body"]) else inr q;
  QueryCompile := fun _ q => inr q;
  Eval := fun _ _ q => (memSolutions q, None, []);
  ValueToInterface := fun _ v =>
    match v with
    | Null => inr JNull
    | _ => inl (errorString "unsupported value")
    end;
  IsWildcard := fun x => match x with String "$" _ => true | _ => false end;
|}.

(** A store that cannot open a transaction, and reports it with a value of
    type [ast.Errors]. *)
Definition closedError : error := astErrors ["storage is closed"].

Definition closedStorage : Storage memAST := {|
  Store := unit;
  NewTransaction := fun _ => inl closedError;
  ListPolicies := fun _ => ∅;
  GetPolicy := fun _ _ => inl closedError;
  InsertPolicy := fun _ _ _ _ _ => inl closedError;
  DeletePolicy := fun _ _ => inl closedError;
  Read := fun _ _ => inl closedError;
  Write := fun _ _ _ _ => inl closedError;
  ParsePath := memParsePath;
  PathRef := memPathRef;
|}.

Definition closedTopdown : Topdown memAST closedStorage := {|
  Event := unit;
  Query := fun _ _ _ _ => inl closedError;
  Truth := fun _ buf => inr buf;
  parseInput := fun _ => inl closedError;
|}.

Definition closedServer : Server (St := closedStorage) :=
  @Build_Server memAST closedStorage false emptyCompiler tt.

(** The empty store after [PUT /v1/policies/p] with the source [a/b]. *)
Definition oneRuleServer : Server :=
  memServer [("p", (ruleModule ["a"; "b"], "a/b"))] (JObject [])
            {| cModules := {[ "p" := ruleModule ["a"; "b"] ]}; cIndex := [["a"; "b"]] |}.

Definition oneRuleAnswer : response policyV1 :=
  Response 200 (jsonBody {| ID := "p"; Module := Some (ruleModule ["a"; "b"]) |} true).

Section PlanVocabulary.
Context {F : Fmt} {A : AST} {St : Storage A} {Td : Topdown A St}.

(** The relation between an operation and its entry in the plan. *)
Definition planned (c : Compiler) (root : string) (p : patchV1) (i : patchImpl) : Prop :=
  patchOpOf (Op_ p) = Some (op i)
  /\ ParsePath (effectivePath root (Path_ p)) = Some (path i)
  /\ value i = Value_ p
  /\ hasVirtualAt c (PathRef DefaultRootDocument (targetPath (op i) (path i))) = false.
End PlanVocabulary.

(** * Properties *)

(** ** Errors and status codes *)

Lemma Cause_idempotent (err : error) : Cause (Cause err) = Cause err.
Proof. induction err; simpl; auto. Qed.

Lemma recognisedStatus_wrapper (cause : error) (msg : string) :
  recognisedStatus (withMessage cause msg) = None.
Proof. reflexivity. Qed.

(** The chain walk only ever finds a recognised kind at the root cause. *)
Lemma statusByChain_Cause (err : error) :
  statusByChain err = default 500 (recognisedStatus (Cause err)).
Proof.
  induction err as [code msg | p | msg | errs | msg | cause IH msg];
    simpl; try reflexivity.
  exact IH.
Qed.

Lemma Cause_not_wrapper (err cause : error) (msg : string) :
  Cause err <> withMessage cause msg.
Proof. induction err; simpl; try discriminate. assumption. Qed.

(** An error and its root cause, when they are not the same value, have
    different dynamic types. *)
Lemma differ_Cause (err : error) :
  Cause err <> err -> differ (Cause err) (Some err) = Some true.
Proof.
  intros Hmove. destruct err as [code msg | p | msg | errs | msg | cause msg];
    try (simpl in Hmove; congruence).
  unfold differ. pose proof (Cause_not_wrapper (withMessage cause msg)) as Hroot.
  destruct (Cause (withMessage cause msg)); try reflexivity.
  exfalso. exact (Hroot _ _ eq_refl).
Qed.

Lemma differ_same (curr : error) :
  differ curr (Some curr) = if comparable curr then Some false else None.
Proof.
  unfold differ.
  assert (Hsame : sameDynamicType curr curr = true) by (destruct curr; reflexivity).
  rewrite Hsame, bool_decide_eq_true_2 by reflexivity. reflexivity.
Qed.

Section Responder.
Context {F : Fmt}.

Lemma handleErrorAuto_loop_recognised {J} (fuel : nat) (err curr : error)
    (prev : option error) (code : Z) :
  differ curr prev = Some true ->
  recognisedStatus curr = Some code ->
  handleErrorAuto_loop (J := J) (S fuel) err prev curr = Some (Some (handleError code err)).
Proof.
  intros Hne Hrec. cbn [handleErrorAuto_loop]. rewrite Hne.
  unfold recognisedStatus in Hrec.
  destruct (IsNotFound curr); [congruence |].
  destruct (IsWriteConflict curr); [congruence |].
  destruct (isBadRequest curr); [congruence |].
  destruct (IsInvalidPatch curr); [congruence | discriminate].
Qed.

Lemma handleErrorAuto_loop_unrecognised {J} (fuel : nat) (err curr : error)
    (prev : option error) :
  differ curr prev = Some true ->
  recognisedStatus curr = None ->
  handleErrorAuto_loop (J := J) (S fuel) err prev curr
  = handleErrorAuto_loop fuel err (Some curr) (Cause curr).
Proof.
  intros Hne Hrec. cbn [handleErrorAuto_loop]. rewrite Hne.
  unfold recognisedStatus in Hrec.
  destruct (IsNotFound curr); [discriminate |].
  destruct (IsWriteConflict curr); [discriminate |].
  destruct (isBadRequest curr); [discriminate |].
  destruct (IsInvalidPatch curr); [discriminate | reflexivity].
Qed.

(** The test of an error against itself ends the loop with 500, or panics. *)
Lemma handleErrorAuto_loop_same {J} (fuel : nat) (err curr : error) :
  handleErrorAuto_loop (J := J) (S fuel) err (Some curr) curr
  = Some (if comparable curr then Some (handleError 500 err) else None).
Proof.
  cbn [handleErrorAuto_loop]. rewrite differ_same.
  destruct (comparable curr); reflexivity.
Qed.

(** Three iterations, or more, leave the loop: with the status of the chain,
    or with the panic of the comparison. *)
Lemma handleErrorAuto_loop_fuel {J} (n : nat) (err : error) :
  handleErrorAuto_loop (J := J) (3 + n) err None err
  = Some (if unanswerable err then None
          else Some (handleError (statusByChain err) err)).
Proof.
  rewrite statusByChain_Cause. unfold unanswerable.
  change (3 + n)%nat with (S (S (S n))).
  destruct (recognisedStatus err) as [code |] eqn:Hhead.
  - rewrite (handleErrorAuto_loop_recognised _ _ _ _ code) by (reflexivity || assumption).
    assert (Hroot : Cause err = err).
    { destruct err; try reflexivity. discriminate. }
    rewrite Hroot, Hhead. reflexivity.
  - rewrite handleErrorAuto_loop_unrecognised by (reflexivity || assumption).
    destruct (decide (Cause err = err)) as [Hfix | Hmove].
    + rewrite Hfix, handleErrorAuto_loop_same, Hhead.
      destruct (comparable err); reflexivity.
    + destruct (recognisedStatus (Cause err)) as [code |] eqn:Hroot.
      * rewrite (handleErrorAuto_loop_recognised _ _ _ _ code);
          [reflexivity | apply differ_Cause; exact Hmove | assumption].
      * rewrite handleErrorAuto_loop_unrecognised;
          [| apply differ_Cause; exact Hmove | assumption].
        rewrite Cause_idempotent, handleErrorAuto_loop_same.
        destruct (comparable (Cause err)); reflexivity.
Qed.

Lemma handleErrorAuto_handleError {J} (err : error) :
  handleErrorAuto (J := J) err
  = if unanswerable err then None else Some (handleError (statusByChain err) err).
Proof. unfold handleErrorAuto. rewrite (handleErrorAuto_loop_fuel 0). reflexivity. Qed.

Lemma statusByChain_codes (err : error) :
  statusByChain err = 404 \/ statusByChain err = 400 \/ statusByChain err = 500.
Proof.
  rewrite statusByChain_Cause. unfold recognisedStatus.
  destruct (Cause err) as [[] | | | | |]; simpl; auto.
Qed.

Lemma handleErrorAuto_codes {J} (err : error) (r : response J) :
  handleErrorAuto err = Some r ->
  status r = 404 \/ status r = 400 \/ status r = 500.
Proof.
  rewrite handleErrorAuto_handleError.
  destruct (unanswerable err); [discriminate |].
  intros [= <-]. apply statusByChain_codes.
Qed.

Lemma handleErrorAuto_not_204 {J} (err : error) (r : response J) :
  handleErrorAuto err = Some r -> status r <> 204.
Proof.
  intros H. destruct (handleErrorAuto_codes err r H) as [-> | [-> | ->]]; discriminate.
Qed.

(** An error whose root cause is of a recognised kind is answered. *)
Lemma handleErrorAuto_recognised {J} (err : error) (code : Z) :
  recognisedStatus (Cause err) = Some code ->
  handleErrorAuto (J := J) err = Some (handleError code err).
Proof.
  intros H. rewrite handleErrorAuto_handleError, statusByChain_Cause.
  unfold unanswerable. rewrite H. reflexivity.
Qed.

Lemma unanswerable_astErrors (err : error) :
  unanswerable err = true <-> exists errs, Cause err = astErrors errs.
Proof.
  unfold unanswerable, recognisedStatus.
  destruct (Cause err) as [[] | | | | |] eqn:Hroot; simpl; split;
    try discriminate; try (intros [errs' H]; discriminate); eauto.
Qed.

(** C6. The automatic error responder walks the cause chain of the error
    until a recognised kind appears or the chain ends, and answers with the
    text of the error it received as the format of the message: NotFound and
    WriteConflict give 404, BadRequest and InvalidPatch give 400.  An error
    with no recognised kind in its chain gives 500 only when its root cause
    can be compared with [!=]: when the root cause is an [ast.Errors] the
    test of the loop panics and nothing is written.  The loop ends within
    three iterations. *)
Theorem handleErrorAuto_status {J} (err : error) :
  (forall n, handleErrorAuto_loop (J := J) (3 + n) err None err
             = Some (handleErrorAuto err))
  /\ handleErrorAuto (J := J) err
     = (if unanswerable err then None
        else Some (handleError (statusByChain err) err))
  /\ (forall code, status (handleError (J := J) code err) = code)
  /\ (statusByChain err = 404 \/ statusByChain err = 400 \/ statusByChain err = 500)
  /\ (statusByChain err = 404 <->
        IsNotFound (Cause err) = true \/ IsWriteConflict (Cause err) = true)
  /\ (statusByChain err = 400 <->
        isBadRequest (Cause err) = true \/ IsInvalidPatch (Cause err) = true)
  /\ (unanswerable err = true <-> exists errs, Cause err = astErrors errs)
  /\ (forall errs,
         statusByChain (astErrors errs) = 500
         /\ handleErrorAuto (J := J) (astErrors errs) = None).
Proof.
  pose proof (handleErrorAuto_handleError (J := J) err) as Hauto.
  split; [| split; [| split; [| split; [| split; [| split; [| split]]]]]].
  - intros n. rewrite handleErrorAuto_loop_fuel, Hauto. reflexivity.
  - exact Hauto.
  - reflexivity.
  - apply statusByChain_codes.
  - rewrite statusByChain_Cause. unfold recognisedStatus.
    destruct (Cause err) as [[] | | | | |]; simpl; split; intros H;
      try discriminate; auto; destruct H; discriminate.
  - rewrite statusByChain_Cause. unfold recognisedStatus.
    destruct (Cause err) as [[] | | | | |]; simpl; split; intros H;
      try discriminate; auto; destruct H; discriminate.
  - apply unanswerable_astErrors.
  - intros errs. split; reflexivity.
Qed.
End Responder.

Example handleErrorAuto_wrapped_notfound :
  option_map status
    (handleErrorAuto (J := unit)
       (withMessage (withMessage (storageError NotFoundErr "x") "read") "put"))
  = Some 404.
Proof. reflexivity. Qed.

Example handleErrorAuto_plain :
  option_map status (handleErrorAuto (J := unit) (withMessage (errorString "boom") "ctx"))
  = Some 500.
Proof. reflexivity. Qed.

(** The text of the error is the format of the message: a [%] in it is
    read by [fmt.Sprintf] as the start of a verb. *)
Example handleError_percent :
  handleError (J := unit) 400 (errorString "quota at 100%")
  = Response 400 (apiErrorV1 400 "quota at 100%!(NOVERB)")
  /\ handleError (J := unit) 400 (badPatchPathError "/a%d")
     = Response 400 (apiErrorV1 400 "bad patch path: /a%!d(MISSING)").
Proof. split; reflexivity. Qed.

(** The same chain with an [ast.Errors] at its root: the third test of the
    loop compares the slice with itself. *)
Example handleErrorAuto_uncomparable :
  handleErrorAuto_loop (J := unit) 2 (withMessage (astErrors ["e"]) "ctx")
    (Some (withMessage (astErrors ["e"]) "ctx")) (astErrors ["e"])
  = handleErrorAuto_loop (J := unit) 1 (withMessage (astErrors ["e"]) "ctx")
      (Some (astErrors ["e"])) (astErrors ["e"])
  /\ differ (astErrors ["e"]) (Some (astErrors ["e"])) = None
  /\ handleErrorAuto (J := unit) (withMessage (astErrors ["e"]) "ctx") = None.
Proof. repeat split. Qed.

(** ** The request builder *)

Lemma stringKeys_map_Str (keys : list string) : stringKeys (map Str keys) = Some keys.
Proof. induction keys as [| k keys IH]; simpl; [reflexivity | rewrite IH; reflexivity]. Qed.

Lemma requestKeys_requestRef (keys : list string) :
  requestKeys (requestRef keys) = Return (RequestRootDocument :: map Str keys, keys).
Proof. unfold requestRef, requestKeys, RequestRootDocument. rewrite stringKeys_map_Str. reflexivity. Qed.

Lemma Ref_String_requestRef (keys : list string) :
  Ref_String (RequestRootDocument :: map Str keys) = "request" +:+ dottedPath keys.
Proof.
  unfold Ref_String, RequestRootDocument, dottedPath. f_equal. f_equal.
  rewrite map_map. reflexivity.
Qed.

Lemma errConflictingRequest_message (keys : list string) :
  errConflictingRequest (RequestRootDocument :: map Str keys)
  = errorString (conflictMessage keys).
Proof. unfold errConflictingRequest, conflictMessage. rewrite Ref_String_requestRef. reflexivity. Qed.

Lemma merge_non_object (new old : Value) :
  isObject new && isObject old = false -> merge new old = None.
Proof. destruct new, old; simpl; intros H; try reflexivity; discriminate. Qed.

(** A value that is not an object, met on the way, stops the descent; the
    conflict names the path to it and the key after it. *)
Lemma descend_blocked (pre : list string) (k : string) (rest : list string)
    (value old : Value) :
  forall o : list (string * Value),
    pre <> [] ->
    valueAt pre (Object o) = Some old ->
    isObject old = false ->
    descend (pre ++ k :: rest) value o = inl (pre ++ [k]).
Proof.
  induction pre as [| k0 pre IH]; intros o Hne Hat Hold; [congruence |].
  simpl in Hat. destruct (mapIndex k0 o) as [child |] eqn:Hk; [| discriminate].
  destruct pre as [| k1 pre].
  - simpl in Hat. injection Hat as ->. simpl. rewrite Hk.
    destruct old; try reflexivity; discriminate.
  - destruct child as [| | | | | | | o' |]; try (simpl in Hat; discriminate).
    assert (Hd : descend ((k1 :: pre) ++ k :: rest) value o' = inl ((k1 :: pre) ++ [k])).
    { apply IH; [discriminate | exact Hat | exact Hold]. }
    change ((k0 :: k1 :: pre) ++ k :: rest)%list
      with (k0 :: k1 :: (pre ++ k :: rest))%list.
    change ((k1 :: pre) ++ k :: rest)%list with (k1 :: (pre ++ k :: rest))%list in Hd.
    cbn [descend]. rewrite Hk. cbn [descend] in Hd. rewrite Hd. reflexivity.
Qed.

(** An occupied terminal slot stops the descent unless both the value in it
    and the new one are objects; the conflict names the path of the pair. *)
Lemma descend_occupied (pre : list string) (value old : Value) :
  forall o : list (string * Value),
    pre <> [] ->
    valueAt pre (Object o) = Some old ->
    isObject old = false \/ isObject value = false ->
    descend pre value o = inl pre.
Proof.
  induction pre as [| k0 pre IH]; intros o Hne Hat Hocc; [congruence |].
  simpl in Hat. destruct (mapIndex k0 o) as [child |] eqn:Hk; [| discriminate].
  destruct pre as [| k1 pre].
  - simpl in Hat. injection Hat as ->. simpl. rewrite Hk.
    unfold place. rewrite merge_non_object; [reflexivity |].
    destruct Hocc as [-> | ->]; [apply andb_false_r | reflexivity].
  - destruct child as [| | | | | | | o' |]; try (simpl in Hat; discriminate).
    assert (Hd : descend (k1 :: pre) value o' = inl (k1 :: pre)).
    { apply IH; [discriminate | exact Hat | exact Hocc]. }
    cbn [descend]. rewrite Hk. cbn [descend] in Hd. rewrite Hd. reflexivity.
Qed.

Lemma descend_step (k next : string) (keys : list string) (value : Value)
    (node : list (string * Value)) :
  descend (k :: next :: keys) value node
  = match mapIndex k node with
    | None =>
        match descend (next :: keys) value [] with
        | inr sub => inr (objPut k (Object sub) node)
        | inl named => inl (k :: named)
        end
    | Some (Object o) =>
        match descend (next :: keys) value o with
        | inr sub => inr (objPut k (Object sub) node)
        | inl named => inl (k :: named)
        end
    | Some _ => inl [k; next]
    end.
Proof. reflexivity. Qed.

(** A conflict names the start of the path of the pair, and no path only
    when the pair has none. *)
Lemma descend_named (keys : list string) (value : Value) :
  forall (node : list (string * Value)) (named : list string),
    descend keys value node = inl named ->
    (named = [] /\ keys = [])
    \/ (named <> [] /\ exists rest, keys = named ++ rest).
Proof.
  induction keys as [| k keys IH]; intros node named H.
  - simpl in H. destruct (merge value (Object node)) as [[] |];
      try discriminate; injection H as <-; auto.
  - destruct keys as [| next keys].
    + simpl in H. destruct (place (mapIndex k node) value); [discriminate |].
      injection H as <-. right. split; [discriminate | exists []; reflexivity].
    + rewrite descend_step in H.
      assert (Hin : forall o,
                match descend (next :: keys) value o with
                | inr sub => inr (objPut k (Object sub) node)
                | inl named0 => inl (k :: named0)
                end = inl named ->
                named <> [] /\ exists rest, k :: next :: keys = named ++ rest).
      { intros o Ho.
        destruct (descend (next :: keys) value o) as [named0 |] eqn:Hd; [| discriminate].
        injection Ho as <-. split; [discriminate |].
        destruct (IH _ _ Hd) as [[_ Hnil] | [_ [rest Hrest]]]; [discriminate |].
        exists rest. rewrite Hrest. reflexivity. }
      right.
      destruct (mapIndex k node) as [[| | | | | | | o |] |];
        try (injection H as <-; split; [discriminate | exists keys; reflexivity]);
        exact (Hin _ H).
Qed.

Lemma MakeRequest_from_app (pre post : list (Value * Value)) :
  forall result,
    MakeRequest_from result (pre ++ post)
    = (built ← MakeRequest_from result pre; MakeRequest_from built post).
Proof.
  induction pre as [| kv pre IH]; intros result; simpl; [reflexivity |].
  destruct (mergePair result kv) as [r | e |]; simpl; [apply IH | reflexivity | reflexivity].
Qed.

Lemma MakeRequest_from_Fail (pairs : list (Value * Value)) (e : error) :
  forall result,
    MakeRequest_from result pairs = Fail e ->
    exists pre kv post built,
      pairs = pre ++ kv :: post
      /\ MakeRequest_from result pre = Return built
      /\ mergePair built kv = Fail e.
Proof.
  induction pairs as [| kv pairs IH]; intros result H; simpl in H; [discriminate |].
  destruct (mergePair result kv) as [r | e' |] eqn:Hkv; simpl in H.
  - destruct (IH r H) as (pre & kv' & post & built & -> & Hpre & Hfail).
    exists (kv :: pre), kv', post, built. simpl. rewrite Hkv. simpl. auto.
  - injection H as ->. exists [], kv, pairs, result. auto.
  - discriminate.
Qed.

Lemma requestKeys_Return (ref : Value) (elems : list Value) (keys : list string) :
  requestKeys ref = Return (elems, keys) ->
  (ref = Ref [] /\ elems = [] /\ keys = [])
  \/ (ref = requestRef keys /\ elems = RequestRootDocument :: map Str keys).
Proof.
  assert (Hkeys : forall vs ks, stringKeys vs = Some ks -> vs = map Str ks).
  { induction vs as [| v vs IH]; intros ks H; simpl in H.
    - injection H as <-. reflexivity.
    - destruct v; try discriminate.
      destruct (stringKeys vs) as [ks' |]; [| discriminate].
      injection H as <-. simpl. f_equal. apply IH. reflexivity. }
  unfold requestKeys. intros H.
  destruct ref as [| | | | | elems' | | |]; try discriminate.
  destruct elems' as [| h rest]; [injection H as <- <-; auto |].
  destruct h; try discriminate.
  destruct (stringKeys rest) as [ks |] eqn:Hks; [| discriminate].
  destruct (String.eqb name "request") eqn:Hroot; [| discriminate].
  apply String.eqb_eq in Hroot. subst name.
  injection H as <- <-. right. rewrite (Hkeys _ _ Hks). auto.
Qed.

Lemma requestKeys_Fail (ref : Value) (e : error) :
  requestKeys ref = Fail e -> exists elems, e = errInvalidRequestPath elems.
Proof.
  unfold requestKeys. intros H.
  destruct ref as [| | | | | elems | | |]; try (injection H as <-; eauto).
  destruct elems as [| h rest]; [discriminate |].
  destruct h; try (injection H as <-; eauto).
  destruct (stringKeys rest); [| injection H as <-; eauto].
  destruct (String.eqb name "request"); [discriminate | injection H as <-; eauto].
Qed.

Lemma requestKeys_no_panic (ref : Value) : requestKeys ref <> Panic.
Proof.
  unfold requestKeys.
  destruct ref as [| | | | | elems | | |]; try discriminate.
  destruct elems as [| [] rest]; try discriminate.
  destruct (stringKeys rest); [| discriminate].
  destruct (String.eqb name "request"); discriminate.
Qed.

(** Steps 3 and 4 on a document that is an object, or unset. *)
Lemma mergePair_descend (built : option Value) (ref value : Value)
    (elems : list Value) (keys : list string) (node : list (string * Value)) :
  requestKeys ref = Return (elems, keys) ->
  (built = None /\ node = []) \/ built = Some (Object node) ->
  keys <> [] \/ isObject value = true ->
  mergePair built (ref, value)
  = match descend keys value node with
    | inr o => Return (Some (Object o))
    | inl [] => Fail errConflictingRequestRoot
    | inl named => Fail (errConflictingRequest (RequestRootDocument :: map Str named))
    end.
Proof.
  intros Hkeys Hbuilt Hstep. unfold mergePair. simpl fst. simpl snd.
  rewrite Hkeys. simpl.
  destruct Hbuilt as [[-> ->] | ->];
    (destruct keys as [| k keys];
     [destruct Hstep as [Hk | ->]; [congruence | reflexivity]
     | destruct (isObject value); reflexivity]).
Qed.

(** What a failing pair reports. *)
Lemma mergePair_Fail (built : option Value) (ref value : Value) (e : error) :
  mergePair built (ref, value) = Fail e ->
  e = errConflictingRequestRoot
  \/ (exists keys named rest,
         ref = requestRef keys /\ named <> [] /\ keys = named ++ rest
         /\ e = errorString (conflictMessage named))
  \/ (exists elems, e = errInvalidRequestPath elems).
Proof.
  intros H.
  destruct (requestKeys ref) as [[elems keys] | e' |] eqn:Hkeys.
  - assert (Hd : forall node,
      match descend keys value node with
      | inr o => Return (Some (Object o))
      | inl [] => Fail errConflictingRequestRoot
      | inl named => Fail (errConflictingRequest (RequestRootDocument :: map Str named))
      end = Fail e ->
      e = errConflictingRequestRoot
      \/ (exists keys0 named rest,
             ref = requestRef keys0 /\ named <> [] /\ keys0 = named ++ rest
             /\ e = errorString (conflictMessage named))
      \/ (exists elems0, e = errInvalidRequestPath elems0)).
    { intros node Hn.
      destruct (descend keys value node) as [named |] eqn:Hdesc; [| discriminate].
      destruct (descend_named _ _ _ _ Hdesc) as [[-> _] | [Hne [rest Hrest]]].
      - injection Hn as <-. auto.
      - destruct named as [| n named]; [congruence |]. injection Hn as <-.
        right; left. exists keys, (n :: named), rest.
        destruct (requestKeys_Return _ _ _ Hkeys) as [(_ & _ & Hnil) | [-> _]].
        + subst keys. discriminate.
        + repeat split; [discriminate | exact Hrest |].
          exact (errConflictingRequest_message (n :: named)). }
    unfold mergePair in H. simpl fst in H. simpl snd in H. rewrite Hkeys in H. simpl in H.
    destruct keys as [| k keys]; [destruct (isObject value) eqn:Hobj |].
    + destruct built as [[] |]; try (injection H as <-; auto; fail);
        exact (Hd _ H).
    + destruct built as [[] |]; try discriminate. injection H as <-. auto.
    + assert (H' :
        match built with
        | None | Some (Object _) =>
            match descend (k :: keys) value
                    (match built with Some (Object o) => o | _ => [] end) with
            | inr o => Return (Some (Object o))
            | inl [] => Fail errConflictingRequestRoot
            | inl named =>
                Fail (errConflictingRequest (RequestRootDocument :: map Str named))
            end
        | Some _ => Fail errConflictingRequestRoot
        end = Fail e) by (destruct (isObject value); exact H).
      destruct built as [[] |]; try (injection H' as <-; auto; fail);
        exact (Hd _ H').
  - unfold mergePair in H. simpl fst in H. rewrite Hkeys in H. simpl in H.
    injection H as <-. right; right. exact (requestKeys_Fail _ _ Hkeys).
  - exfalso. exact (requestKeys_no_panic _ Hkeys).
Qed.

Lemma mergePair_blocked (o : list (string * Value)) (pre : list string) (k : string)
    (rest : list string) (value old : Value) :
  pre <> [] ->
  valueAt pre (Object o) = Some old ->
  isObject old = false ->
  mergePair (Some (Object o)) (requestRef (pre ++ k :: rest), value)
  = Fail (errorString (conflictMessage (pre ++ [k]))).
Proof.
  intros Hne Hat Hold.
  rewrite (mergePair_descend _ _ _ _ _ o (requestKeys_requestRef _));
    [| right; reflexivity | left; destruct pre; discriminate].
  rewrite (descend_blocked pre k rest value old o Hne Hat Hold).
  rewrite <- errConflictingRequest_message.
  destruct pre as [| k0 pre]; [congruence | reflexivity].
Qed.

Lemma mergePair_occupied (o : list (string * Value)) (pre : list string)
    (value old : Value) :
  pre <> [] ->
  valueAt pre (Object o) = Some old ->
  isObject old = false \/ isObject value = false ->
  mergePair (Some (Object o)) (requestRef pre, value)
  = Fail (errorString (conflictMessage pre)).
Proof.
  intros Hne Hat Hocc.
  rewrite (mergePair_descend _ _ _ _ _ o (requestKeys_requestRef _));
    [| right; reflexivity | left; exact Hne].
  rewrite (descend_occupied pre value old o Hne Hat Hocc).
  rewrite <- errConflictingRequest_message.
  destruct pre as [| k0 pre]; [congruence | reflexivity].
Qed.

Lemma mergePair_whole_document (doc ref value : Value) (ks : list Value * list string) :
  requestKeys ref = Return ks ->
  (isObject doc = false /\ (ks.2 <> [] \/ isObject value = true))
  \/ (isObject doc = true /\ ks.2 = [] /\ isObject value = false) ->
  mergePair (Some doc) (ref, value) = Fail errConflictingRequestRoot.
Proof.
  intros Hkeys Hocc. unfold mergePair. simpl fst. simpl snd. rewrite Hkeys. simpl.
  destruct ks as [elems keys]. simpl in *.
  destruct Hocc as [[Hdoc Hstep] | (Hdoc & -> & ->)].
  - destruct keys as [| k keys].
    + destruct Hstep as [Hk | ->]; [congruence |].
      destruct doc; try reflexivity; discriminate.
    + destruct (isObject value); destruct doc; try reflexivity; discriminate.
  - destruct doc; try discriminate. reflexivity.
Qed.

Lemma mergePair_wholesale (built : option Value) (ref value : Value)
    (ks : list Value * list string) :
  requestKeys ref = Return ks ->
  ks.2 = [] ->
  isObject value = false ->
  (forall o, built <> Some (Object o)) ->
  mergePair built (ref, value) = Return (Some value).
Proof.
  intros Hkeys Hnil Hval Hbuilt. unfold mergePair. simpl fst. simpl snd.
  rewrite Hkeys. simpl. rewrite Hnil, Hval.
  destruct built as [[] |]; try reflexivity. exfalso. exact (Hbuilt _ eq_refl).
Qed.

(** C7. The request builder merges the pairs in input order and the later
    pair raises the conflict.  When the document built by the earlier pairs
    holds, on the way of the later pair's path, a value that is not an
    object, the build fails with exactly
    [conflicting request value request.<dotted-path>: check request parameters]
    where the path runs up to and including the key that was to be taken
    inside that value.  When the terminal slot of the later pair is occupied
    and the value in it or the new value is not an object, the message names
    the path of the pair.  When the document as a whole conflicts (steps 3
    and 4 on a document set wholesale, or step 2 on a document set by a
    structural merge) the message is exactly
    [conflicting request values: check request parameters]; a wholesale
    value on a document that is unset or was set wholesale replaces it.
    Every failure of the builder arises at a first failing pair whose
    predecessors were merged, with one of these messages, the path named
    being a start of the path of that pair, or with the path error.  The
    pairs [(a.b, "c"); (a.b.d, "d")] fail naming [request.a.b.d]. *)
Theorem MakeRequest_conflict :
  (forall before after o pre k rest value old,
      MakeRequest before = Return (Some (Object o)) ->
      pre <> [] ->
      valueAt pre (Object o) = Some old ->
      isObject old = false ->
      MakeRequest (before ++ (requestRef (pre ++ k :: rest), value) :: after)
      = Fail (errorString
                ("conflicting request value " +:+ ("request" +:+ dottedPath (pre ++ [k]))
                 +:+ ": check request parameters")))
  /\ (forall before after o pre value old,
         MakeRequest before = Return (Some (Object o)) ->
         pre <> [] ->
         valueAt pre (Object o) = Some old ->
         isObject old = false \/ isObject value = false ->
         MakeRequest (before ++ (requestRef pre, value) :: after)
         = Fail (errorString
                   ("conflicting request value " +:+ ("request" +:+ dottedPath pre)
                    +:+ ": check request parameters")))
  /\ (forall before after doc ref value ks,
         MakeRequest before = Return (Some doc) ->
         requestKeys ref = Return ks ->
         (isObject doc = false /\ (ks.2 <> [] \/ isObject value = true))
         \/ (isObject doc = true /\ ks.2 = [] /\ isObject value = false) ->
         MakeRequest (before ++ (ref, value) :: after)
         = Fail (errorString "conflicting request values: check request parameters"))
  /\ (forall before built ref value ks,
         MakeRequest before = Return built ->
         requestKeys ref = Return ks ->
         ks.2 = [] ->
         isObject value = false ->
         (forall o, built <> Some (Object o)) ->
         MakeRequest (before ++ [(ref, value)]) = Return (Some value))
  /\ (forall pairs e,
         MakeRequest pairs = Fail e ->
         exists before ref value after built,
           pairs = before ++ (ref, value) :: after
           /\ MakeRequest before = Return built
           /\ mergePair built (ref, value) = Fail e
           /\ (e = errorString "conflicting request values: check request parameters"
               \/ (exists keys named rest,
                      ref = requestRef keys /\ named <> [] /\ keys = named ++ rest
                      /\ e = errorString (conflictMessage named))
               \/ (exists elems, e = errInvalidRequestPath elems)))
  /\ MakeRequest [(requestRef ["a"; "b"], Str "c"); (requestRef ["a"; "b"; "d"], Str "d")]
     = Fail (errorString
               "conflicting request value request.a.b.d: check request parameters").
Proof.
  split; [| split; [| split; [| split; [| split]]]].
  - intros before after o pre k rest value old Hbefore Hne Hat Hold.
    unfold MakeRequest in *. rewrite MakeRequest_from_app, Hbefore. simpl.
    rewrite (mergePair_blocked o pre k rest value old Hne Hat Hold). reflexivity.
  - intros before after o pre value old Hbefore Hne Hat Hocc.
    unfold MakeRequest in *. rewrite MakeRequest_from_app, Hbefore. simpl.
    rewrite (mergePair_occupied o pre value old Hne Hat Hocc). reflexivity.
  - intros before after doc ref value ks Hbefore Hkeys Hocc.
    unfold MakeRequest in *. rewrite MakeRequest_from_app, Hbefore. simpl.
    rewrite (mergePair_whole_document doc ref value ks Hkeys Hocc). reflexivity.
  - intros before built ref value ks Hbefore Hkeys Hnil Hval Hbuilt.
    unfold MakeRequest in *. rewrite MakeRequest_from_app, Hbefore. simpl.
    rewrite (mergePair_wholesale built ref value ks Hkeys Hnil Hval Hbuilt). reflexivity.
  - intros pairs e H.
    destruct (MakeRequest_from_Fail pairs e None H)
      as (before & [ref value] & after & built & Hsplit & Hbefore & Hfail).
    exists before, ref, value, after, built.
    repeat split; try assumption. exact (mergePair_Fail built ref value e Hfail).
  - reflexivity.
Qed.

Lemma MakeRequest_conflict_witness :
  MakeRequest ([(requestRef ["a"], Number 100)]
               ++ (requestRef (["a"] ++ "b" :: ["c"; "d"]), Str "x") :: [])
  = Fail (errorString
            ("conflicting request value " +:+ ("request" +:+ dottedPath (["a"] ++ ["b"]))
             +:+ ": check request parameters")).
Proof.
  apply (proj1 MakeRequest_conflict
           [(requestRef ["a"], Number 100)] [] [("a", Number 100)]
           ["a"] "b" ["c"; "d"] (Str "x") (Number 100)).
  - reflexivity.
  - discriminate.
  - reflexivity.
  - reflexivity.
Defined.

(** The table of [TestMakeRequest]. *)
Example TestMakeRequest_var :
  MakeRequest [(requestRef ["hello"], Str "world")]
  = Return (Some (Object [("hello", Str "world")])).
Proof. reflexivity. Qed.

Example TestMakeRequest_multiple_vars :
  MakeRequest [(requestRef ["a"], Str "a"); (requestRef ["b"], Str "b")]
  = Return (Some (Object [("a", Str "a"); ("b", Str "b")])).
Proof. reflexivity. Qed.

Example TestMakeRequest_multiple_overlapping_vars :
  MakeRequest [(requestRef ["a"; "b"; "c"], Str "c");
               (requestRef ["a"; "b"; "d"], Str "d");
               (requestRef ["x"; "y"], Array [])]
  = Return (Some (Object [("a", Object [("b", Object [("c", Str "c"); ("d", Str "d")])]);
                          ("x", Object [("y", Array [])])])).
Proof. reflexivity. Qed.

Example TestMakeRequest_ref_value :
  let widgets := Ref [Var "data"; Str "com"; Str "example"; Str "widgets"; Var "i"] in
  MakeRequest [(requestRef ["foo"; "bar"], widgets)]
  = Return (Some (Object [("foo", Object [("bar", widgets)])])).
Proof. reflexivity. Qed.

Example TestMakeRequest_non_object :
  MakeRequest [(EmptyRef, Array [Number 1; Number 2; Number 3])]
  = Return (Some (Array [Number 1; Number 2; Number 3])).
Proof. reflexivity. Qed.

Example TestMakeRequest_non_object_conflict :
  MakeRequest [(EmptyRef, Array [Number 1; Number 2; Number 3]);
               (requestRef ["a"; "b"], Boolean true)]
  = Fail (errorString "conflicting request values: check request parameters").
Proof. reflexivity. Qed.

Example TestMakeRequest_conflicting_vars_2 :
  MakeRequest [(requestRef ["a"; "b"], Object [("c", Array [])]);
               (requestRef ["a"; "b"; "c"], Array [Str "d"])]
  = Fail (errorString "conflicting request value request.a.b.c: check request parameters").
Proof. reflexivity. Qed.

Example TestMakeRequest_conflicting_vars_3 :
  MakeRequest [(requestRef ["a"], Number 100); (requestRef ["a"; "b"], Str "c")]
  = Fail (errorString "conflicting request value request.a.b: check request parameters").
Proof. reflexivity. Qed.

Example TestMakeRequest_conflicting_vars_4 :
  MakeRequest [(requestRef ["a"; "b"], Str "c"); (requestRef ["a"], Number 100)]
  = Fail (errorString "conflicting request value request.a: check request parameters").
Proof. reflexivity. Qed.

(** Beyond the table: a value that is not an object two keys above the
    terminal slot, and a wholesale value after a wholesale value. *)
Example MakeRequest_deep_conflict :
  MakeRequest [(requestRef ["a"], Number 100);
               (requestRef ["a"; "b"; "c"; "d"], Str "x")]
  = Fail (errorString "conflicting request value request.a.b: check request parameters").
Proof. reflexivity. Qed.

Example MakeRequest_wholesale_twice :
  MakeRequest [(EmptyRef, Number 1); (EmptyRef, Array [Number 2])]
  = Return (Some (Array [Number 2])).
Proof. reflexivity. Qed.

Example TestMakeRequest_bad_path :
  Error
    match MakeRequest [(Ref [Var "request"; Str "a"; Number 1], Number 1)] with
    | Fail e => e
    | _ => errorString ""
    end
  = "invalid request path: invalid path request.a[1]: path elements must be strings".
Proof. reflexivity. Qed.

(** ** Request parameters *)

Lemma SplitN2_cut (sep : ascii) (p q : string) :
  contains sep p = false -> SplitN2 sep (p +:+ String sep q) = [p; q].
Proof.
  induction p as [| x p IH]; intros Hp.
  - change ("" +:+ String sep q) with (String sep q). simpl. rewrite Ascii.eqb_refl. reflexivity.
  - change (String x p +:+ String sep q) with (String x (p +:+ String sep q)).
    simpl in *. apply orb_false_iff in Hp as [Hx Hp].
    rewrite Hx, (IH Hp). reflexivity.
Qed.

Lemma SplitN2_whole (sep : ascii) (s : string) :
  contains sep s = false -> SplitN2 sep s = [s].
Proof.
  induction s as [| x s IH]; intros Hs; [reflexivity |].
  simpl in *. apply orb_false_iff in Hs as [Hx Hs]. rewrite Hx, (IH Hs). reflexivity.
Qed.

Lemma mergePair_no_panic (built : option Value) (kv : Value * Value) :
  mergePair built kv <> Panic.
Proof.
  unfold mergePair.
  destruct (requestKeys kv.1) as [[elems keys] | e |] eqn:Hkeys; simpl.
  - destruct keys, (isObject kv.2), built as [[] |];
      try discriminate; destruct (descend _ _ _) as [[|] |]; discriminate.
  - discriminate.
  - exfalso. exact (requestKeys_no_panic _ Hkeys).
Qed.

Lemma MakeRequest_from_no_panic (pairs : list (Value * Value)) :
  forall built, MakeRequest_from built pairs <> Panic.
Proof.
  induction pairs as [| kv pairs IH]; intros built; simpl; [discriminate |].
  destruct (mergePair built kv) eqn:Hkv; simpl; [apply IH | discriminate |].
  exfalso. exact (mergePair_no_panic _ _ Hkv).
Qed.

Section RequestParameters.
Context {F : Fmt} {A : AST}.

Lemma parseRequest_item_no_panic (item : string) :
  item <> "" -> parseRequest_item item <> Panic.
Proof.
  intros Hne. destruct item as [| c rest]; [congruence |].
  unfold parseRequest_item.
  destruct (Ascii.eqb c colon).
  - destruct (ParseTerm rest); discriminate.
  - destruct (ParseTerm (String c rest)); [| discriminate].
    destruct (SplitN2 colon (String c rest)) as [| p [| q [|]]]; try discriminate.
    destruct (ParseTerm ("request" +:+ "." +:+ p)); [discriminate |].
    destruct (ParseTerm q); discriminate.
Qed.

Lemma parseRequest_loop_app (pre post : list string) :
  forall pairs nonGround,
    parseRequest_loop (pre ++ post) pairs nonGround
    = (pn ← parseRequest_loop pre pairs nonGround; parseRequest_loop post pn.1 pn.2).
Proof.
  induction pre as [| item pre IH]; intros pairs nonGround; simpl; [reflexivity |].
  destruct (parseRequest_item item); simpl; [apply IH | reflexivity | reflexivity].
Qed.

Lemma parseRequest_loop_parsed (pre : list string) :
  Forall (fun item => exists kv, parseRequest_item item = Return kv) pre ->
  forall pairs nonGround,
    exists pn, parseRequest_loop pre pairs nonGround = Return pn.
Proof.
  induction 1 as [| item pre [kv Hkv] _ IH]; intros pairs nonGround; simpl; [eauto |].
  rewrite Hkv. simpl. apply IH.
Qed.

Lemma parseRequest_loop_no_panic (s : list string) :
  Forall (fun item => item <> "") s ->
  forall pairs nonGround, parseRequest_loop s pairs nonGround <> Panic.
Proof.
  induction 1 as [| item s Hitem _ IH]; intros pairs nonGround; simpl; [discriminate |].
  destruct (parseRequest_item item) eqn:Hi; simpl; [apply IH | discriminate |].
  exfalso. exact (parseRequest_item_no_panic item Hitem Hi).
Qed.

Lemma parseRequest_item_Fail_first (item : string) (rest : list string) (e : error) :
  parseRequest_item item = Fail e -> parseRequest (item :: rest) = Fail e.
Proof. intros H. unfold parseRequest. simpl. rewrite H. reflexivity. Qed.

(** C8, as amended.  An item of the [request] parameter that is not empty
    and does not start with [:] is the value alone, with the empty path,
    when the whole item parses as a term.  Otherwise the item is cut
    at its first [:]: the part before it, prefixed with [request.], is the
    path and the rest is the value.  An item without [:] and a path that does
    not parse give the error
    [request parameter format is [[<path>]:]<value> where <path> is either var or ref];
    a value that does not parse gives the parser's own error.  Whatever
    error the parameter parser returns, [GET /v1/data] answers 400 through
    [handleError], which hands the text of the error to [fmt.Sprintf] as
    the format of the message; for the format error, whose text has no
    [%], the message is that text. *)
Theorem parseRequest_item_cases (c : ascii) (rest : string) :
  c <> colon ->
  let item := String c rest in
  (forall v, ParseTerm item = inr v -> parseRequest_item item = Return (EmptyRef, v))
  /\ (forall e, ParseTerm item = inl e ->
        (contains colon item = false ->
         parseRequest_item item = Fail errRequestPathFormat)
        /\ (forall p q, item = p +:+ String colon q -> contains colon p = false ->
              match ParseTerm ("request." +:+ p) with
              | inl _ => parseRequest_item item = Fail errRequestPathFormat
              | inr k =>
                  parseRequest_item item
                  = match ParseTerm q with
                    | inr v => Return (k, v)
                    | inl e' => Fail e'
                    end
              end))
  /\ Error errRequestPathFormat
     = "request parameter format is [[<path>]:]<value> where <path> is either var or ref"
  /\ (forall (St : Storage A) (Td : Topdown A St) (s : Server)
             pathVar prettyParam explainParam requestParam err,
        parseRequest requestParam = Fail err ->
        v1DataGet s pathVar prettyParam explainParam requestParam
        = (s, Some (handleError 400 err))
        /\ handleError (J := dataV1) 400 err
           = Response 400 (apiErrorV1 400 (Sprintf (Error err) []))
        /\ (err = errRequestPathFormat ->
            v1DataGet s pathVar prettyParam explainParam requestParam
            = (s, Some (Response 400
                          (apiErrorV1 400
                             "request parameter format is [[<path>]:]<value> where <path> is either var or ref"))))).
Proof.
  intros Hc item. assert (Hneq : Ascii.eqb c colon = false) by (apply Ascii.eqb_neq; exact Hc).
  split; [| split; [| split]].
  - intros v Hv. unfold item in *. unfold parseRequest_item. rewrite Hneq, Hv. reflexivity.
  - intros e He. split.
    + intros Hno. unfold item in *. unfold parseRequest_item.
      rewrite Hneq, He, (SplitN2_whole _ _ Hno). reflexivity.
    + intros p q Hcut Hp. unfold item in *. unfold parseRequest_item.
      rewrite Hneq, He, Hcut, (SplitN2_cut _ _ _ Hp).
      change ("request" +:+ "." +:+ p) with ("request." +:+ p).
      destruct (ParseTerm ("request." +:+ p)); [reflexivity |].
      destruct (ParseTerm q); reflexivity.
  - reflexivity.
  - intros St Td s pathVar prettyParam explainParam requestParam err Herr.
    split; [unfold v1DataGet; rewrite Herr; reflexivity | split; [reflexivity |]].
    intros ->. unfold v1DataGet. rewrite Herr.
    unfold handleError, handleErrorf. rewrite Sprintf_plain; reflexivity.
Qed.
End RequestParameters.

Lemma parseRequest_item_cases_witness :
  parseRequest_item (A := memAST) (String "u" ("ser:" +:+ dquote +:+ "alice" +:+ dquote))
  = Return (requestRef ["user"], Str "alice").
Proof.
  exact (proj2 (proj1 (proj2 (parseRequest_item_cases (A := memAST)
                                "u" ("ser:" +:+ dquote +:+ "alice" +:+ dquote)
                                ltac:(discriminate)))
                 (errorString "no match found") eq_refl)
           "user" (dquote +:+ "alice" +:+ dquote) eq_refl eq_refl).
Defined.

(** C8, as stated, fails.  The part of [user:"alice"] before the first [:]
    parses as a complete term, yet the item is not the value alone: its path
    is [request.user].  And when the value part does not parse, the error is
    the parser's, not the format message. *)
Lemma parseRequest_item_counterexample :
  (exists v, ParseTerm (AST := memAST) "user" = inr v)
  /\ parseRequest_item (A := memAST) ("user:" +:+ dquote +:+ "alice" +:+ dquote)
     = Return (Ref [Var "request"; Str "user"], Str "alice")
  /\ Ref [Var "request"; Str "user"] <> EmptyRef
  /\ parseRequest_item (A := memAST) "a:@" = Fail (errorString "no match found")
  /\ errorString "no match found" <> errRequestPathFormat.
Proof.
  split; [exists (Var "user"); reflexivity |].
  split; [reflexivity |].
  split; [discriminate |].
  split; [reflexivity | discriminate].
Qed.

(** C10, as amended.  [parseRequest] reads the first byte of an item
    without looking at its length: on the empty item the index is out of
    range.  A list whose first empty item comes after items that all parse
    makes [parseRequest] panic; a list of non-empty items makes it return,
    with a value or an error. *)
Theorem parseRequest_empty_item {A : AST} :
  parseRequest_item "" = Panic
  /\ (forall pre post,
         Forall (fun item => exists kv, parseRequest_item item = Return kv) pre ->
         parseRequest (pre ++ "" :: post) = Panic)
  /\ (forall s, Forall (fun item => item <> "") s -> parseRequest s <> Panic).
Proof.
  split; [reflexivity | split].
  - intros pre post Hpre. unfold parseRequest.
    rewrite parseRequest_loop_app.
    destruct (parseRequest_loop_parsed pre Hpre [] false) as [pn ->]. reflexivity.
  - intros s Hs. unfold parseRequest.
    destruct (parseRequest_loop s [] false) as [pn | e |] eqn:Hloop; simpl.
    + unfold MakeRequest.
      destruct (MakeRequest_from None pn.1) eqn:Hmk; simpl; try discriminate.
      exfalso. exact (MakeRequest_from_no_panic _ _ Hmk).
    + discriminate.
    + exfalso. exact (parseRequest_loop_no_panic s Hs [] false Hloop).
Qed.

Lemma parseRequest_empty_item_witness :
  parseRequest (A := memAST) (["a"; "b:1"] ++ "" :: ["c"]) = Panic.
Proof.
  apply (proj1 (proj2 (parseRequest_empty_item (A := memAST)))).
  repeat constructor; eexists; reflexivity.
Defined.

(** C10, as stated, fails: a list that contains an empty item but whose
    earlier item does not parse returns the error of that item. *)
Lemma parseRequest_empty_item_counterexample :
  In "" ["@"; ""]
  /\ parseRequest (A := memAST) ["@"; ""] = Fail errRequestPathFormat
  /\ parseRequest (A := memAST) ["@"; ""] <> Panic.
Proof.
  split; [right; left; reflexivity |].
  split; [reflexivity | discriminate].
Qed.

(** ** The patch planner and the write-conflict check *)

Section PatchPlanner.
Context {F : Fmt} {A : AST} {St : Storage A} {Td : Topdown A St}.

Lemma writeConflict_hasVirtualAt (c : Compiler) (o : PatchOp) (p : Path) :
  writeConflict c o p
  = if hasVirtualAt c (PathRef DefaultRootDocument (targetPath o p))
    then Fail (WriteConflictError (targetPath o p))
    else Return tt.
Proof.
  unfold hasVirtualAt, writeConflict. fold (targetPath o p). cbv zeta.
  destruct (GetRulesForVirtualDocument c _); reflexivity.
Qed.

Lemma writeConflict_virtual (c : Compiler) (o : PatchOp) (p : Path) :
  hasVirtualAt c (PathRef DefaultRootDocument (targetPath o p)) = true ->
  writeConflict c o p = Fail (WriteConflictError (targetPath o p)).
Proof. intros H. rewrite writeConflict_hasVirtualAt, H. reflexivity. Qed.

Lemma writeConflict_free (c : Compiler) (o : PatchOp) (p : Path) :
  hasVirtualAt c (PathRef DefaultRootDocument (targetPath o p)) = false ->
  writeConflict c o p = Return tt.
Proof. intros H. rewrite writeConflict_hasVirtualAt, H. reflexivity. Qed.

Lemma writeConflict_Return (c : Compiler) (o : PatchOp) (p : Path) (u : unit) :
  writeConflict c o p = Return u ->
  hasVirtualAt c (PathRef DefaultRootDocument (targetPath o p)) = false.
Proof.
  rewrite writeConflict_hasVirtualAt.
  destruct (hasVirtualAt c _); [discriminate | reflexivity].
Qed.

Lemma writeConflict_no_panic (c : Compiler) (o : PatchOp) (p : Path) :
  writeConflict c o p <> Panic.
Proof.
  rewrite writeConflict_hasVirtualAt. destruct (hasVirtualAt c _); discriminate.
Qed.

(** The loop body of the planner, by the three checks it makes in order. *)
Lemma prepareV1Patch_checks (c : Compiler) (root : string) (p : patchV1) :
  prepareV1Patch c ("/" +:+ Trim root) p
  = match patchOpOf (Op_ p) with
    | None => Fail (badPatchOperationError (Op_ p))
    | Some o =>
        match ParsePath (effectivePath root (Path_ p)) with
        | None => Fail (badPatchPathError (Path_ p))
        | Some sp =>
            match writeConflict c o sp with
            | Return _ => Return {| path := sp; op := o; value := Value_ p |}
            | Fail e => Fail e
            | Panic => Panic
            end
        end
    end.
Proof.
  assert (Hjoin :
    (if (0 <? String.length (Trim (Path_ p)))%nat
     then ("/" +:+ Trim root) +:+ "/" +:+ Trim (Path_ p)
     else "/" +:+ Trim root) = effectivePath root (Path_ p)).
  { unfold effectivePath. destruct (Trim (Path_ p)); reflexivity. }
  unfold prepareV1Patch, patchOpOf. rewrite Hjoin.
  destruct (String.eqb (Op_ p) "add"); [| destruct (String.eqb (Op_ p) "remove");
    [| destruct (String.eqb (Op_ p) "replace")]]; simpl;
    try reflexivity;
    destruct (ParsePath (effectivePath root (Path_ p))); try reflexivity;
    destruct (writeConflict c _ _); reflexivity.
Qed.

Lemma prepareV1Patch_no_panic (c : Compiler) (root : string) (p : patchV1) :
  prepareV1Patch c ("/" +:+ Trim root) p <> Panic.
Proof.
  rewrite prepareV1Patch_checks.
  destruct (patchOpOf (Op_ p)) as [o |]; [| discriminate].
  destruct (ParsePath _) as [sp |]; [| discriminate].
  destruct (writeConflict c o sp) eqn:Hw; try discriminate.
  exfalso. exact (writeConflict_no_panic _ _ _ Hw).
Qed.

Lemma prepareV1PatchSlice_loop_app (c : Compiler) (root : string) (pre post : list patchV1) :
  forall acc,
    prepareV1PatchSlice_loop c root (pre ++ post) acc
    = (impls ← prepareV1PatchSlice_loop c root pre acc;
       prepareV1PatchSlice_loop c root post impls).
Proof.
  induction pre as [| p pre IH]; intros acc; simpl; [reflexivity |].
  destruct (prepareV1Patch c root p); simpl; [apply IH | reflexivity | reflexivity].
Qed.

(** The planner stops at the first operation that fails a check. *)
Lemma prepareV1PatchSlice_first_failure (c : Compiler) (root : string)
    (before after : list patchV1) (p : patchV1) (impls : list patchImpl) (e : error) :
  prepareV1PatchSlice c root before = Return impls ->
  prepareV1Patch c ("/" +:+ Trim root) p = Fail e ->
  prepareV1PatchSlice c root (before ++ p :: after) = Fail e.
Proof.
  unfold prepareV1PatchSlice. intros Hbefore Hp.
  rewrite prepareV1PatchSlice_loop_app, Hbefore. simpl. rewrite Hp. reflexivity.
Qed.

Lemma prepareV1PatchSlice_loop_failing (c : Compiler) (root : string)
    (ops : list patchV1) (p : patchV1) :
  p ∈ ops ->
  (forall impl, prepareV1Patch c ("/" +:+ Trim root) p <> Return impl) ->
  forall acc, exists e, prepareV1PatchSlice_loop c ("/" +:+ Trim root) ops acc = Fail e.
Proof.
  intros Hin Hbad. induction ops as [| q ops IH]; intros acc.
  - inversion Hin.
  - simpl. destruct (prepareV1Patch c ("/" +:+ Trim root) q) as [impl | e |] eqn:Hq; simpl.
    + apply IH. inversion Hin; subst; [exfalso; exact (Hbad impl Hq) | assumption].
    + eauto.
    + exfalso. exact (prepareV1Patch_no_panic _ _ _ Hq).
Qed.

(** Every planned operation passed the write-conflict check. *)
Lemma prepareV1PatchSlice_loop_checked (c : Compiler) (root : string) (ops : list patchV1) :
  forall acc impls,
    Forall (fun i => hasVirtualAt c
                       (PathRef DefaultRootDocument (targetPath (op i) (path i))) = false) acc ->
    prepareV1PatchSlice_loop c ("/" +:+ Trim root) ops acc = Return impls ->
    Forall (fun i => hasVirtualAt c
                       (PathRef DefaultRootDocument (targetPath (op i) (path i))) = false) impls.
Proof.
  induction ops as [| p ops IH]; intros acc impls Hacc H; simpl in H.
  - injection H as <-. exact Hacc.
  - rewrite prepareV1Patch_checks in H.
    destruct (patchOpOf (Op_ p)) as [o |]; [| discriminate].
    destruct (ParsePath _) as [sp |]; [| discriminate].
    destruct (writeConflict c o sp) as [u | |] eqn:Hw; try discriminate.
    simpl in H. apply (IH _ _) in H; [exact H |].
    apply Forall_app. split; [exact Hacc |].
    constructor; [| constructor]. simpl. exact (writeConflict_Return _ _ _ _ Hw).
Qed.

Lemma setStore_store (s : Server) : setStore s (store s) = s.
Proof. destruct s; reflexivity. Qed.

(** The errors of the planner are of recognised kinds, so the automatic
    responder answers them. *)
Lemma prepareV1Patch_Fail (c : Compiler) (root : string) (p : patchV1) (e : error) :
  prepareV1Patch c ("/" +:+ Trim root) p = Fail e ->
  exists code, recognisedStatus (Cause e) = Some code.
Proof.
  rewrite prepareV1Patch_checks.
  destruct (patchOpOf (Op_ p)) as [o |]; [| intros [= <-]; eexists; reflexivity].
  destruct (ParsePath _) as [sp |]; [| intros [= <-]; eexists; reflexivity].
  rewrite writeConflict_hasVirtualAt.
  destruct (hasVirtualAt c _); [| discriminate].
  intros [= <-]. eexists. reflexivity.
Qed.

Lemma prepareV1PatchSlice_loop_Fail (c : Compiler) (root : string) (ops : list patchV1)
    (e : error) :
  forall acc,
    prepareV1PatchSlice_loop c ("/" +:+ Trim root) ops acc = Fail e ->
    exists code, recognisedStatus (Cause e) = Some code.
Proof.
  induction ops as [| p ops IH]; intros acc H; simpl in H; [discriminate |].
  destruct (prepareV1Patch c ("/" +:+ Trim root) p) as [impl | e' |] eqn:Hp; simpl in H.
  - exact (IH _ H).
  - injection H as <-. exact (prepareV1Patch_Fail _ _ _ _ Hp).
  - discriminate.
Qed.

(** A failed plan: the handler writes nothing, and answers from the error
    once the transaction is open. *)
Lemma v1DataPatch_plan_failed (s : Server) (pathVar : string) (ops : list patchV1) (e : error) :
  prepareV1PatchSlice (compiler s) pathVar ops = Fail e ->
  (v1DataPatch s pathVar (inr ops)).1 = s
  /\ (forall r, (v1DataPatch s pathVar (inr ops)).2 = Some r -> status r <> 204)
  /\ (forall u, NewTransaction (store s) = inr u ->
        exists r, handleErrorAuto e = Some r
                  /\ v1DataPatch s pathVar (inr ops) = (s, Some r)).
Proof.
  intros Hplan. unfold v1DataPatch.
  destruct (prepareV1PatchSlice_loop_Fail _ _ _ _ _ Hplan) as [code Hcode].
  destruct (NewTransaction (store s)) as [err | u].
  - split; [reflexivity |]. split; [apply handleErrorAuto_not_204 | discriminate].
  - rewrite Hplan. split; [reflexivity |].
    split; [apply handleErrorAuto_not_204 |].
    intros _ _. exists (handleError code e).
    rewrite (handleErrorAuto_recognised e code Hcode). split; reflexivity.
Qed.

(** C9. In [PATCH /v1/data] every operation is checked before any write.
    The first operation whose [op] is not [add], [remove] or [replace] makes
    the planner fail with the bad-patch-operation error naming that [op];
    an operation whose effective path (root and path stripped of slashes and
    joined) does not parse makes it fail with the bad-patch-path error
    carrying the path as given.  When the plan fails, and so whenever some
    operation of the list fails a check, the handler leaves the server state
    as it was: no write is made, and no answer is 204; once the transaction
    is open the answer is that of the automatic responder for the error of
    the plan, 400 for these two errors. *)
Theorem v1DataPatch_validation (s : Server) (pathVar : string) :
  (forall before p after impls,
      prepareV1PatchSlice (compiler s) pathVar before = Return impls ->
      (patchOpOf (Op_ p) = None ->
       prepareV1PatchSlice (compiler s) pathVar (before ++ p :: after)
       = Fail (badRequestError ("bad patch operation: " +:+ Op_ p)))
      /\ (forall o, patchOpOf (Op_ p) = Some o ->
            ParsePath (effectivePath pathVar (Path_ p)) = None ->
            prepareV1PatchSlice (compiler s) pathVar (before ++ p :: after)
            = Fail (badRequestError ("bad patch path: " +:+ Path_ p))))
  /\ (forall ops e,
         prepareV1PatchSlice (compiler s) pathVar ops = Fail e ->
         (v1DataPatch s pathVar (inr ops)).1 = s
         /\ (forall r, (v1DataPatch s pathVar (inr ops)).2 = Some r -> status r <> 204)
         /\ (forall u, NewTransaction (store s) = inr u ->
               exists r, handleErrorAuto e = Some r
                         /\ v1DataPatch s pathVar (inr ops) = (s, Some r)))
  /\ (forall ops p,
         p ∈ ops ->
         (forall impl, prepareV1Patch (compiler s) ("/" +:+ Trim pathVar) p <> Return impl) ->
         (v1DataPatch s pathVar (inr ops)).1 = s
         /\ (forall r, (v1DataPatch s pathVar (inr ops)).2 = Some r -> status r <> 204)
         /\ (forall u, NewTransaction (store s) = inr u ->
               exists r, v1DataPatch s pathVar (inr ops) = (s, Some r)))
  /\ (forall msg,
         handleErrorAuto (J := dataV1) (badRequestError msg)
         = Some (handleError 400 (badRequestError msg))).
Proof.
  split; [| split; [| split]].
  - intros before p after impls Hbefore. split.
    + intros Hop. apply (prepareV1PatchSlice_first_failure _ _ _ _ _ impls); [exact Hbefore |].
      rewrite prepareV1Patch_checks, Hop. reflexivity.
    + intros o Hop Hpath.
      apply (prepareV1PatchSlice_first_failure _ _ _ _ _ impls); [exact Hbefore |].
      rewrite prepareV1Patch_checks, Hop, Hpath. reflexivity.
  - intros ops e. apply v1DataPatch_plan_failed.
  - intros ops p Hin Hbad.
    destruct (prepareV1PatchSlice_loop_failing (compiler s) pathVar ops p Hin Hbad [])
      as [e He].
    destruct (v1DataPatch_plan_failed s pathVar ops e He) as (Hstate & Hstatus & Hanswer).
    split; [exact Hstate |]. split; [exact Hstatus |].
    intros u Hu. destruct (Hanswer u Hu) as (r & _ & Hr). eauto.
  - reflexivity.
Qed.
End PatchPlanner.

Lemma v1DataPatch_validation_witness :
  prepareV1PatchSlice (compiler emptyServer) "x"
    ([ {| Op_ := "add"; Path_ := "/y"; Value_ := JArray [] |} ]
     ++ {| Op_ := "move"; Path_ := "/z"; Value_ := JNull |} :: [])
  = Fail (badRequestError ("bad patch operation: " +:+ "move")).
Proof.
  apply (proj1 (proj1 (v1DataPatch_validation emptyServer "x")
                  [ {| Op_ := "add"; Path_ := "/y"; Value_ := JArray [] |} ]
                  {| Op_ := "move"; Path_ := "/z"; Value_ := JNull |} []
                  [ {| path := ["x"; "y"]; op := AddOp; value := JArray [] |} ]
                  eq_refl)).
  reflexivity.
Defined.

Example v1DataPatch_bad_path :
  v1DataPatch emptyServer "x"
    (inr [ {| Op_ := "add"; Path_ := "/y"; Value_ := JArray [] |};
           {| Op_ := "replace"; Path_ := "/y//0"; Value_ := JNull |} ])
  = (emptyServer, Some (Response 400 (apiErrorV1 400 "bad patch path: /y//0"))).
Proof. reflexivity. Qed.

Example v1DataPatch_scenario :
  let answer :=
    v1DataPatch (dataServer (JObject [("x", JObject [])])) "x"
      (inr [ {| Op_ := "add"; Path_ := "/y"; Value_ := JArray [JNumber "1"; JNumber "2"] |};
             {| Op_ := "replace"; Path_ := "/y/0"; Value_ := JNumber "9" |} ]) in
  data (store answer.1) = JObject [("x", JObject [("y", JArray [JNumber "9"; JNumber "2"])])]
  /\ option_map status answer.2 = Some 204.
Proof. split; reflexivity. Qed.

(** ** Writes and virtual documents *)

Section VirtualDocuments.
Context {F : Fmt} {A : AST} {St : Storage A} {Td : Topdown A St}.

(** The write-conflict check refuses every path at which the snapshot has a
    virtual document, and the patch handler writes only what passed it. *)
Lemma v1DataPatch_checked (s : Server) (pathVar : string) (ops : list patchV1)
    (impls : list patchImpl) :
  prepareV1PatchSlice (compiler s) pathVar ops = Return impls ->
  Forall (fun i => hasVirtualAt (compiler s)
                     (PathRef DefaultRootDocument (targetPath (op i) (path i))) = false)
         impls.
Proof.
  intros H.
  apply (prepareV1PatchSlice_loop_checked (compiler s) pathVar ops [] impls);
    [constructor | exact H].
Qed.

Lemma v1DataPatch_conflict (s : Server) (pathVar : string)
    (before after : list patchV1) (p : patchV1) (impls : list patchImpl)
    (o : PatchOp) (sp : Path) :
  prepareV1PatchSlice (compiler s) pathVar before = Return impls ->
  patchOpOf (Op_ p) = Some o ->
  ParsePath (effectivePath pathVar (Path_ p)) = Some sp ->
  hasVirtualAt (compiler s) (PathRef DefaultRootDocument (targetPath o sp)) = true ->
  prepareV1PatchSlice (compiler s) pathVar (before ++ p :: after)
  = Fail (WriteConflictError (targetPath o sp)).
Proof.
  intros Hbefore Hop Hpath Hvirtual.
  apply (prepareV1PatchSlice_first_failure _ _ _ _ _ impls); [exact Hbefore |].
  rewrite prepareV1Patch_checks, Hop, Hpath, (writeConflict_virtual _ _ _ Hvirtual).
  reflexivity.
Qed.
End VirtualDocuments.

(** C4. The write-conflict check and the patch planner refuse a virtual
    document, but the final write of [PUT /v1/data] is not checked: with a
    rule at [data.a.b] and [/a] an empty object, the check refuses [/a/b],
    a patch adding [/a/b] is answered 404, and [PUT /v1/data/a/b] writes
    [/a/b] and answers 204. *)
Theorem v1DataPut_writes_virtual :
  snapshotCurrent virtualServer
  /\ hasVirtualAt (compiler virtualServer) (PathRef DefaultRootDocument ["a"; "b"]) = true
  /\ writeConflict (compiler virtualServer) AddOp ["a"; "b"]
     = Fail (WriteConflictError ["a"; "b"])
  /\ v1DataPatch virtualServer "a"
       (inr [ {| Op_ := "add"; Path_ := "/b"; Value_ := JNumber "1" |} ])
     = (virtualServer, Some (Response 404 (apiErrorV1 404 "write conflict: /a/b")))
  /\ data (store (v1DataPut virtualServer "a/b" "" (inr (JNumber "1"))).1)
     = JObject [("a", JObject [("b", JNumber "1")])]
  /\ option_map status (v1DataPut virtualServer "a/b" "" (inr (JNumber "1"))).2
     = Some 204.
Proof.
  split; [vm_compute; reflexivity |].
  split; [reflexivity |].
  split; [reflexivity |].
  split; [reflexivity |].
  split; reflexivity.
Qed.

(** ** Missing ancestors *)

Section MakeDir.
Context {F : Fmt} {A : AST} {St : Storage A} {Td : Topdown A St}.

Lemma materialize_snoc (c : Compiler) (missing : list string) (k : string) :
  forall st base,
    materialize c st base (missing ++ [k])
    = match materialize c st base missing with
      | (st1, Return _) =>
          match writeConflict c AddOp (base ++ missing ++ [k]) with
          | Return _ =>
              match Write st1 AddOp (base ++ missing ++ [k]) (JObject []) with
              | inr st2 => (st2, Return tt)
              | inl e => (st1, Fail e)
              end
          | Fail e => (st1, Fail e)
          | Panic => (st1, Panic)
          end
      | other => other
      end.
Proof.
  induction missing as [| m missing IH]; intros st base; simpl.
  - reflexivity.
  - destruct (writeConflict c AddOp (base ++ [m])); try reflexivity.
    destruct (Write st AddOp (base ++ [m]) (JObject [])) as [e | st']; [reflexivity |].
    rewrite IH. rewrite <- !(app_assoc base [m]). reflexivity.
Qed.

Lemma makeDir_rec_found (fuel : nat) (c : Compiler) (st : Store) (p : Path) (node : JSON) :
  Read st p = inr node ->
  makeDir_rec fuel c st p
  = match node with
    | JObject _ => (st, Return tt)
    | _ => (st, Fail (WriteConflictError p))
    end.
Proof. intros H. destruct fuel; simpl; rewrite H; reflexivity. Qed.

(** [makeDir] on a path whose segments below [base] are all missing: the
    recursion towards the root followed by the writes on the way back is the
    creation of the missing segments from the shallowest. *)
Lemma makeDir_materialize (c : Compiler) (st : Store) (base : Path) (node : JSON)
    (missing : list string) :
  Read st base = inr node ->
  (forall n, (0 < n <= length missing)%nat ->
             exists e, Read st (base ++ take n missing) = inl e /\ IsNotFound e = true) ->
  makeDir c st (base ++ missing)
  = match node with
    | JObject _ => materialize c st base missing
    | _ => (st, Fail (WriteConflictError base))
    end.
Proof.
  intros Hbase. induction missing as [| k missing IH] using rev_ind; intros Hmissing.
  - rewrite app_nil_r. unfold makeDir. rewrite (makeDir_rec_found _ _ _ _ _ Hbase).
    destruct node; reflexivity.
  - destruct (Hmissing (length (missing ++ [k]))) as (e & Hread & Hnf).
    { rewrite length_app. simpl. lia. }
    rewrite take_ge in Hread by lia.
    unfold makeDir. rewrite app_assoc, length_app. simpl length.
    replace (length (base ++ missing) + 1)%nat with (S (length (base ++ missing))) by lia.
    simpl makeDir_rec. rewrite <- app_assoc, Hread, Hnf. simpl negb. cbv iota.
    rewrite app_assoc, removelast_last.
    change (makeDir_rec (length (base ++ missing)) c st (base ++ missing))
      with (makeDir c st (base ++ missing)).
    rewrite IH.
    + destruct node; try reflexivity.
      rewrite materialize_snoc, <- app_assoc. reflexivity.
    + intros n Hn. destruct (Hmissing n) as (e' & Hread' & Hnf').
      { rewrite length_app. simpl. lia. }
      rewrite take_app_le in Hread' by lia. eauto.
Qed.

(** A missing segment that the write-conflict check refuses ends the
    creation, the segments before it having been created. *)
Lemma materialize_conflict (c : Compiler) (pre : list string) (k : string)
    (post : list string) :
  forall st base st1,
    materialize c st base pre = (st1, Return tt) ->
    hasVirtualAt c (PathRef DefaultRootDocument (targetPath AddOp (base ++ pre ++ [k])))
    = true ->
    materialize c st base (pre ++ k :: post)
    = (st1, Fail (WriteConflictError (targetPath AddOp (base ++ pre ++ [k])))).
Proof.
  induction pre as [| m pre IH]; intros st base st1 Hpre Hvirtual;
    cbn [materialize app] in Hpre, Hvirtual |- *.
  - injection Hpre as <-. rewrite (writeConflict_virtual _ _ _ Hvirtual). reflexivity.
  - destruct (writeConflict c AddOp (base ++ [m])) as [u | e |]; try discriminate.
    destruct (Write st AddOp (base ++ [m]) (JObject [])) as [e | st']; [discriminate |].
    rewrite (IH st' (base ++ [m]) st1 Hpre); rewrite <- !(app_assoc base [m]);
      [reflexivity | exact Hvirtual].
Qed.

(** C5, as amended.  When [PUT /v1/data/{path}] reads the target and the
    store answers NotFound, the handler does not answer from that error.  It
    looks for the nearest existing ancestor of the target.  If that ancestor
    is not an object the answer is 404, through the error responder, for the
    write conflict on that ancestor, and nothing is written.  Otherwise the
    missing ancestors are created as empty objects from the shallowest, each
    after the write-conflict check of an add at it, which first drops a last
    segment [-]: the check is made on, and its error names, the path so
    shortened.  A check that fails ends the request with 404 for that
    error, the ancestors created before it staying.  Then the value is
    written at the target and the answer is 204; an error of a write is
    answered by the automatic responder. *)
Theorem v1DataPut_NotFound (s : Server) (pathVar ifNoneMatch : string) (val : JSON)
    (p base : Path) (missing : list string) (err : error) (node : JSON) :
  NewTransaction (store s) = inr tt ->
  ParsePath ("/" +:+ Trim pathVar) = Some p ->
  Read (store s) p = inl err ->
  IsNotFound err = true ->
  p <> [] ->
  removelast p = base ++ missing ->
  Read (store s) base = inr node ->
  (forall n, (0 < n <= length missing)%nat ->
             exists e, Read (store s) (base ++ take n missing) = inl e
                       /\ IsNotFound e = true) ->
  v1DataPut s pathVar ifNoneMatch (inr val)
  = match node with
    | JObject _ =>
        match materialize (compiler s) (store s) base missing with
        | (st, Return _) =>
            match Write st AddOp p val with
            | inr st' => (setStore s st', Some (Response 204 (rawBody None)))
            | inl e => (setStore s st, handleErrorAuto e)
            end
        | (st, Fail e) => (setStore s st, handleErrorAuto e)
        | (st, Panic) => (setStore s st, None)
        end
    | _ => (s, Some (handleError 404 (WriteConflictError base)))
    end
  /\ (forall kvs pre k post st1,
         node = JObject kvs ->
         missing = pre ++ k :: post ->
         materialize (compiler s) (store s) base pre = (st1, Return tt) ->
         hasVirtualAt (compiler s)
           (PathRef DefaultRootDocument (targetPath AddOp (base ++ pre ++ [k]))) = true ->
         v1DataPut s pathVar ifNoneMatch (inr val)
         = (setStore s st1,
            Some (handleError 404
                    (WriteConflictError (targetPath AddOp (base ++ pre ++ [k])))))).
Proof.
  intros Htxn Hpath Hread Hnf Hne Hparent Hbase Hmissing.
  assert (Hmain :
    v1DataPut s pathVar ifNoneMatch (inr val)
    = match node with
      | JObject _ =>
          match materialize (compiler s) (store s) base missing with
          | (st, Return _) =>
              match Write st AddOp p val with
              | inr st' => (setStore s st', Some (Response 204 (rawBody None)))
              | inl e => (setStore s st, handleErrorAuto e)
              end
          | (st, Fail e) => (setStore s st, handleErrorAuto e)
          | (st, Panic) => (setStore s st, None)
          end
      | _ => (s, Some (handleError 404 (WriteConflictError base)))
      end).
  { unfold v1DataPut. rewrite Htxn, Hpath, Hread, Hnf. simpl negb. cbv iota.
    destruct p as [| seg p']; [congruence |].
    rewrite Hparent, (makeDir_materialize _ _ _ _ _ Hbase Hmissing).
    destruct node; try (rewrite setStore_store; reflexivity).
    destruct (materialize (compiler s) (store s) base missing) as [st [u | e |]];
      reflexivity. }
  split; [exact Hmain |].
  intros kvs pre k post st1 -> -> Hpre Hvirtual. rewrite Hmain.
  rewrite (materialize_conflict _ _ _ _ _ _ _ Hpre Hvirtual). reflexivity.
Qed.
End MakeDir.

Lemma v1DataPut_NotFound_witness :
  v1DataPut emptyServer "a/b/c" "" (inr (JNumber "1"))
  = (dataServer (JObject [("a", JObject [("b", JObject [("c", JNumber "1")])])]),
     Some (Response 204 (rawBody None))).
Proof.
  apply (proj1 (v1DataPut_NotFound emptyServer "a/b/c" "" (JNumber "1")
                  ["a"; "b"; "c"] [] ["a"; "b"] (notFound ["a"; "b"; "c"]) (JObject [])
                  eq_refl eq_refl eq_refl eq_refl ltac:(discriminate) eq_refl eq_refl
                  ltac:(intros n [Hpos Hle]; simpl in Hle;
                        destruct n as [| [| [| n]]]; try lia;
                        eexists; split; reflexivity))).
Defined.

(** C5, as stated, fails.  With a rule at [data.a] and an empty store, every
    existing ancestor of [/a/b] (the root alone) is an object, yet the
    request is answered 404 and [/a] is not created: the missing ancestor is
    a virtual document.  And with an array at [/a] whose first element is an
    object, an existing ancestor of [/a/0/b] holds a value that is not an
    object, yet the write is made and answered 204. *)
Lemma v1DataPut_NotFound_counterexample :
  (Read (store shadowedServer) [] = inr (JObject [])
   /\ Read (store shadowedServer) ["a"; "b"] = inl (notFound ["a"; "b"])
   /\ v1DataPut shadowedServer "a/b" "" (inr (JNumber "1"))
      = (shadowedServer, Some (handleError 404 (WriteConflictError ["a"]))))
  /\ (let s := dataServer (JObject [("a", JArray [JObject []])]) in
      Read (store s) ["a"] = inr (JArray [JObject []])
      /\ Read (store s) ["a"; "0"; "b"] = inl (notFound ["a"; "0"; "b"])
      /\ v1DataPut s "a/0/b" "" (inr (JNumber "1"))
         = (dataServer (JObject [("a", JArray [JObject [("b", JNumber "1")]])]),
            Some (Response 204 (rawBody None)))).
Proof. repeat split; reflexivity. Qed.

(** A missing ancestor whose last segment is [-]: with a rule at [data.a.b]
    and [/a] an empty object, the ancestor [/a/-] of [/a/-/c] has no rule at
    or under it, yet the check is made on [/a] and the conflict names
    [/a]. *)
Example v1DataPut_dash_ancestor :
  hasVirtualAt (compiler virtualServer) (PathRef DefaultRootDocument ["a"; "-"]) = false
  /\ v1DataPut virtualServer "a/-/c" "" (inr (JNumber "1"))
     = (virtualServer, Some (handleError 404 (WriteConflictError ["a"]))).
Proof. split; reflexivity. Qed.

(** ** Policies and the compiler snapshot *)

Section Policies.
Context {F : Fmt} {A : AST} {St : Storage A} {Td : Topdown A St}.

(** A policy request either leaves the server as it was, or commits the
    requested module set together with its compilation. *)
Lemma servePolicy_commit (s : Server) (r : policyRequest) :
  exists s' resp,
    servePolicy s r = (s', resp)
    /\ (s' = s
        \/ exists mods c st,
             requestedModules s r = Some mods
             /\ Compile mods = Compiled c
             /\ s' = setCompiler (setStore s st) c
             /\ match r with
                | PolicyPut id (inr buf) =>
                    exists m, ParseModule id buf = inr (Some m)
                              /\ InsertPolicy (store s) id m buf (persist s) = inr st
                | PolicyPut _ (inl _) => False
                | PolicyDelete id => DeletePolicy (store s) id = inr st
                end).
Proof.
  destruct r as [id [err | buf] | id]; simpl.
  - eauto.
  - unfold v1PoliciesPut.
    destruct (ParseModule id buf) as [perr | [m |]] eqn:Hparse.
    + destruct perr; eauto.
    + destruct (NewTransaction (store s)); [eauto |].
      destruct (Compile (<[id:=m]> (ListPolicies (store s)))) as [c | errs] eqn:Hc; [| eauto].
      destruct (InsertPolicy (store s) id m buf (persist s)) as [e | st] eqn:Hins; [eauto |].
      eexists _, _. split; [reflexivity |]. right.
      exists (<[id:=m]> (ListPolicies (store s))), c, st. eauto 6.
    + eauto.
  - unfold v1PoliciesDelete.
    destruct (NewTransaction (store s)); [eauto |].
    destruct (GetPolicy (store s) id) as [e | ms] eqn:Hget; [eauto |].
    destruct (Compile (delete id (ListPolicies (store s)))) as [c | errs] eqn:Hc; [| eauto].
    destruct (DeletePolicy (store s) id) as [e | st] eqn:Hdel; [eauto |].
    eexists _, _. split; [reflexivity |]. right.
    exists (delete id (ListPolicies (store s))), c, st. eauto 6.
Qed.

Lemma servePolicy_snapshotCurrent (s s' : Server) (r : policyRequest)
    (resp : option (response policyV1)) :
  PolicyStoreLaws ->
  snapshotCurrent s ->
  servePolicy s r = (s', resp) ->
  snapshotCurrent s'.
Proof.
  intros Hlaws Hinv Hserve.
  destruct (servePolicy_commit s r) as (s1 & resp1 & Hserve1 & Hcases).
  rewrite Hserve in Hserve1. injection Hserve1 as <- <-.
  destruct Hcases as [-> | (mods & c & st & Hmods & Hc & -> & Hstore)]; [exact Hinv |].
  unfold snapshotCurrent. simpl.
  destruct r as [id [err | buf] | id]; simpl in Hmods, Hstore.
  - contradiction.
  - destruct Hstore as (m & Hparse & Hins). rewrite Hparse in Hmods.
    injection Hmods as <-.
    rewrite (InsertPolicy_ListPolicies Hlaws _ _ _ _ _ _ Hins). exact Hc.
  - destruct (GetPolicy (store s) id); [discriminate |]. injection Hmods as <-.
    rewrite (DeletePolicy_ListPolicies Hlaws _ _ _ Hstore). exact Hc.
Qed.

Lemma servePolicies_snapshotCurrent (rs : list policyRequest) :
  PolicyStoreLaws ->
  forall s, snapshotCurrent s -> snapshotCurrent (servePolicies s rs).
Proof.
  intros Hlaws. induction rs as [| r rs IH]; intros s Hinv; simpl; [exact Hinv |].
  destruct (servePolicy_commit s r) as (s1 & resp1 & Hserve1 & _).
  rewrite Hserve1. apply IH.
  exact (servePolicy_snapshotCurrent s s1 r resp1 Hlaws Hinv Hserve1).
Qed.

(** [New] starts with the compilation of the stored modules. *)
Lemma New_snapshotCurrent (st : Store) (p : bool) (s : Server) :
  New st p = Return s -> snapshotCurrent s.
Proof.
  unfold New, snapshotCurrent. destruct (NewTransaction st); simpl; [discriminate |].
  destruct (Compile (ListPolicies st)) as [c | errs] eqn:Hc; [| discriminate].
  intros [= <-]. exact Hc.
Qed.

(** C1. [PUT] and [DELETE] on [/v1/policies/{id}] compile the whole module
    set with the requested change applied before anything is committed.  If
    that compilation fails the answer is 400 and neither the stored modules
    nor the published compiler change.  A request changes the server only by
    committing the requested set together with its compilation.  So after
    any sequence of policy requests, served from a state whose compiler is
    the compilation of the stored modules (the state [New] starts in), the
    published compiler is the compilation of exactly the stored modules. *)
Theorem policy_snapshot_invariant :
  PolicyStoreLaws ->
  forall s : Server,
    snapshotCurrent s ->
    (forall rs, snapshotCurrent (servePolicies s rs))
    /\ (forall id buf m errs u,
           ParseModule id buf = inr (Some m) ->
           NewTransaction (store s) = inr u ->
           Compile (<[id := m]> (ListPolicies (store s))) = CompileFailed errs ->
           v1PoliciesPut s id (inr buf)
           = (s, Some (Response 400 (astErrorV1 400 compileModErrMsg errs))))
    /\ (forall id ms errs u,
           NewTransaction (store s) = inr u ->
           GetPolicy (store s) id = inr ms ->
           Compile (delete id (ListPolicies (store s))) = CompileFailed errs ->
           v1PoliciesDelete s id
           = (s, Some (Response 400 (astErrorV1 400 compileModErrMsg errs))))
    /\ (forall r s' resp,
           servePolicy s r = (s', resp) ->
           s' = s
           \/ exists mods,
                requestedModules s r = Some mods
                /\ Compile mods = Compiled (compiler s')
                /\ ListPolicies (store s') = mods).
Proof.
  intros Hlaws s Hinv. split; [| split; [| split]].
  - intros rs. exact (servePolicies_snapshotCurrent rs Hlaws s Hinv).
  - intros id buf m errs u Hparse Htxn Hc.
    unfold v1PoliciesPut. rewrite Hparse, Htxn, Hc. reflexivity.
  - intros id ms errs u Htxn Hget Hc.
    unfold v1PoliciesDelete. rewrite Htxn, Hget, Hc. reflexivity.
  - intros r s' resp Hserve.
    destruct (servePolicy_commit s r) as (s1 & resp1 & Hserve1 & Hcases).
    rewrite Hserve in Hserve1. injection Hserve1 as <- <-.
    destruct Hcases as [-> | (mods & c & st & Hmods & Hc & -> & Hstore)]; [auto |].
    right. exists mods. split; [exact Hmods |]. split; [exact Hc |]. simpl.
    destruct r as [id [err | buf] | id]; simpl in Hmods, Hstore.
    + contradiction.
    + destruct Hstore as (m & Hparse & Hins). rewrite Hparse in Hmods.
      injection Hmods as <-. exact (InsertPolicy_ListPolicies Hlaws _ _ _ _ _ _ Hins).
    + destruct (GetPolicy (store s) id); [discriminate |]. injection Hmods as <-.
      exact (DeletePolicy_ListPolicies Hlaws _ _ _ Hstore).
Qed.
End Policies.

Lemma memStorage_laws : PolicyStoreLaws (A := memAST) (St := memStorage).
Proof.
  split.
  - intros st id m buf p st' [= <-]. simpl. apply (fmap_insert fst).
  - intros st id st'. simpl.
    destruct (policies st !! id); [| discriminate].
    intros [= <-]. simpl. apply (fmap_delete fst).
Qed.

Lemma policy_snapshot_invariant_witness :
  snapshotCurrent
    (servePolicies emptyServer
       [PolicyPut "p" (inr "a/b"); PolicyPut "q" (inr "x/y:a/b");
        PolicyDelete "p"; PolicyPut "r" (inr "u:v"); PolicyDelete "q"]).
Proof.
  apply (proj1 (policy_snapshot_invariant memStorage_laws emptyServer
                  ltac:(vm_compute; reflexivity))).
Defined.

(** Deleting a module another one refers to: the remaining set does not
    compile, the answer is 400 and nothing changes. *)
Example v1PoliciesDelete_rejected :
  let s := servePolicies emptyServer
             [PolicyPut "p" (inr "a/b"); PolicyPut "q" (inr "x/y:a/b")] in
  v1PoliciesDelete s "p"
  = (s, Some (Response 400
                (astErrorV1 400 compileModErrMsg ["rego_unsafe_ref_error: /a/b"]))).
Proof. reflexivity. Qed.

(** ** The verdict of the RPC *)

Section Verdict.
Context {F : Fmt} {A : AST} {St : Storage A} {Td : Topdown A St}.

(** C3. When the evaluation for a ground request succeeds with an empty
    result set (the path is undefined), [Validate] returns DENY, the value
    the response is initialised with, and no obligation; when it succeeds
    with a result object whose [match] is an empty object, [Validate]
    returns PERMIT and no obligation.  But when the result object has no
    [match] key, the index of the map gives the nil interface and the
    unchecked type assertion on it panics: no verdict is returned, not the
    DENY the response was initialised with. *)
Theorem grpcDataGet_default (s : Server) (req : ibp.Request) (input : option Value) :
  parseInput (rpcInputs req) = inr (input, false) ->
  NewTransaction (store s) = inr tt ->
  (forall buf,
      Query (compiler s) (store s) input (rpcPath req) = inr ([], buf) ->
      Validate s req
      = Some ({| ibp.Effect := ibp.Response_DENY; ibp.Obligation := [] |}, None))
  /\ (forall qr qrs buf results,
         Query (compiler s) (store s) input (rpcPath req) = inr (qr :: qrs, buf) ->
         Result qr = JObject results ->
         mapIndex "match" results = Some (JObject []) ->
         Validate s req
         = Some ({| ibp.Effect := ibp.Response_PERMIT; ibp.Obligation := [] |}, None))
  /\ (forall qr qrs buf results,
         Query (compiler s) (store s) input (rpcPath req) = inr (qr :: qrs, buf) ->
         Result qr = JObject results ->
         mapIndex "match" results = None ->
         Validate s req = None).
Proof.
  intros Hinput Htxn. unfold Validate, grpcDataGet.
  fold (rpcInputs req). fold (rpcPath req). rewrite Hinput, Htxn. split; [| split].
  - intros buf ->. reflexivity.
  - intros qr qrs buf results -> -> Hmatch. simpl. rewrite Hmatch. reflexivity.
  - intros qr qrs buf results -> -> Hmatch. simpl. rewrite Hmatch. reflexivity.
Qed.
End Verdict.

(** The failing input of C3: the document [data.opa.c1] is the empty
    object. *)
Lemma grpcDataGet_default_witness :
  Validate (tenantServer (JObject [])) tenantRequest = None.
Proof.
  assert (Hinput : parseInput (rpcInputs tenantRequest)
                   = inr (Some (Object [("customer_id", Str "c1"); ("q", Str "x")]), false))
    by (vm_compute; reflexivity).
  apply (proj2 (proj2 (grpcDataGet_default
                         (tenantServer (JObject [])) tenantRequest
                         (Some (Object [("customer_id", Str "c1"); ("q", Str "x")]))
                         Hinput eq_refl))
           {| Result := JObject []; Bindings := [] |} [] [] []);
    vm_compute; reflexivity.
Defined.

(** The two cases in which the verdict is a default: the path is undefined,
    and [match] is there but empty. *)
Example Validate_undefined :
  Validate (dataServer (JObject [])) tenantRequest
  = Some ({| ibp.Effect := ibp.Response_DENY; ibp.Obligation := [] |}, None).
Proof. vm_compute. reflexivity. Qed.

Example Validate_empty_match :
  Validate (tenantServer (JObject [("match", JObject [])])) tenantRequest
  = Some ({| ibp.Effect := ibp.Response_PERMIT; ibp.Obligation := [] |}, None).
Proof. vm_compute. reflexivity. Qed.

(** C2.  The entry with the greatest priority is not used when that
    priority is not above 0: the best match starts with priority 0 and is
    replaced only by a strictly greater one.  With the single match
    [R1 = {action_type: action_block, priority: 0}] the verdict is PERMIT
    where the greatest-priority entry asks for DENY. *)
Theorem grpcDataGet_priority_zero :
  Validate (tenantServer (JObject [("match",
              JObject [("R1", matchEntry "action_block" "" "0")])])) tenantRequest
  = Some ({| ibp.Effect := ibp.Response_PERMIT; ibp.Obligation := [] |}, None)
  /\ Validate (tenantServer (JObject [("match",
                 JObject [("R1", matchEntry "action_redirect" "http://h" "-1");
                          ("R2", matchEntry "action_allow" "" "-5")])])) tenantRequest
     = Some ({| ibp.Effect := ibp.Response_PERMIT; ibp.Obligation := [] |}, None).
Proof. split; vm_compute; reflexivity. Qed.

(** The scenarios of the RPC with priorities above 0. *)
Example Validate_block :
  Validate (tenantServer (JObject [("match",
              JObject [("R1", matchEntry "action_allow" "" "1");
                       ("R2", matchEntry "action_block" "" "9")])])) tenantRequest
  = Some ({| ibp.Effect := ibp.Response_DENY; ibp.Obligation := [] |}, None).
Proof. vm_compute. reflexivity. Qed.

Example Validate_redirect :
  Validate (tenantServer (JObject [("match",
              JObject [("R1", matchEntry "action_allow" "" "1");
                       ("R2", matchEntry "action_redirect" "http://h" "9")])])) tenantRequest
  = Some ({| ibp.Effect := ibp.Response_DENY;
             ibp.Obligation := [ {| ibp.Id := "redirect_to"; ibp.Value := "http://h" |} ] |},
          None).
Proof. vm_compute. reflexivity. Qed.

Example Validate_tie_first :
  Validate (tenantServer (JObject [("match",
              JObject [("R1", matchEntry "action_allow" "" "9");
                       ("R2", matchEntry "action_block" "" "9")])])) tenantRequest
  = Some ({| ibp.Effect := ibp.Response_PERMIT; ibp.Obligation := [] |}, None).
Proof. vm_compute. reflexivity. Qed.

(** ** The search for the best match *)

Lemma rangeMatches_pickBest (entries : list (string * JSON)) (ms : list ValidateMatch) :
  Forall2 (fun kv m => entryOf kv.2 = Some m) entries ms ->
  forall best, rangeMatches entries best = Return (pickBest ms best).
Proof.
  induction 1 as [| [k val] m entries ms Hentry _ IH]; intros best; [reflexivity |].
  simpl in Hentry. unfold entryOf in Hentry.
  destruct val as [| | | | | fields]; try discriminate.
  destruct (mapIndex "priority" fields) as [[| | n | | |] |] eqn:Hp; try discriminate.
  destruct (mapIndex "action_type" fields) as [[| | | t | |] |] eqn:Ht; try discriminate.
  destruct (mapIndex "action_data" fields) as [[| | | d | |] |] eqn:Hd; try discriminate.
  injection Hentry as <-.
  cbn [rangeMatches pickBest Priority].
  change (assertMap (Some (JObject fields))) with (Return fields).
  cbn [mbind outcome_bind]. rewrite Hp. cbn [assertNumber mbind outcome_bind].
  destruct (Priority best <? (Int64 n).1).
  - rewrite Ht. cbn [assertString mbind outcome_bind]. rewrite Hd.
    cbn [assertString mbind outcome_bind]. apply IH.
  - apply IH.
Qed.

Lemma pickBest_app (pre post : list ValidateMatch) :
  forall best, pickBest (pre ++ post) best = pickBest post (pickBest pre best).
Proof. induction pre as [| m pre IH]; intros best; simpl; [reflexivity | apply IH]. Qed.

Lemma pickBest_keep (ms : list ValidateMatch) :
  forall best,
    Forall (fun m => Priority m <= Priority best) ms -> pickBest ms best = best.
Proof.
  induction ms as [| m ms IH]; intros best Hle; [reflexivity |].
  inversion Hle as [| ? ? Hm Hms]; subst. simpl.
  destruct (Z.ltb_spec (Priority best) (Priority m)) as [Hlt | _]; [lia |].
  apply IH. exact Hms.
Qed.

Lemma pickBest_below (ms : list ValidateMatch) (p : Z) :
  forall best,
    Priority best < p ->
    Forall (fun m => Priority m < p) ms ->
    Priority (pickBest ms best) < p.
Proof.
  induction ms as [| m ms IH]; intros best Hbest Hlt; [exact Hbest |].
  inversion Hlt as [| ? ? Hm Hms]; subst. simpl.
  apply IH; [| exact Hms].
  destruct (Priority best <? Priority m); assumption.
Qed.

(** Above the priority the search starts with, the search returns the first
    entry that has the greatest priority. *)
Lemma pickBest_first_greatest (pre post : list ValidateMatch) (m best : ValidateMatch) :
  Priority best < Priority m ->
  Forall (fun x => Priority x < Priority m) pre ->
  Forall (fun x => Priority x <= Priority m) post ->
  pickBest (pre ++ m :: post) best = m.
Proof.
  intros Hbest Hpre Hpost. rewrite pickBest_app. simpl.
  pose proof (pickBest_below pre (Priority m) best Hbest Hpre) as Hlt.
  apply Z.ltb_lt in Hlt. rewrite Hlt. apply pickBest_keep. exact Hpost.
Qed.

Section BestMatch.
Context {F : Fmt} {A : AST} {St : Storage A} {Td : Topdown A St}.

(** X24. Where the greatest priority decides: when the first entry of
    greatest priority has a priority above 0, the verdict is that of this
    entry; when no entry has a priority above 0, the verdict is PERMIT. *)
Lemma Validate_best_match (s : Server) (req : ibp.Request) (input : option Value)
    (qr : QueryResult) (qrs : list QueryResult) (buf : list Event)
    (results entries : list (string * JSON)) (ms : list ValidateMatch) :
  parseInput (rpcInputs req) = inr (input, false) ->
  NewTransaction (store s) = inr tt ->
  Query (compiler s) (store s) input (rpcPath req) = inr (qr :: qrs, buf) ->
  Result qr = JObject results ->
  mapIndex "match" results = Some (JObject entries) ->
  Forall2 (fun kv m => entryOf kv.2 = Some m) entries ms ->
  (forall pre m post,
      ms = pre ++ m :: post ->
      0 < Priority m ->
      Forall (fun x => Priority x < Priority m) pre ->
      Forall (fun x => Priority x <= Priority m) post ->
      Validate s req = Some (effectOf m, None))
  /\ (Forall (fun x => Priority x <= 0) ms ->
      Validate s req
      = Some ({| ibp.Effect := ibp.Response_PERMIT; ibp.Obligation := [] |}, None)).
Proof.
  intros Hinput Htxn Hquery Hresult Hmatch Hentries.
  assert (Hrun : Validate s req
                 = Some (effectOf (pickBest ms
                           {| ActionData := ""; ActionType := ""; Priority := 0 |}), None)).
  { unfold Validate, grpcDataGet. fold (rpcInputs req). fold (rpcPath req).
    rewrite Hinput, Htxn, Hquery, Hresult. simpl. rewrite Hmatch. simpl.
    rewrite (rangeMatches_pickBest entries ms Hentries). reflexivity. }
  split.
  - intros pre m post -> Hpos Hpre Hpost. rewrite Hrun.
    rewrite pickBest_first_greatest; [reflexivity | exact Hpos | exact Hpre | exact Hpost].
  - intros Hle. rewrite Hrun. rewrite pickBest_keep; [reflexivity | exact Hle].
Qed.
End BestMatch.

(** ** Starting the server, and the life of a policy *)

Lemma handleErrorAuto_not_200 {F : Fmt} {J} (err : error) (r : response J) :
  handleErrorAuto err = Some r -> status r <> 200.
Proof.
  intros H. destruct (handleErrorAuto_codes err r H) as [-> | [-> | ->]]; discriminate.
Qed.

Section PolicyLife.
Context {F : Fmt} {A : AST} {St : Storage A} {Td : Topdown A St}.

(** X1. [New] either returns a server over the store it was given, with the
    persist flag it was given and with the compilation of the stored modules
    as its compiler, or fails with the error of the transaction or with the
    errors of that compilation; it never starts a server whose stored
    modules do not compile. *)
Theorem New_outcome (st : Store) (p : bool) :
  match New st p with
  | Return s =>
      store s = st /\ persist s = p /\ snapshotCurrent s
      /\ exists u, NewTransaction st = inr u
  | Fail e =>
      NewTransaction st = inl e
      \/ ((exists u, NewTransaction st = inr u)
          /\ exists errs, Compile (ListPolicies st) = CompileFailed errs
                          /\ e = astErrors errs)
  | Panic => False
  end.
Proof.
  unfold New, snapshotCurrent. destruct (NewTransaction st) as [e | u]; simpl; [auto |].
  destruct (Compile (ListPolicies st)) as [c | errs] eqn:Hc; simpl; eauto 8.
Qed.

Lemma v1PoliciesPut_200 (s s1 : Server) (id : string) (body : error + string)
    (r1 : response policyV1) :
  v1PoliciesPut s id body = (s1, Some r1) ->
  status r1 = 200 ->
  exists buf m c st,
    body = inr buf
    /\ ParseModule id buf = inr (Some m)
    /\ Compile (<[id := m]> (ListPolicies (store s))) = Compiled c
    /\ InsertPolicy (store s) id m buf (persist s) = inr st
    /\ s1 = setCompiler (setStore s st) c
    /\ r1 = Response 200 (jsonBody {| ID := id; Module := Modules c !! id |} true).
Proof.
  unfold v1PoliciesPut. intros H Hstatus.
  destruct body as [err | buf]; [injection H as <- <-; discriminate |].
  destruct (ParseModule id buf) as [perr | [m |]] eqn:Hparse.
  - destruct perr; injection H as <- <-; discriminate.
  - destruct (NewTransaction (store s)) as [err | u].
    { injection H as <- H. exfalso. exact (handleErrorAuto_not_200 _ _ H Hstatus). }
    destruct (Compile (<[id:=m]> (ListPolicies (store s)))) as [c | errs] eqn:Hc;
      [| injection H as <- <-; discriminate].
    destruct (InsertPolicy (store s) id m buf (persist s)) as [e | st] eqn:Hins.
    { injection H as <- H. exfalso. exact (handleErrorAuto_not_200 _ _ H Hstatus). }
    injection H as <- <-. exists buf, m, c, st. auto 8.
  - injection H as <- <-. discriminate.
Qed.

Lemma v1PoliciesDelete_204 (s s2 : Server) (id : string) (r2 : response policyV1) :
  v1PoliciesDelete s id = (s2, Some r2) ->
  status r2 = 204 ->
  exists c st,
    Compile (delete id (ListPolicies (store s))) = Compiled c
    /\ DeletePolicy (store s) id = inr st
    /\ s2 = setCompiler (setStore s st) c.
Proof.
  unfold v1PoliciesDelete. intros H Hstatus.
  destruct (NewTransaction (store s)) as [err | u].
  { injection H as <- H. exfalso. exact (handleErrorAuto_not_204 _ _ H Hstatus). }
  destruct (GetPolicy (store s) id) as [err | ms].
  { injection H as <- H. exfalso. exact (handleErrorAuto_not_204 _ _ H Hstatus). }
  destruct (Compile (delete id (ListPolicies (store s)))) as [c | errs] eqn:Hc;
    [| injection H as <- <-; discriminate].
  destruct (DeletePolicy (store s) id) as [e | st] eqn:Hdel.
  { injection H as <- H. exfalso. exact (handleErrorAuto_not_204 _ _ H Hstatus). }
  injection H as <- <-. eauto.
Qed.

(** X2. [PUT /v1/policies/{id}] answers 400 and leaves the stored modules
    and the compiler as they are whenever the body does not parse to a
    module: on a parse error of either kind and on the empty module. *)
Theorem v1PoliciesPut_unparsed (s : Server) (id buf : string) :
  (forall m, ParseModule id buf <> inr (Some m)) ->
  exists r, v1PoliciesPut s id (inr buf) = (s, Some r)
            /\ status r = 400
            /\ (ParseModule id buf = inr None ->
                r = Response 400 (apiErrorV1 400 "refusing to add empty module")).
Proof.
  intros Hbad. unfold v1PoliciesPut.
  destruct (ParseModule id buf) as [perr | [m |]].
  - destruct perr; eexists; (split; [reflexivity |]); split;
      try reflexivity; discriminate.
  - exfalso. exact (Hbad m eq_refl).
  - eexists. split; [reflexivity |]. split; [reflexivity |]. intros _.
    unfold handleErrorf. rewrite Sprintf_plain; reflexivity.
Qed.

(** X3. [DELETE /v1/policies/{id}] of a module the store does not have
    is answered by the automatic responder for the error of the lookup,
    with 404 when that error is NotFound, without compiling anything: the
    answer does not depend on whether the other modules compile, and nothing
    changes. *)
Theorem v1PoliciesDelete_unknown (s : Server) (id : string) (e : error) (u : unit) :
  NewTransaction (store s) = inr u ->
  GetPolicy (store s) id = inl e ->
  v1PoliciesDelete s id = (s, handleErrorAuto e)
  /\ (IsNotFound e = true ->
      v1PoliciesDelete s id = (s, Some (handleError 404 e))
      /\ status (handleError (J := policyV1) 404 e) = 404).
Proof.
  intros Htxn Hget. unfold v1PoliciesDelete. rewrite Htxn, Hget.
  split; [reflexivity |]. intros Hnf. split; [| reflexivity]. f_equal.
  apply handleErrorAuto_recognised.
  destruct e as [[] | | | | |]; try discriminate. reflexivity.
Qed.

(** X4. A module installed by a [PUT] that answered 200 and removed by a
    [DELETE] that answered 204 leaves the stored module set without that
    ID, and the compiler is the compilation of that set; when the ID was new
    the set and the compiler are those from before the [PUT]. *)
Theorem policy_put_delete (s s1 s2 : Server) (id : string) (body : error + string)
    (r1 r2 : response policyV1) :
  PolicyStoreLaws ->
  v1PoliciesPut s id body = (s1, Some r1) -> status r1 = 200 ->
  v1PoliciesDelete s1 id = (s2, Some r2) -> status r2 = 204 ->
  ListPolicies (store s2) = delete id (ListPolicies (store s))
  /\ snapshotCurrent s2
  /\ (ListPolicies (store s) !! id = None ->
      ListPolicies (store s2) = ListPolicies (store s)
      /\ (snapshotCurrent s -> compiler s2 = compiler s)).
Proof.
  intros Hlaws Hput H200 Hdel H204.
  destruct (v1PoliciesPut_200 _ _ _ _ _ Hput H200)
    as (buf & m & c & st & -> & Hparse & Hc & Hins & -> & _).
  destruct (v1PoliciesDelete_204 _ _ _ _ Hdel H204) as (c2 & st2 & Hc2 & Hdel2 & ->).
  simpl in *.
  pose proof (InsertPolicy_ListPolicies Hlaws _ _ _ _ _ _ Hins) as Hl1.
  pose proof (DeletePolicy_ListPolicies Hlaws _ _ _ Hdel2) as Hl2.
  rewrite Hl1 in Hl2, Hc2. rewrite delete_insert_eq in Hl2, Hc2.
  split; [exact Hl2 |]. split.
  - unfold snapshotCurrent. simpl. rewrite Hl2. exact Hc2.
  - intros Hnew. rewrite delete_id in Hl2, Hc2 by exact Hnew.
    split; [exact Hl2 |]. unfold snapshotCurrent. intros Hinv.
    rewrite Hinv in Hc2. injection Hc2 as <-. reflexivity.
Qed.

(** X5. Repeating a [PUT] that answered 200, with the same ID and body,
    commits the same module set: when the second [PUT] answers 200 too, the
    stored modules, the compiler and the answer are those of the first. *)
Theorem policy_put_twice (s s1 s2 : Server) (id buf : string)
    (r1 r2 : response policyV1) :
  PolicyStoreLaws ->
  v1PoliciesPut s id (inr buf) = (s1, Some r1) -> status r1 = 200 ->
  v1PoliciesPut s1 id (inr buf) = (s2, Some r2) -> status r2 = 200 ->
  ListPolicies (store s2) = ListPolicies (store s1)
  /\ compiler s2 = compiler s1
  /\ r2 = r1.
Proof.
  intros Hlaws Hput1 H1 Hput2 H2.
  destruct (v1PoliciesPut_200 _ _ _ _ _ Hput1 H1)
    as (buf1 & m & c & st & [= <-] & Hparse & Hc & Hins & -> & ->).
  destruct (v1PoliciesPut_200 _ _ _ _ _ Hput2 H2)
    as (buf2 & m2 & c2 & st2 & [= <-] & Hparse2 & Hc2 & Hins2 & -> & ->).
  simpl in *. rewrite Hparse in Hparse2. injection Hparse2 as <-.
  pose proof (InsertPolicy_ListPolicies Hlaws _ _ _ _ _ _ Hins) as Hl1.
  pose proof (InsertPolicy_ListPolicies Hlaws _ _ _ _ _ _ Hins2) as Hl2.
  rewrite Hl1 in Hl2, Hc2. rewrite insert_insert_eq in Hl2, Hc2.
  rewrite Hc in Hc2. injection Hc2 as <-.
  split; [congruence |]. split; reflexivity.
Qed.

(** X6. [GET /v1/policies/{id}] shows the module of the published compiler,
    not of the store: after a [PUT] that answered 200, a [GET] of the same
    ID that finds the ID in the store answers exactly what the [PUT]
    answered, and changes nothing. *)
Theorem v1PoliciesGet_after_put (s s1 : Server) (id : string) (body : error + string)
    (r1 : response policyV1) (u : unit) (ms : Mod * string) :
  v1PoliciesPut s id body = (s1, Some r1) -> status r1 = 200 ->
  NewTransaction (store s1) = inr u ->
  GetPolicy (store s1) id = inr ms ->
  v1PoliciesGet s1 id = (s1, Some r1).
Proof.
  intros Hput H200 Htxn Hget.
  destruct (v1PoliciesPut_200 _ _ _ _ _ Hput H200)
    as (buf & m & c & st & -> & Hparse & Hc & Hins & -> & ->).
  unfold v1PoliciesGet. rewrite Htxn, Hget. reflexivity.
Qed.

(** X7. [GET /v1/policies] lists exactly the modules of the published
    compiler, each ID once, without looking at the store, and changes
    nothing. *)
Theorem v1PoliciesList_modules (s : Server) :
  exists l,
    v1PoliciesList s = (s, Some (Response 200 (jsonBody l true)))
    /\ (forall id m, {| ID := id; Module := Some m |} ∈ l
                     <-> Modules (compiler s) !! id = Some m)
    /\ NoDup (map ID l)
    /\ length l = size (Modules (compiler s)).
Proof.
  eexists. split; [reflexivity |]. split; [| split].
  - intros id m. rewrite list_elem_of_fmap. split.
    + intros ([id' m'] & [= -> ->] & Hin). apply elem_of_map_to_list. exact Hin.
    + intros Hm. exists (id, m). split; [reflexivity |].
      apply elem_of_map_to_list. exact Hm.
  - rewrite map_map. simpl. apply NoDup_fst_map_to_list.
  - rewrite length_map. apply length_map_to_list.
Qed.
End PolicyLife.

Lemma v1PoliciesPut_unparsed_witness :
  exists r, v1PoliciesPut emptyServer "p" (inr "a//b") = (emptyServer, Some r)
            /\ status r = 400
            /\ (ParseModule "p" "a//b" = inr None ->
                r = Response 400 (apiErrorV1 400 "refusing to add empty module")).
Proof.
  apply (v1PoliciesPut_unparsed emptyServer "p" "a//b").
  intros m. discriminate.
Defined.

Lemma v1PoliciesDelete_unknown_witness :
  v1PoliciesDelete emptyServer "p"
  = (emptyServer,
     handleErrorAuto (storageError NotFoundErr ("policy module not found: " +:+ "p"))).
Proof.
  exact (proj1 (v1PoliciesDelete_unknown emptyServer "p"
                  (storageError NotFoundErr ("policy module not found: " +:+ "p")) tt
                  eq_refl ltac:(reflexivity))).
Defined.

Lemma policy_put_delete_witness :
  ListPolicies (store emptyServer) = delete "p" (ListPolicies (store emptyServer)).
Proof.
  exact (proj1 (policy_put_delete emptyServer oneRuleServer emptyServer "p" (inr "a/b")
                  oneRuleAnswer (handleResponse 204 None) memStorage_laws
                  ltac:(reflexivity) ltac:(reflexivity)
                  ltac:(reflexivity) ltac:(reflexivity))).
Defined.

Lemma policy_put_twice_witness :
  ListPolicies (store oneRuleServer) = ListPolicies (store oneRuleServer).
Proof.
  exact (proj1 (policy_put_twice emptyServer oneRuleServer oneRuleServer "p" "a/b"
                  oneRuleAnswer oneRuleAnswer memStorage_laws
                  ltac:(reflexivity) ltac:(reflexivity)
                  ltac:(reflexivity) ltac:(reflexivity))).
Defined.

Lemma v1PoliciesGet_after_put_witness :
  v1PoliciesGet oneRuleServer "p" = (oneRuleServer, Some oneRuleAnswer).
Proof.
  exact (v1PoliciesGet_after_put emptyServer oneRuleServer "p" (inr "a/b")
           oneRuleAnswer tt (ruleModule ["a"; "b"], "a/b")
           ltac:(reflexivity) ltac:(reflexivity)
           ltac:(reflexivity) ltac:(reflexivity)).
Defined.

(** ** Slashes, plans and writes *)

Lemma TrimRight_slash_r (s : string) : TrimRight (s +:+ "/") = TrimRight s.
Proof.
  induction s as [| c s IH]; [reflexivity |].
  change (String c s +:+ "/") with (String c (s +:+ "/")).
  simpl. rewrite IH. reflexivity.
Qed.

Lemma Trim_slash_l (s : string) : Trim ("/" +:+ s) = Trim s.
Proof. reflexivity. Qed.

Lemma Trim_slash_r (s : string) : Trim (s +:+ "/") = Trim s.
Proof.
  induction s as [| c s IH]; [reflexivity |].
  change (String c s +:+ "/") with (String c (s +:+ "/")).
  unfold Trim in *. simpl. destruct (Ascii.eqb c slash).
  - exact IH.
  - change (String c (s +:+ "/")) with (String c s +:+ "/"). apply TrimRight_slash_r.
Qed.

Lemma last_removelast_dash (p : Path) : targetPath AddOp (p ++ ["-"]) = p.
Proof.
  unfold targetPath. rewrite last_snoc, bool_decide_eq_true_2 by reflexivity.
  apply removelast_last.
Qed.

Section Plans.
Context {F : Fmt} {A : AST} {St : Storage A} {Td : Topdown A St}.

Lemma prepareV1PatchSlice_loop_no_panic (c : Compiler) (root : string) (ops : list patchV1) :
  forall acc, prepareV1PatchSlice_loop c ("/" +:+ Trim root) ops acc <> Panic.
Proof.
  induction ops as [| p ops IH]; intros acc; simpl; [discriminate |].
  destruct (prepareV1Patch c ("/" +:+ Trim root) p) eqn:Hp; simpl;
    [apply IH | discriminate |].
  exfalso. exact (prepareV1Patch_no_panic _ _ _ Hp).
Qed.

Lemma prepareV1Patch_planned (c : Compiler) (root : string) (p : patchV1) (i : patchImpl) :
  prepareV1Patch c ("/" +:+ Trim root) p = Return i <-> planned c root p i.
Proof.
  rewrite prepareV1Patch_checks. unfold planned. split.
  - destruct (patchOpOf (Op_ p)) as [o |]; [| discriminate].
    destruct (ParsePath _) as [sp |]; [| discriminate].
    destruct (writeConflict c o sp) as [u | |] eqn:Hw; try discriminate.
    intros [= <-]. simpl. repeat split. exact (writeConflict_Return _ _ _ _ Hw).
  - intros (Hop & Hpath & Hval & Hfree). rewrite Hop, Hpath.
    rewrite (writeConflict_free _ _ _ Hfree). destruct i; simpl in *. congruence.
Qed.

Lemma prepareV1PatchSlice_loop_planned (c : Compiler) (root : string) (ops : list patchV1) :
  forall acc impls,
    prepareV1PatchSlice_loop c ("/" +:+ Trim root) ops acc = Return impls
    <-> exists new, impls = acc ++ new /\ Forall2 (planned c root) ops new.
Proof.
  induction ops as [| p ops IH]; intros acc impls; simpl.
  - split.
    + intros [= <-]. exists []. rewrite app_nil_r. split; [reflexivity | constructor].
    + intros (new & -> & Hnew). inversion Hnew. rewrite app_nil_r. reflexivity.
  - destruct (prepareV1Patch c ("/" +:+ Trim root) p) as [i | e |] eqn:Hp; simpl.
    + rewrite IH. split.
      * intros (new & -> & Hnew). exists (i :: new).
        rewrite <- app_assoc. split; [reflexivity |].
        constructor; [apply prepareV1Patch_planned; exact Hp | exact Hnew].
      * intros (new & -> & Hnew). inversion Hnew as [| ? i' ? new' Hi Hrest]; subst.
        apply prepareV1Patch_planned in Hi. rewrite Hp in Hi. injection Hi as <-.
        exists new'. rewrite <- app_assoc. split; [reflexivity | exact Hrest].
    + split; [discriminate |].
      intros (new & -> & Hnew). inversion Hnew as [| ? i' ? new' Hi Hrest]; subst.
      apply prepareV1Patch_planned in Hi. rewrite Hp in Hi. discriminate.
    + split; [discriminate |].
      intros (new & -> & Hnew). inversion Hnew as [| ? i' ? new' Hi Hrest]; subst.
      apply prepareV1Patch_planned in Hi. rewrite Hp in Hi. discriminate.
Qed.

(** X8. The patch planner succeeds exactly when every operation names one
    of the three ops, has an effective path that parses and passes the
    write-conflict check; the plan then has one entry for each operation, in
    the order of the list, with the mapped op, the parsed effective path and
    the value of the operation.  The empty list gives the empty plan. *)
Theorem prepareV1PatchSlice_plan (c : Compiler) (root : string) (ops : list patchV1)
    (impls : list patchImpl) :
  (prepareV1PatchSlice c root ops = Return impls
   <-> Forall2 (fun p i =>
                  patchOpOf (Op_ p) = Some (op i)
                  /\ ParsePath (effectivePath root (Path_ p)) = Some (path i)
                  /\ value i = Value_ p
                  /\ hasVirtualAt c (PathRef DefaultRootDocument
                                       (targetPath (op i) (path i))) = false)
               ops impls)
  /\ (prepareV1PatchSlice c root ops = Return impls -> length impls = length ops)
  /\ prepareV1PatchSlice c root [] = Return [].
Proof.
  assert (Hiff : prepareV1PatchSlice c root ops = Return impls
                 <-> Forall2 (planned c root) ops impls).
  { unfold prepareV1PatchSlice. rewrite prepareV1PatchSlice_loop_planned. split.
    - intros (new & -> & Hnew). exact Hnew.
    - intros Hnew. exists impls. auto. }
  split; [exact Hiff | split; [| reflexivity]].
  intros H. apply Hiff in H. symmetry. exact (Forall2_length _ _ _ H).
Qed.

(** X9. Slashes around the path variable of the URL and around the path of
    an operation do not matter to the planner: a leading or a trailing slash
    more gives the same plan; so an operation whose path is a single slash
    is planned as one whose path is empty. *)
Theorem prepareV1PatchSlice_slashes (c : Compiler) (root : string) :
  (forall ops,
      prepareV1PatchSlice c ("/" +:+ root) ops = prepareV1PatchSlice c root ops
      /\ prepareV1PatchSlice c (root +:+ "/") ops = prepareV1PatchSlice c root ops)
  /\ (forall o path v impl,
         (prepareV1Patch c ("/" +:+ Trim root) {| Op_ := o; Path_ := "/" +:+ path; Value_ := v |}
          = Return impl
          <-> prepareV1Patch c ("/" +:+ Trim root) {| Op_ := o; Path_ := path; Value_ := v |}
              = Return impl)
         /\ (prepareV1Patch c ("/" +:+ Trim root) {| Op_ := o; Path_ := path +:+ "/"; Value_ := v |}
             = Return impl
             <-> prepareV1Patch c ("/" +:+ Trim root) {| Op_ := o; Path_ := path; Value_ := v |}
                 = Return impl)).
Proof.
  split.
  - intros ops. unfold prepareV1PatchSlice. rewrite Trim_slash_l, Trim_slash_r. auto.
  - intros o path v impl. rewrite !prepareV1Patch_planned. unfold planned, effectivePath.
    simpl. rewrite Trim_slash_l, Trim_slash_r. split; reflexivity.
Qed.

(** X10. An add whose path ends in [-] is checked against the path without
    that last segment, and the conflict names that shorter path; one [-]
    only is dropped; a remove or a replace is checked against its path as it
    is. *)
Theorem writeConflict_dash (c : Compiler) (p : Path) :
  writeConflict c AddOp (p ++ ["-"])
  = (if hasVirtualAt c (PathRef DefaultRootDocument p)
     then Fail (WriteConflictError p) else Return tt)
  /\ (last p <> Some "-" -> writeConflict c AddOp (p ++ ["-"]) = writeConflict c AddOp p)
  /\ (forall o, o <> AddOp ->
        writeConflict c o (p ++ ["-"])
        = if hasVirtualAt c (PathRef DefaultRootDocument (p ++ ["-"]))
          then Fail (WriteConflictError (p ++ ["-"])) else Return tt).
Proof.
  split; [| split].
  - rewrite writeConflict_hasVirtualAt, last_removelast_dash. reflexivity.
  - intros Hlast. rewrite !writeConflict_hasVirtualAt, last_removelast_dash.
    unfold targetPath. rewrite bool_decide_eq_false_2 by exact Hlast. reflexivity.
  - intros o Ho. rewrite writeConflict_hasVirtualAt.
    destruct o; [congruence | reflexivity | reflexivity].
Qed.

Lemma writePatches_app (pre post : list patchImpl) :
  forall st,
    writePatches st (pre ++ post)
    = match writePatches st pre with
      | (st1, Return _) => writePatches st1 post
      | other => other
      end.
Proof.
  induction pre as [| p pre IH]; intros st; simpl; [reflexivity |].
  destruct (Write st (op p) (path p) (value p)) as [e | st']; [reflexivity | apply IH].
Qed.

Lemma writePatches_no_panic (patches : list patchImpl) :
  forall st, (writePatches st patches).2 <> Panic.
Proof.
  induction patches as [| p patches IH]; intros st; simpl; [discriminate |].
  destruct (Write st (op p) (path p) (value p)); [discriminate | apply IH].
Qed.

(** X11. [PATCH /v1/data] makes the planned writes in order and stops at the
    first that fails: the answer is then that of the automatic responder for
    the error, the writes made before it stay in the state the handler
    leaves and the later ones are not made.  When all writes succeed the
    answer is 204 without a body. *)
Theorem v1DataPatch_writes (s : Server) (pathVar : string) (ops : list patchV1)
    (patches : list patchImpl) (u : unit) :
  NewTransaction (store s) = inr u ->
  prepareV1PatchSlice (compiler s) pathVar ops = Return patches ->
  (forall pre p post st1 e,
      patches = pre ++ p :: post ->
      writePatches (store s) pre = (st1, Return tt) ->
      Write st1 (op p) (path p) (value p) = inl e ->
      v1DataPatch s pathVar (inr ops) = (setStore s st1, handleErrorAuto e))
  /\ (forall st',
         writePatches (store s) patches = (st', Return tt) ->
         v1DataPatch s pathVar (inr ops)
         = (setStore s st', Some (Response 204 (rawBody None)))).
Proof.
  intros Htxn Hplan. unfold v1DataPatch. rewrite Htxn, Hplan. split.
  - intros pre p post st1 e -> Hpre Hw.
    rewrite writePatches_app, Hpre. simpl. rewrite Hw. reflexivity.
  - intros st' ->. reflexivity.
Qed.

(** X12. An operation of a patch that targets a virtual document, after
    operations that were planned, ends [PATCH /v1/data] with 404, answered
    through the error responder for the write conflict on the target
    (without the trailing [-] of an add); nothing is written, the operations
    before it included. *)
Theorem v1DataPatch_virtual (s : Server) (pathVar : string)
    (before after : list patchV1) (p : patchV1) (impls : list patchImpl)
    (o : PatchOp) (sp : Path) (u : unit) :
  NewTransaction (store s) = inr u ->
  prepareV1PatchSlice (compiler s) pathVar before = Return impls ->
  patchOpOf (Op_ p) = Some o ->
  ParsePath (effectivePath pathVar (Path_ p)) = Some sp ->
  hasVirtualAt (compiler s) (PathRef DefaultRootDocument (targetPath o sp)) = true ->
  v1DataPatch s pathVar (inr (before ++ p :: after))
  = (s, Some (handleError 404 (WriteConflictError (targetPath o sp))))
  /\ status (handleError (J := dataV1) 404 (WriteConflictError (targetPath o sp))) = 404.
Proof.
  intros Htxn Hbefore Hop Hpath Hvirtual. unfold v1DataPatch. rewrite Htxn.
  rewrite (v1DataPatch_conflict s pathVar before after p impls o sp
             Hbefore Hop Hpath Hvirtual).
  split; reflexivity.
Qed.

(** X13. [PUT /v1/data/{path}] on a path that the store already has: with
    [If-None-Match: *] the answer is 304 and nothing is written; otherwise
    the value is written at the path with the add operation, with no
    write-conflict check and no ancestor created, and the answer is 204, or
    that of the automatic responder when the write fails. *)
Theorem v1DataPut_existing (s : Server) (pathVar ifNoneMatch : string) (val node : JSON)
    (p : Path) (u : unit) :
  NewTransaction (store s) = inr u ->
  ParsePath ("/" +:+ Trim pathVar) = Some p ->
  Read (store s) p = inr node ->
  v1DataPut s pathVar ifNoneMatch (inr val)
  = if String.eqb ifNoneMatch "*" then (s, Some (Response 304 (rawBody None)))
    else match Write (store s) AddOp p val with
         | inr st' => (setStore s st', Some (Response 204 (rawBody None)))
         | inl e => (s, handleErrorAuto e)
         end.
Proof.
  intros Htxn Hpath Hread. unfold v1DataPut. rewrite Htxn, Hpath, Hread.
  destruct (String.eqb ifNoneMatch "*"); [reflexivity |].
  destruct (Write (store s) AddOp p val); [rewrite setStore_store |]; reflexivity.
Qed.

(** X25. [PUT /v1/data/{path}] with a path that does not parse, once the
    transaction is open, answers 400 with the message [bad path format]
    followed by the path variable as it was given, and writes nothing: the
    path is an operand of the format, so a [%] in it is not read as a
    verb. *)
Theorem v1DataPut_bad_path (s : Server) (pathVar ifNoneMatch : string) (val : JSON)
    (u : unit) :
  NewTransaction (store s) = inr u ->
  ParsePath ("/" +:+ Trim pathVar) = None ->
  v1DataPut s pathVar ifNoneMatch (inr val)
  = (s, Some (Response 400 (apiErrorV1 400 ("bad path format " +:+ pathVar)))).
Proof.
  intros Htxn Hpath. unfold v1DataPut. rewrite Htxn, Hpath.
  unfold handleErrorf.
  change "bad path format %v" with ("bad path format " +:+ "%v").
  rewrite Sprintf_v; reflexivity.
Qed.

Lemma makeDir_no_panic (c : Compiler) (st : Store) (node : JSON) (p : Path) :
  Read st [] = inr node -> (makeDir c st p).2 <> Panic.
Proof.
  intros Hroot. induction p as [| k p IH] using rev_ind.
  - unfold makeDir. rewrite (makeDir_rec_found _ _ _ _ _ Hroot).
    destruct node; discriminate.
  - unfold makeDir. rewrite length_app. simpl length.
    replace (length p + 1)%nat with (S (length p)) by lia.
    simpl makeDir_rec. destruct (Read st (p ++ [k])) as [err | found].
    + destruct (IsNotFound err); simpl negb; cbv iota; [| discriminate].
      rewrite removelast_last.
      change (makeDir_rec (length p) c st p) with (makeDir c st p).
      destruct (makeDir c st p) as [st1 [u | e |]]; simpl in IH;
        [| discriminate | congruence].
      rewrite writeConflict_hasVirtualAt.
      destruct (hasVirtualAt c _); [discriminate |].
      destruct (Write st1 AddOp (p ++ [k]) (JObject [])); discriminate.
    + destruct found; discriminate.
Qed.

(** The errors of [makeDir] are write conflicts or errors of the store. *)
Lemma makeDir_Fail (c : Compiler) (st : Store) (p : Path) (e : error) :
  forall st1,
    makeDir c st p = (st1, Fail e) ->
    (exists code, recognisedStatus (Cause e) = Some code)
    \/ (exists st' p', Read st' p' = inl e)
    \/ (exists st' o p' v, Write st' o p' v = inl e).
Proof.
  unfold makeDir. generalize (length p) as fuel. intros fuel. revert p.
  induction fuel as [| fuel IH]; intros p st1; simpl.
  - destruct (Read st p) as [err | found] eqn:Hread.
    + destruct (IsNotFound err); simpl negb; cbv iota; [discriminate |].
      intros [= <- <-]. right; left. eauto.
    + destruct found; intros [= <- <-]; left; eexists; reflexivity.
  - destruct (Read st p) as [err | found] eqn:Hread.
    + destruct (IsNotFound err); simpl negb; cbv iota;
        [| intros [= <- <-]; right; left; eauto].
      destruct (makeDir_rec fuel c st (removelast p)) as [st2 [u | e2 |]] eqn:Hrec.
      * rewrite writeConflict_hasVirtualAt.
        destruct (hasVirtualAt c _).
        { intros [= <- <-]. left. eexists. reflexivity. }
        destruct (Write st2 AddOp p (JObject [])) as [e3 | st3] eqn:Hw; [| discriminate].
        intros [= <- <-]. right; right. eauto.
      * intros [= <- <-]. exact (IH _ _ Hrec).
      * discriminate.
    + destruct found; intros [= <- <-]; left; eexists; reflexivity.
Qed.

Lemma writePatches_Fail (patches : list patchImpl) (e : error) :
  forall st st1,
    writePatches st patches = (st1, Fail e) ->
    exists st' o p v, Write st' o p v = inl e.
Proof.
  induction patches as [| p patches IH]; intros st st1; simpl; [discriminate |].
  destruct (Write st (op p) (path p) (value p)) as [e' | st'] eqn:Hw.
  - intros [= <- <-]. eauto.
  - apply IH.
Qed.

(** X14. The data write handlers and panics.  [PATCH /v1/data] writes no
    answer only when the automatic responder panics, on an error of the
    transaction or of a write; and so does [PUT /v1/data], on an error of
    the store, when the root of the store can be read: the slice of the
    empty path in [makeDir] is then never taken.  The responder panics
    exactly on the errors whose root cause is an [ast.Errors]. *)
Theorem data_writes_answer (s : Server) (pathVar : string) :
  (forall decoded,
      (v1DataPatch s pathVar decoded).2 = None ->
      exists e,
        handleErrorAuto (J := dataV1) e = None
        /\ (NewTransaction (store s) = inl e
            \/ exists st o p v, Write st o p v = inl e))
  /\ (forall node ifNoneMatch decoded,
         Read (store s) [] = inr node ->
         (v1DataPut s pathVar ifNoneMatch decoded).2 = None ->
         exists e,
           handleErrorAuto (J := dataV1) e = None
           /\ (NewTransaction (store s) = inl e
               \/ (exists st p, Read st p = inl e)
               \/ exists st o p v, Write st o p v = inl e))
  /\ (forall e,
         handleErrorAuto (J := dataV1) e = None <-> exists errs, Cause e = astErrors errs).
Proof.
  split; [| split].
  - intros [err | ops]; unfold v1DataPatch; [discriminate |].
    destruct (NewTransaction (store s)) as [err | u]; [simpl; eauto |].
    destruct (prepareV1PatchSlice (compiler s) pathVar ops) as [patches | e |] eqn:Hplan.
    + pose proof (writePatches_no_panic patches (store s)) as Hw.
      destruct (writePatches (store s) patches) as [st [v | e |]] eqn:Hwrites;
        [discriminate | | contradiction].
      simpl. intros Hpanic. exists e. split; [exact Hpanic |]. right.
      exact (writePatches_Fail _ _ _ _ Hwrites).
    + simpl. intros Hpanic. exfalso.
      destruct (prepareV1PatchSlice_loop_Fail _ _ _ _ _ Hplan) as [code Hcode].
      rewrite (handleErrorAuto_recognised e code Hcode) in Hpanic. discriminate.
    + exfalso. exact (prepareV1PatchSlice_loop_no_panic _ _ _ _ Hplan).
  - intros node ifNoneMatch decoded Hroot Hpanic.
    assert (Hgen :
      (exists e, NewTransaction (store s) = inl e
                 /\ handleErrorAuto (J := dataV1) e = None)
      \/ exists e,
           handleErrorAuto (J := dataV1) e = None
           /\ ((exists st p, Read st p = inl e)
               \/ exists st o p v, Write st o p v = inl e)).
    { revert Hpanic. unfold v1DataPut. destruct decoded as [err | val]; [discriminate |].
      destruct (NewTransaction (store s)) as [err | u]; [simpl; eauto |].
      destruct (ParsePath ("/" +:+ Trim pathVar)) as [p |]; [| discriminate].
      intros Hpanic. right. revert Hpanic.
      assert (Hwrite : forall st,
        (match Write st AddOp p val with
         | inl err => (setStore s st, handleErrorAuto err)
         | inr st' => (setStore s st', Some (handleResponse 204 None))
         end : handled dataV1).2 = None ->
        exists e,
          handleErrorAuto (J := dataV1) e = None
          /\ ((exists st0 p0, Read st0 p0 = inl e)
              \/ exists st0 o p0 v, Write st0 o p0 v = inl e)).
      { intros st. destruct (Write st AddOp p val) as [e |] eqn:Hw; [| discriminate].
        simpl. intros Hpanic. exists e. split; [exact Hpanic |]. right. eauto. }
      destruct (Read (store s) p) as [err | found] eqn:Hread.
      + destruct (IsNotFound err) eqn:Hnf; simpl negb; cbv iota.
        * destruct p as [| seg p]; [congruence |].
          pose proof (makeDir_no_panic (compiler s) (store s) node
                        (removelast (seg :: p)) Hroot) as Hmk.
          destruct (makeDir (compiler s) (store s) (removelast (seg :: p)))
            as [st [v | e |]] eqn:Hdir; [exact (Hwrite st) | | contradiction].
          simpl. intros Hpanic. exists e. split; [exact Hpanic |].
          destruct (makeDir_Fail _ _ _ _ _ Hdir) as [[code Hcode] | [Hr | Hw]];
            [| auto | auto].
          rewrite (handleErrorAuto_recognised e code Hcode) in Hpanic. discriminate.
        * simpl. intros Hpanic. exists err. split; [exact Hpanic |]. left. eauto.
      + destruct (String.eqb ifNoneMatch "*"); [discriminate | exact (Hwrite (store s))]. }
    destruct Hgen as [(e & Htxn & He) | (e & He & Hstore)]; exists e; tauto.
  - intros e. rewrite handleErrorAuto_handleError, <- unanswerable_astErrors.
    destruct (unanswerable e); split; congruence.
Qed.
End Plans.

Lemma v1DataPatch_writes_witness :
  v1DataPatch (dataServer (JObject [("x", JObject [])])) "x"
    (inr [ {| Op_ := "add"; Path_ := "/y"; Value_ := JNumber "1" |};
           {| Op_ := "replace"; Path_ := "/z"; Value_ := JNumber "2" |} ])
  = (setStore (dataServer (JObject [("x", JObject [])]))
       (store (dataServer (JObject [("x", JObject [("y", JNumber "1")])]))),
     handleErrorAuto (notFound ["x"; "z"])).
Proof.
  exact (proj1 (v1DataPatch_writes (dataServer (JObject [("x", JObject [])])) "x"
                  [ {| Op_ := "add"; Path_ := "/y"; Value_ := JNumber "1" |};
                    {| Op_ := "replace"; Path_ := "/z"; Value_ := JNumber "2" |} ]
                  [ {| path := ["x"; "y"]; op := AddOp; value := JNumber "1" |};
                    {| path := ["x"; "z"]; op := ReplaceOp; value := JNumber "2" |} ]
                  tt eq_refl eq_refl)
           [ {| path := ["x"; "y"]; op := AddOp; value := JNumber "1" |} ]
           {| path := ["x"; "z"]; op := ReplaceOp; value := JNumber "2" |} []
           (store (dataServer (JObject [("x", JObject [("y", JNumber "1")])])))
           (notFound ["x"; "z"]) eq_refl eq_refl eq_refl).
Defined.

Lemma v1DataPatch_virtual_witness :
  v1DataPatch virtualServer "a"
    (inr ([] ++ {| Op_ := "add"; Path_ := "/b/-"; Value_ := JNumber "1" |} :: []))
  = (virtualServer,
     Some (handleError 404 (WriteConflictError (targetPath AddOp ["a"; "b"; "-"])))).
Proof.
  exact (proj1 (v1DataPatch_virtual virtualServer "a" []
                  [] {| Op_ := "add"; Path_ := "/b/-"; Value_ := JNumber "1" |} []
                  AddOp ["a"; "b"; "-"] tt eq_refl eq_refl eq_refl eq_refl eq_refl)).
Defined.

Lemma v1DataPut_existing_witness :
  v1DataPut (dataServer (JObject [("a", JNumber "1")])) "a" "*" (inr (JNumber "2"))
  = (dataServer (JObject [("a", JNumber "1")]), Some (Response 304 (rawBody None))).
Proof.
  exact (v1DataPut_existing (dataServer (JObject [("a", JNumber "1")])) "a" "*"
           (JNumber "2") (JNumber "1") ["a"] tt eq_refl eq_refl eq_refl).
Defined.

Lemma v1DataPut_bad_path_witness :
  v1DataPut emptyServer "a//%d" "" (inr JNull)
  = (emptyServer, Some (Response 400 (apiErrorV1 400 ("bad path format " +:+ "a//%d")))).
Proof.
  exact (v1DataPut_bad_path emptyServer "a//%d" "" JNull tt eq_refl eq_refl).
Defined.

Lemma data_writes_answer_witness :
  exists e,
    handleErrorAuto (J := dataV1 (Td := closedTopdown)) e = None
    /\ (NewTransaction (Storage := closedStorage) (store closedServer) = inl e
        \/ exists st o p v, Write (Storage := closedStorage) st o p v = inl e).
Proof.
  exact (proj1 (data_writes_answer (St := closedStorage) (Td := closedTopdown)
                  closedServer "x") (inr []) eq_refl).
Defined.

(** On the in-memory store, whose errors are all of a recognised kind, both
    handlers answer. *)
Example data_writes_answered :
  option_map status (v1DataPut emptyServer "a/b" "" (inr JNull)).2 = Some 204
  /\ option_map status
       (v1DataPatch emptyServer "a"
          (inr [ {| Op_ := "remove"; Path_ := "/b"; Value_ := JNull |} ])).2 = Some 404.
Proof. split; reflexivity. Qed.

(** ** URL paths and query parameters *)

Lemma Split_cons (sep : ascii) (x r : string) :
  contains sep x = false -> Split sep (x +:+ String sep r) = x :: Split sep r.
Proof.
  induction x as [| c x IH]; intros Hx.
  - change ("" +:+ String sep r) with (String sep r). simpl.
    rewrite Ascii.eqb_refl. reflexivity.
  - change (String c x +:+ String sep r) with (String c (x +:+ String sep r)).
    simpl in *. apply orb_false_iff in Hx as [Hc Hx]. rewrite Hc, (IH Hx). reflexivity.
Qed.

Lemma Split_whole (sep : ascii) (x : string) :
  contains sep x = false -> Split sep x = [x].
Proof.
  induction x as [| c x IH]; intros Hx; [reflexivity |].
  simpl in *. apply orb_false_iff in Hx as [Hc Hx]. rewrite Hc, (IH Hx). reflexivity.
Qed.

Lemma Split_Join (segs : list string) :
  segs <> [] ->
  Forall (fun x => contains slash x = false) segs ->
  Split slash (Join "/" segs) = segs.
Proof.
  intros Hne Hsegs. induction Hsegs as [| x segs Hx Hsegs IH]; [congruence |].
  destruct segs as [| y segs].
  - simpl. apply Split_whole. exact Hx.
  - change (Join "/" (x :: y :: segs)) with (x +:+ String slash (Join "/" (y :: segs))).
    rewrite (Split_cons _ _ _ Hx), IH by discriminate. reflexivity.
Qed.

Lemma Split_nonempty (sep : ascii) (s : string) : Split sep s <> [].
Proof.
  destruct s as [| c s]; simpl; [discriminate |].
  destruct (Ascii.eqb c sep); [discriminate |]. destruct (Split sep s); discriminate.
Qed.

Lemma Split_slash_r (sep : ascii) (s : string) :
  Split sep (s +:+ String sep "") = Split sep s ++ [""].
Proof.
  induction s as [| c s IH].
  - simpl. rewrite Ascii.eqb_refl. reflexivity.
  - change (String c s +:+ String sep "") with (String c (s +:+ String sep "")).
    simpl. rewrite IH. destruct (Ascii.eqb c sep); [reflexivity |].
    pose proof (Split_nonempty sep s) as Hne.
    destruct (Split sep s); [congruence | reflexivity].
Qed.

Lemma Split_no_separator (sep : ascii) (s : string) :
  Forall (fun x => contains sep x = false) (Split sep s).
Proof.
  induction s as [| c s IH]; simpl; [repeat constructor |].
  destruct (Ascii.eqb c sep) eqn:Hc; [constructor; [reflexivity | exact IH] |].
  destruct (Split sep s) as [| p ps]; [repeat constructor; simpl; rewrite Hc; reflexivity |].
  inversion IH; subst. constructor; [| assumption]. simpl. rewrite Hc. assumption.
Qed.

Lemma stringPathToRef_Split (s : string) :
  stringPathToRef s = flat_map segmentTerm (Split slash s).
Proof. destruct s; reflexivity. Qed.

Lemma parseDigits_nonneg (s : string) :
  forall acc n, 0 <= acc -> parseDigits acc s = Some n -> 0 <= n.
Proof.
  induction s as [| c s IH]; intros acc n Hacc H; simpl in H.
  - injection H as <-. exact Hacc.
  - destruct (digitVal c) as [d |] eqn:Hd; [| discriminate].
    apply (IH (10 * acc + d) n); [| exact H].
    unfold digitVal in Hd.
    destruct ((48 <=? Z.of_N (N_of_ascii c)) && (Z.of_N (N_of_ascii c) <=? 57)) eqn:Hr;
      [| discriminate].
    injection Hd as <-. apply andb_true_iff in Hr as [Hlo _]. apply Z.leb_le in Hlo. lia.
Qed.

Lemma ParseInt_range (s : string) (n : Z) :
  ParseInt s = (n, None) -> minInt64 <= n <= maxInt64.
Proof.
  unfold ParseInt, minInt64, maxInt64.
  assert (Hbody : forall neg body,
    match body with
    | "" => (0, Some ErrSyntax)
    | String _ _ =>
        match parseDigits 0 body with
        | Some un =>
            if negb neg && (2 ^ 63 <=? un) then (2 ^ 63 - 1, Some ErrRange)
            else if neg && (2 ^ 63 <? un) then (- 2 ^ 63, Some ErrRange)
            else (if neg then - un else un, None)
        | None => (0, Some ErrSyntax)
        end
    end = (n, None) -> - 2 ^ 63 <= n <= 2 ^ 63 - 1).
  { intros neg body H. destruct body as [| c body]; [discriminate |].
    destruct (parseDigits 0 (String c body)) as [un |] eqn:Hun; [| discriminate].
    pose proof (parseDigits_nonneg _ _ _ (Z.le_refl 0) Hun) as Hpos.
    destruct neg; simpl in H.
    - destruct (Z.ltb_spec (2 ^ 63) un); [discriminate |]. injection H as <-. lia.
    - destruct (Z.leb_spec (2 ^ 63) un); [discriminate |]. injection H as <-. lia. }
  match goal with
  | |- context [let '(neg, body) := ?m in _] => destruct m as [neg body]
  end.
  apply Hbody.
Qed.

(** X15. The reference built from a URL path: the path is cut at its
    slashes, empty segments are dropped (so a slash more in front or at the
    end changes nothing), and each remaining segment becomes an integer when
    it reads as a 64-bit decimal integer and a string key otherwise.  The
    path made by joining segments with slashes gives the terms of the
    segments in order; no key of the reference is empty or contains a
    slash. *)
Theorem stringPathToRef_segments :
  (forall segs,
      Forall (fun x => contains slash x = false) segs ->
      stringPathToRef (Join "/" segs) = flat_map segmentTerm segs)
  /\ (forall s, stringPathToRef ("/" +:+ s) = stringPathToRef s
                /\ stringPathToRef (s +:+ "/") = stringPathToRef s)
  /\ (forall s,
         Forall (fun v =>
                   (exists x, v = Str x /\ x <> "" /\ contains slash x = false
                              /\ (Atoi x).2 <> None)
                   \/ (exists n, v = Number n /\ minInt64 <= n <= maxInt64))
                (stringPathToRef s))
  /\ (forall s, stringPathToDataRef s = Var "data" :: stringPathToRef s).
Proof.
  split; [| split; [| split]].
  - intros segs Hsegs. rewrite stringPathToRef_Split.
    destruct segs as [| x segs]; [reflexivity |].
    rewrite Split_Join by (discriminate || assumption). reflexivity.
  - intros s. rewrite !stringPathToRef_Split. split.
    + reflexivity.
    + change "/" with (String slash ""). rewrite Split_slash_r, flat_map_app.
      simpl. apply app_nil_r.
  - intros s. rewrite stringPathToRef_Split.
    pose proof (Split_no_separator slash s) as Hsplit.
    induction Hsplit as [| x xs Hx _ IH]; simpl; [constructor |].
    apply Forall_app. split; [| exact IH].
    unfold segmentTerm. destruct (String.eqb x "") eqn:Hempty; [constructor |].
    apply String.eqb_neq in Hempty.
    destruct (Atoi x) as [i [e |]] eqn:Hatoi; apply Forall_singleton.
    + left. exists x. rewrite Hatoi. repeat split; try assumption. discriminate.
    + right. exists i. split; [reflexivity |]. apply (ParseInt_range x). exact Hatoi.
  - reflexivity.
Qed.

Lemma getExplain_skip (pre rest : list string) :
  Forall (fun y => y <> "full" /\ y <> "truth") pre ->
  getExplain (pre ++ rest) = getExplain rest.
Proof.
  induction 1 as [| y pre [Hf Ht] _ IH]; [reflexivity |]. simpl.
  apply String.eqb_neq in Hf, Ht. rewrite Hf, Ht. exact IH.
Qed.

(** X16. The [explain] parameter: the first value that is exactly [full] or
    [truth] decides, whatever follows it; every other value is ignored, and
    the mode is off exactly when no value is [full] or [truth].  The
    [pretty] parameter is set exactly when some value is [true] in any
    letter case. *)
Theorem getExplain_first :
  (forall pre post,
      Forall (fun y => y <> "full" /\ y <> "truth") pre ->
      getExplain (pre ++ "full" :: post) = explainFullV1
      /\ getExplain (pre ++ "truth" :: post) = explainTruthV1)
  /\ (forall p, getExplain p = explainOffV1
                <-> Forall (fun y => y <> "full" /\ y <> "truth") p)
  /\ (forall p, getPretty p = true <-> exists x, x ∈ p /\ ToLower x = "true").
Proof.
  split; [| split].
  - intros pre post Hpre. rewrite !getExplain_skip by exact Hpre. split; reflexivity.
  - intros p. induction p as [| y p IH]; simpl; [split; [constructor | reflexivity] |].
    destruct (String.eqb y "full") eqn:Hf.
    { apply String.eqb_eq in Hf. split; [discriminate |].
      intros H. inversion H as [| ? ? [Hn _] _]; subst. congruence. }
    destruct (String.eqb y "truth") eqn:Ht.
    { apply String.eqb_eq in Ht. split; [discriminate |].
      intros H. inversion H as [| ? ? [_ Hn] _]; subst. congruence. }
    apply String.eqb_neq in Hf, Ht. rewrite IH. split.
    + intros H. constructor; auto.
    + intros H. inversion H; assumption.
  - intros p. unfold getPretty. rewrite existsb_exists. split.
    + intros (x & Hin & Hx). exists x. split; [apply list_elem_of_In; exact Hin |].
      apply String.eqb_eq. exact Hx.
    + intros (x & Hin & Hx). exists x. split; [apply list_elem_of_In; exact Hin |].
      apply String.eqb_eq. exact Hx.
Qed.

(** ** Ground and non-ground requests, and [GET /v1/data] *)

Section DataReads.
Context {F : Fmt} {A : AST} {St : Storage A} {Td : Topdown A St}.

Lemma parseRequest_loop_Return (s : list string) :
  forall acc b pairs ng,
    parseRequest_loop s acc b = Return (pairs, ng) ->
    exists new,
      pairs = acc ++ new
      /\ Forall2 (fun item kv => parseRequest_item item = Return kv) s new
      /\ ng = b || existsb (fun kv => mentionsFreeVar kv.2) new.
Proof.
  induction s as [| item s IH]; intros acc b pairs ng H; simpl in H.
  - injection H as <- <-. exists []. rewrite app_nil_r, orb_false_r.
    split; [reflexivity | split; [constructor | reflexivity]].
  - destruct (parseRequest_item item) as [kv | e |] eqn:Hitem; simpl in H; try discriminate.
    destruct (IH _ _ _ _ H) as (new & -> & Hnew & ->).
    exists (kv :: new). rewrite <- app_assoc. split; [reflexivity |].
    split; [constructor; assumption |]. simpl. destruct b; simpl; reflexivity.
Qed.

(** X17. When the parameter parser returns, the request document is built
    from the pairs of the items in their order, and the request is reported
    non-ground exactly when the value of some item mentions a variable other
    than [data]; the paths of the items play no part in this. *)
Theorem parseRequest_nonGround (s : list string) (request : option Value) (ng : bool) :
  parseRequest s = Return (request, ng) ->
  exists pairs,
    Forall2 (fun item kv => parseRequest_item item = Return kv) s pairs
    /\ MakeRequest pairs = Return request
    /\ (ng = true <-> exists kv x, kv ∈ pairs /\ x ∈ Vars kv.2 /\ x <> "data").
Proof.
  unfold parseRequest. intros H.
  destruct (parseRequest_loop s [] false) as [[pairs b] | e |] eqn:Hloop;
    simpl in H; try discriminate.
  destruct (MakeRequest pairs) as [req | e |] eqn:Hmk; simpl in H; try discriminate.
  injection H as <- <-.
  destruct (parseRequest_loop_Return _ _ _ _ _ Hloop) as (new & -> & Hnew & ->).
  exists new. simpl. split; [exact Hnew | split; [exact Hmk |]].
  unfold mentionsFreeVar. rewrite existsb_exists. split.
  - intros (kv & Hin & Hkv). apply existsb_exists in Hkv as (x & Hx & Hneq).
    exists kv, x. rewrite !list_elem_of_In. repeat split; try assumption.
    apply negb_true_iff, String.eqb_neq in Hneq. exact Hneq.
  - intros (kv & x & Hin & Hx & Hneq). exists kv. rewrite <- list_elem_of_In.
    split; [exact Hin |]. apply existsb_exists. exists x.
    rewrite <- list_elem_of_In. split; [exact Hx |].
    apply negb_true_iff, String.eqb_neq. exact Hneq.
Qed.


(** X19. [GET /v1/data]: a non-ground request together with an explanation
    is refused with 400 before the store is opened.  Otherwise, with
    explanations off, an undefined document is answered 404 without a body,
    also for a non-ground request; a defined one is answered 200 with the
    value of the first result alone when the request is ground, and with all
    results when it is not.  With [explain=full] an undefined document is
    answered 404 with the trace. *)
Theorem v1DataGet_answers (s : Server) (pathVar : string)
    (prettyParam explainParam requestParam : list string)
    (request : option Value) (ng : bool) :
  parseRequest requestParam = Return (request, ng) ->
  (ng = true -> getExplain explainParam <> explainOffV1 ->
   v1DataGet s pathVar prettyParam explainParam requestParam
   = (s, Some (Response 400
                 (apiErrorV1 400
                    "explanations with non-ground request values not supported"))))
  /\ (forall u qrs buf,
         NewTransaction (store s) = inr u ->
         Query (compiler s) (store s) request (stringPathToDataRef pathVar) = inr (qrs, buf) ->
         (getExplain explainParam = explainOffV1 ->
          v1DataGet s pathVar prettyParam explainParam requestParam
          = (s, Some match qrs with
                     | [] => Response 404 (rawBody None)
                     | qr :: _ =>
                         Response 200
                           (jsonBody (if ng then queryResultSetV1 qrs
                                      else resultV1 (Result qr))
                                     (getPretty prettyParam))
                     end))
         /\ (getExplain explainParam = explainFullV1 -> ng = false -> qrs = [] ->
             v1DataGet s pathVar prettyParam explainParam requestParam
             = (s, Some (Response 404
                           (jsonBody (traceV1 buf) (getPretty prettyParam)))))).
Proof.
  intros Hparse. unfold v1DataGet. rewrite Hparse. split.
  - intros -> Hmode. destruct (getExplain explainParam); [congruence | |];
      simpl; unfold handleError, handleErrorf; rewrite Sprintf_plain; reflexivity.
  - intros u qrs buf Htxn Hquery. split.
    + intros ->. rewrite andb_false_r, Htxn, Hquery.
      destruct qrs as [| qr qrs]; [reflexivity |]. destruct ng; reflexivity.
    + intros -> -> ->. simpl. rewrite Htxn, Hquery. reflexivity.
Qed.
End DataReads.

Lemma parseRequest_nonGround_witness :
  exists pairs,
    Forall2 (fun item kv => parseRequest_item (A := memAST) item = Return kv)
            ["user:x"; "n:1"] pairs
    /\ MakeRequest pairs = Return (Some (Object [("user", Var "x"); ("n", Number 1)]))
    /\ (true = true <-> exists kv x, kv ∈ pairs /\ x ∈ Vars kv.2 /\ x <> "data").
Proof.
  exact (parseRequest_nonGround (A := memAST) ["user:x"; "n:1"]
           (Some (Object [("user", Var "x"); ("n", Number 1)])) true eq_refl).
Defined.


Lemma v1DataGet_answers_witness :
  v1DataGet emptyServer "a" ["true"] ["truth"] ["user:x"]
  = (emptyServer,
     Some (Response 400
             (apiErrorV1 400 "explanations with non-ground request values not supported"))).
Proof.
  exact (proj1 (v1DataGet_answers emptyServer "a" ["true"] ["truth"] ["user:x"]
                  (Some (Object [("user", Var "x")])) true eq_refl)
           eq_refl ltac:(discriminate)).
Defined.

(** ** More on the RPC *)

Lemma customerId_others (post : list ibp.Attribute) :
  Forall (fun v => ibp.Id v <> "customer_id") post ->
  forall start,
    fold_left
      (fun cId v => if String.eqb (ibp.Id v) "customer_id" then ibp.Value v else cId)
      post start = start.
Proof.
  induction 1 as [| v post Hv _ IH]; intros start; [reflexivity |]. simpl.
  apply String.eqb_neq in Hv. rewrite Hv. apply IH.
Qed.

Lemma customerId_last (pre post : list ibp.Attribute) (a : ibp.Attribute) :
  ibp.Id a = "customer_id" ->
  Forall (fun v => ibp.Id v <> "customer_id") post ->
  customerId {| ibp.Attributes := pre ++ a :: post |} = ibp.Value a.
Proof.
  intros Ha Hpost. unfold customerId. simpl. rewrite fold_left_app. simpl.
  rewrite Ha. simpl. apply customerId_others. exact Hpost.
Qed.

Lemma customerId_none (attrs : list ibp.Attribute) :
  Forall (fun v => ibp.Id v <> "customer_id") attrs ->
  customerId {| ibp.Attributes := attrs |} = "".
Proof. intros H. unfold customerId. simpl. apply customerId_others. exact H. Qed.

Lemma stringPathToRef_opa (cId : string) :
  stringPathToRef ("opa/" +:+ cId) = Str "opa" :: stringPathToRef cId.
Proof.
  rewrite !stringPathToRef_Split.
  change ("opa/" +:+ cId) with ("opa" +:+ String slash cId).
  rewrite Split_cons by reflexivity. reflexivity.
Qed.

Section RPCMore.
Context {F : Fmt} {A : AST} {St : Storage A} {Td : Topdown A St}.

(** X20. The path the RPC evaluates is [data.opa] followed by the segments
    of the customer ID, read as a URL path: slashes in the ID cut it into
    further keys and a numeric ID becomes an integer.  The customer ID is
    the value of the last [customer_id] attribute; without such an attribute
    the path is [data.opa] itself. *)
Theorem rpcPath_customer :
  (forall req, rpcPath req = Var "data" :: Str "opa" :: stringPathToRef (customerId req))
  /\ (forall pre a post,
         ibp.Id a = "customer_id" ->
         Forall (fun v => ibp.Id v <> "customer_id") post ->
         rpcPath {| ibp.Attributes := pre ++ a :: post |}
         = Var "data" :: Str "opa" :: stringPathToRef (ibp.Value a))
  /\ (forall attrs,
         Forall (fun v => ibp.Id v <> "customer_id") attrs ->
         rpcPath {| ibp.Attributes := attrs |} = [Var "data"; Str "opa"]).
Proof.
  assert (Hpath : forall req,
    rpcPath req = Var "data" :: Str "opa" :: stringPathToRef (customerId req)).
  { intros req. unfold rpcPath, stringPathToDataRef. fold (customerId req).
    rewrite stringPathToRef_opa. reflexivity. }
  split; [exact Hpath | split].
  - intros pre a post Ha Hpost. rewrite Hpath, (customerId_last _ _ _ Ha Hpost). reflexivity.
  - intros attrs Hattrs. rewrite Hpath, (customerId_none _ Hattrs). reflexivity.
Qed.

(** X21. Whatever [Validate] returns, the response is DENY without
    obligation, DENY with the single obligation [redirect_to], or PERMIT
    without obligation; and whenever it returns an error, or the request is
    not ground, the response is DENY without obligation. *)
Theorem Validate_responses (s : Server) (req : ibp.Request)
    (r : ibp.Response) (oe : option error) :
  Validate s req = Some (r, oe) ->
  (r = {| ibp.Effect := ibp.Response_DENY; ibp.Obligation := [] |}
   \/ r = {| ibp.Effect := ibp.Response_PERMIT; ibp.Obligation := [] |}
   \/ exists d, r = {| ibp.Effect := ibp.Response_DENY;
                       ibp.Obligation := [ {| ibp.Id := "redirect_to"; ibp.Value := d |} ] |})
  /\ (oe <> None -> r = {| ibp.Effect := ibp.Response_DENY; ibp.Obligation := [] |})
  /\ (forall input, parseInput (rpcInputs req) = inr (input, true) ->
                    r = {| ibp.Effect := ibp.Response_DENY; ibp.Obligation := [] |}).
Proof.
  unfold Validate, grpcDataGet. fold (rpcInputs req).
  destruct (parseInput (rpcInputs req)) as [e | [input ng]].
  { intros [= <- <-]. repeat split; auto. }
  destruct (NewTransaction (store s)) as [e | u].
  { intros [= <- <-]. repeat split; auto. }
  destruct (Query _ _ _ _) as [e | [qrs buf]].
  { intros [= <- <-]. repeat split; auto. }
  destruct ng.
  { intros [= <- <-]. repeat split; auto. }
  destruct qrs as [| qr qrs].
  { intros [= <- <-]. repeat split; auto; congruence. }
  match goal with
  | |- match ?m with _ => _ end = _ -> _ => destruct m as [best | e |]
  end; try discriminate.
  intros [= <- <-]. split; [| split; [congruence | discriminate]].
  unfold effectOf.
  destruct (String.eqb (ActionType best) "action_block"); [auto |].
  destruct (String.eqb (ActionType best) "action_redirect"); eauto.
Qed.
End RPCMore.

Lemma Validate_responses_witness :
  ({| ibp.Effect := ibp.Response_DENY; ibp.Obligation := [] |}
   = {| ibp.Effect := ibp.Response_DENY; ibp.Obligation := [] |}
   \/ {| ibp.Effect := ibp.Response_DENY; ibp.Obligation := [] |}
      = {| ibp.Effect := ibp.Response_PERMIT; ibp.Obligation := [] |}
   \/ exists d, {| ibp.Effect := ibp.Response_DENY; ibp.Obligation := [] |}
                = {| ibp.Effect := ibp.Response_DENY;
                     ibp.Obligation := [ {| ibp.Id := "redirect_to"; ibp.Value := d |} ] |}).
Proof.
  exact (proj1 (Validate_responses (Td := memTopdown)
                  (tenantServer (JObject [("match",
                     JObject [("R1", matchEntry "action_block" "" "9")])])) tenantRequest
                  {| ibp.Effect := ibp.Response_DENY; ibp.Obligation := [] |} None
                  ltac:(vm_compute; reflexivity))).
Defined.

Lemma Validate_best_match_witness :
  Validate (tenantServer (JObject [("match",
              JObject [("R1", matchEntry "action_allow" "" "1");
                       ("R2", matchEntry "action_redirect" "http://h" "9");
                       ("R3", matchEntry "action_block" "" "9")])])) tenantRequest
  = Some (effectOf {| ActionData := "http://h"; ActionType := "action_redirect";
                      Priority := 9 |}, None).
Proof.
  exact (proj1 (Validate_best_match (Td := memTopdown)
                  (tenantServer (JObject [("match",
                     JObject [("R1", matchEntry "action_allow" "" "1");
                              ("R2", matchEntry "action_redirect" "http://h" "9");
                              ("R3", matchEntry "action_block" "" "9")])])) tenantRequest
                  (Some (Object [("customer_id", Str "c1"); ("q", Str "x")]))
                  {| Result := JObject [("match",
                       JObject [("R1", matchEntry "action_allow" "" "1");
                                ("R2", matchEntry "action_redirect" "http://h" "9");
                                ("R3", matchEntry "action_block" "" "9")])];
                     Bindings := [] |} [] []
                  [("match",
                    JObject [("R1", matchEntry "action_allow" "" "1");
                             ("R2", matchEntry "action_redirect" "http://h" "9");
                             ("R3", matchEntry "action_block" "" "9")])]
                  [("R1", matchEntry "action_allow" "" "1");
                   ("R2", matchEntry "action_redirect" "http://h" "9");
                   ("R3", matchEntry "action_block" "" "9")]
                  [ {| ActionData := ""; ActionType := "action_allow"; Priority := 1 |};
                    {| ActionData := "http://h"; ActionType := "action_redirect";
                       Priority := 9 |};
                    {| ActionData := ""; ActionType := "action_block"; Priority := 9 |} ]
                  ltac:(vm_compute; reflexivity) eq_refl ltac:(vm_compute; reflexivity) eq_refl eq_refl
                  ltac:(repeat constructor))
           [ {| ActionData := ""; ActionType := "action_allow"; Priority := 1 |} ]
           {| ActionData := "http://h"; ActionType := "action_redirect"; Priority := 9 |}
           [ {| ActionData := ""; ActionType := "action_block"; Priority := 9 |} ]
           eq_refl ltac:(vm_compute; reflexivity)
           ltac:(repeat constructor) ltac:(repeat constructor; discriminate)).
Defined.

(** ** Ad-hoc queries *)

Section QueryProps.
Context {F : Fmt} {A : AST} {St : Storage A} {Td : Topdown A St} {Qe : QueryEngine A St Td}.

Lemma bindLocals_keys (st : Store) (locals : list (Value * Value)) :
  forall result r,
    bindLocals st locals result = inr r ->
    forall k, is_Some (r !! k) ->
              is_Some (result !! k)
              \/ (IsWildcard k = false /\ exists v, (Var k, v) ∈ locals).
Proof.
  induction locals as [| [key v] locals IH]; intros result r H k Hk; simpl in H.
  - injection H as <-. auto.
  - assert (Hskip : bindLocals st locals result = inr r ->
                    is_Some (result !! k)
                    \/ (IsWildcard k = false /\ exists v0, (Var k, v0) ∈ (key, v) :: locals)).
    { intros Hrest. destruct (IH _ _ Hrest k Hk) as [? | (? & v0 & ?)]; [auto |].
      right. split; [assumption |]. exists v0. apply list_elem_of_further. assumption. }
    destruct key as [| | | | x | | | |]; try (apply Hskip; exact H).
    destruct (IsWildcard x) eqn:Hwild; [apply Hskip; exact H |].
    destruct (ValueToInterface st v) as [e | vv]; [discriminate |].
    destruct (IH _ _ H k Hk) as [Hin | (? & v0 & ?)].
    + apply lookup_insert_is_Some in Hin as [<- | [_ Hin]]; [| auto].
      right. split; [exact Hwild |]. exists v. apply list_elem_of_here.
    + right. split; [assumption |]. exists v0. apply list_elem_of_further. assumption.
Qed.

Lemma collectSolutions_results (st : Store) (solutions : list (list (Value * Value))) :
  forall acc rs,
    collectSolutions st solutions acc = inr rs ->
    exists new,
      rs = acc ++ new
      /\ Forall (fun r => r <> ∅ /\ forall k, is_Some (r !! k) -> IsWildcard k = false) new
      /\ (length new <= length solutions)%nat.
Proof.
  induction solutions as [| locals solutions IH]; intros acc rs H; simpl in H.
  - injection H as <-. exists []. rewrite app_nil_r.
    split; [reflexivity | split; [apply Forall_nil_2 | simpl; lia]].
  - destruct (bindLocals st locals ∅) as [e | result] eqn:Hbind; [discriminate |].
    destruct (IH _ _ H) as (new & -> & Hnew & Hlen).
    destruct (0 <? size result)%nat eqn:Hsize.
    + exists (result :: new). rewrite <- app_assoc. split; [reflexivity |].
      split; [| simpl; lia]. constructor; [| exact Hnew]. split.
      * apply map_size_non_empty_iff. apply Nat.ltb_lt in Hsize. lia.
      * intros k Hk. destruct (bindLocals_keys _ _ _ _ Hbind k Hk) as [Hempty | [Hw _]];
          [| exact Hw].
        rewrite lookup_empty in Hempty. destruct Hempty as [? Hempty]. discriminate.
    + exists new. split; [reflexivity |]. split; [exact Hnew | simpl; lia].
Qed.

(** X22. What [execQuery] returns: an error of the evaluation is never
    dropped; with explanations off the result is the result set, otherwise a
    trace; and in the result set no binding map is empty (a solution that
    binds only wildcards or no variable leaves no entry), no map has a
    wildcard as a key, and there are at most as many maps as solutions. *)
Theorem execQuery_results (s : Server) (c : Compiler) (query : Body)
    (explainMode : explainModeV1) (res : queryV1) :
  execQuery s c query explainMode = inr res ->
  (Eval (compiler s) (store s) query).1.2 = None
  /\ match explainMode, res with
     | explainOffV1, adhocQueryResultSetV1 rs =>
         Forall (fun r => r <> ∅ /\ forall k, is_Some (r !! k) -> IsWildcard k = false) rs
         /\ (length rs <= length (Eval (compiler s) (store s) query).1.1)%nat
     | explainOffV1, queryTraceV1 _ => False
     | _, adhocQueryResultSetV1 _ => False
     | explainFullV1, queryTraceV1 t => t = (Eval (compiler s) (store s) query).2
     | explainTruthV1, queryTraceV1 t =>
         Truth c (Eval (compiler s) (store s) query).2 = inr t
     end.
Proof.
  unfold execQuery. destruct (Eval (compiler s) (store s) query) as [[solutions evalErr] buf].
  simpl. destruct (collectSolutions (store s) solutions []) as [e | rs] eqn:Hrs;
    [discriminate |].
  destruct evalErr as [e |]; [discriminate |].
  destruct (collectSolutions_results _ _ _ _ Hrs) as (new & -> & Hnew & Hlen).
  destruct explainMode.
  - intros [= <-]. simpl. auto.
  - intros [= <-]. auto.
  - destruct (Truth c buf) as [e | answer]; [discriminate |]. intros [= <-]. auto.
Qed.

(** X23. [GET /v1/query]: without a [q] parameter the answer is 400; when
    [q] is repeated only its last value is used; once the transaction is
    open, a query that does not parse and one that does not compile are
    answered 400 through [handleCompileError], never 500; and the handler
    never changes the server. *)
Theorem v1QueryGet_q (s : Server) (prettyParam explainParam : list string) :
  v1QueryGet s prettyParam explainParam []
  = (s, Some (Response 400 (apiErrorV1 400 "missing query parameter 'q'")))
  /\ (forall qs q, v1QueryGet s prettyParam explainParam (qs ++ [q])
                   = v1QueryGet s prettyParam explainParam [q])
  /\ (forall qs q u err,
         NewTransaction (store s) = inr u ->
         ParseBody q = inl err
         \/ (exists query, ParseBody q = inr query
                           /\ QueryCompile (compiler s) query = inl err) ->
         v1QueryGet s prettyParam explainParam (qs ++ [q])
         = (s, Some (handleCompileError err))
         /\ status (handleCompileError (J := queryV1) err) = 400)
  /\ (forall qStrs, (v1QueryGet s prettyParam explainParam qStrs).1 = s).
Proof.
  split; [| split; [| split]].
  - unfold v1QueryGet. simpl. unfold handleErrorf. rewrite Sprintf_plain; reflexivity.
  - intros qs q. unfold v1QueryGet. rewrite last_snoc. reflexivity.
  - intros qs q u err Htxn Herr.
    split; [| destruct err; reflexivity].
    unfold v1QueryGet. rewrite last_snoc, Htxn.
    destruct Herr as [-> | (query & -> & ->)]; reflexivity.
  - intros qStrs. unfold v1QueryGet.
    destruct (last qStrs) as [qStr |]; [| reflexivity].
    destruct (NewTransaction (store s)); [reflexivity |].
    destruct (ParseBody qStr) as [e | query]; [reflexivity |].
    destruct (QueryCompile (compiler s) query) as [e | compiled]; [reflexivity |].
    destruct (execQuery s (compiler s) compiled (getExplain explainParam)); reflexivity.
Qed.
End QueryProps.

Lemma execQuery_results_witness :
  (Eval (QueryEngine := memQueryEngine) (compiler emptyServer) (store emptyServer)
        "x,$y;;$z").1.2 = None.
Proof.
  exact (proj1 (execQuery_results (Qe := memQueryEngine) emptyServer emptyCompiler
                  "x,$y;;$z" explainOffV1
                  (adhocQueryResultSetV1 [ {[ "x" := JNull ]} ]) eq_refl)).
Defined.

Example v1QueryGet_last_q :
  v1QueryGet (Qe := memQueryEngine) emptyServer [] [] [""; "$a;b,c"]
  = (emptyServer,
     Some (Response 200
             (jsonBody (adhocQueryResultSetV1 [ {[ "c" := JNull; "b" := JNull ]} ]) false))).
Proof. reflexivity. Qed.

(** A query that does not parse: the errors of the parser are answered 400
    with the message for queries. *)
Example v1QueryGet_parse_error :
  v1QueryGet (Qe := memQueryEngine) emptyServer [] [] ["x"; ""]
  = (emptyServer, Some (Response 400 (astErrorV1 400 compileQueryErrMsg ["empty body"]))).
Proof. reflexivity. Qed.
